(** * FinTech API Referee: scoring engine, verdict generator and fallback path

    A shallow embedding of [models.py] and the properties its specification
    states about it.

    Layout:
    - [PyFloat]   : Python floats as IEEE binary64 ([PrimFloat]), their order,
                    [round] and [int];
    - [PyStr]     : strings, [str.lower], substring test, [str.join], [str(int)];
    - data model  : enums, [UserConstraints], [APIInfo], [APIScore], [Verdict];
    - scoring     : the per-category scores, the weighted total, [score_apis]
                    over an object store with a clock and a log;
    - verdict     : [generate_verdict] and its helpers;
    - fallback    : [get_fallback_recommendations], [generate_fallback_verdict];
    - validation  : [validate_constraints], [normalize_constraints] of [app.py];
    - vocabulary  : the notions the statements are written with, and the
                    example inputs;
    - lemmas and theorems, by component. *)

From Stdlib Require Import ZArith List Lia Bool QArith Qround Qabs Qpower Lqa.
From Stdlib Require Import String Ascii.
From Stdlib Require Import Permutation Sorted.
From Stdlib Require Import DecimalString Floats.
Import ListNotations.
Set Warnings "-inexact-float".
Close Scope Q_scope.
Open Scope string_scope.
Open Scope list_scope.

(* ================================================================== *)
(** * Exceptions *)

(** The Python exceptions the modelled code can raise. *)
Inductive Exn : Type :=
| AttributeError
| TypeError
| OverflowError
| ZeroDivisionError
| ValueError (msg : string).

(** The outcome of a call: it returns a value or raises. *)
Inductive result (A : Type) : Type :=
| Ok (a : A)
| Raise (e : Exn).
Arguments Ok {A} a.
Arguments Raise {A} e.

Definition rbind {A B} (r : result A) (k : A -> result B) : result B :=
  match r with
  | Ok a => k a
  | Raise e => Raise e
  end.

Declare Scope py_scope.
Delimit Scope py_scope with py.
Notation "x <- r ;; k" := (rbind r (fun x => k))
  (at level 61, r at next level, right associativity) : py_scope.
Open Scope py_scope.

Definition is_ok {A} (r : result A) : bool :=
  match r with Ok _ => true | Raise _ => false end.

(* ================================================================== *)
(** * Python floats *)

Module PyFloat.

(** A Python [float] is an IEEE 754 binary64 value; [+], [-], [*], [/] and the
    comparisons are the primitive operations of [PrimFloat]. *)
Definition t := PrimFloat.float.

(** The view of a float as sign, mantissa and exponent. *)
Definition view (x : t) : spec_float := Prim2SF x.

Definition SF_is_nan (x : spec_float) : bool :=
  match x with S754_nan => true | _ => false end.

Definition SF_is_finite (x : spec_float) : bool :=
  match x with S754_zero _ | S754_finite _ _ _ => true | _ => false end.

Definition is_nan (x : t) : bool := SF_is_nan (view x).
Definition is_finite (x : t) : bool := SF_is_finite (view x).

(** The value of [m * 2^e] rounded to an integer, ties to the even one. *)
Definition round_half_even (m e : Z) : Z :=
  if (0 <=? e)%Z then (m * 2 ^ e)%Z
  else
    let d := (2 ^ (- e))%Z in
    let q := (m / d)%Z in
    let r := (m mod d)%Z in
    match (2 * r ?= d)%Z with
    | Lt => q
    | Gt => (q + 1)%Z
    | Eq => if Z.even q then q else (q + 1)%Z
    end.

(** The value of [m * 2^e] truncated to an integer. *)
Definition truncate (m e : Z) : Z :=
  if (0 <=? e)%Z then (m * 2 ^ e)%Z else (m / 2 ^ (- e))%Z.

(** [round(x)] with one argument: the nearest integer, ties to even; it
    raises on a NaN ([ValueError]) and on an infinity ([OverflowError]). *)
Definition py_round (x : t) : result Z :=
  match view x with
  | S754_zero _ => Ok 0%Z
  | S754_finite s m e => Ok (cond_Zopp s (round_half_even (Zpos m) e))
  | S754_infinity _ => Raise OverflowError
  | S754_nan => Raise (ValueError "cannot convert float NaN to integer")
  end.

(** [int(x)] on a float: truncation toward zero, raising like [round]. *)
Definition py_int (x : t) : result Z :=
  match view x with
  | S754_zero _ => Ok 0%Z
  | S754_finite s m e => Ok (cond_Zopp s (truncate (Zpos m) e))
  | S754_infinity _ => Raise OverflowError
  | S754_nan => Raise (ValueError "cannot convert float NaN to integer")
  end.

(** The float of a Python [int]; exact below [2^53], which every list length
    and count of this program is. *)
Definition of_int (z : Z) : t := PrimFloat.of_uint63 (Uint63.of_Z z).

(** [a / b] on two ints (true division). *)
Definition truediv_int (a b : Z) : result t :=
  if (b =? 0)%Z then Raise ZeroDivisionError
  else Ok (PrimFloat.div (of_int a) (of_int b)).

(** The rational value of a finite float. *)
Definition SF_value (x : spec_float) : option Q :=
  match x with
  | S754_zero _ => Some 0%Q
  | S754_finite s m e =>
      Some (inject_Z (cond_Zopp s (Zpos m)) * Qpower 2 e)%Q
  | _ => None
  end.

Definition value (x : t) : option Q := SF_value (view x).

End PyFloat.

(* ================================================================== *)
(** * Python strings *)

Module PyStr.

(** A text is the list of the bytes of its UTF-8 encoding; a character of
    ASCII text is one byte below 128. *)

(** [s.isascii()]: every character of the text is an ASCII character. *)
Fixpoint isascii (s : string) : bool :=
  match s with
  | EmptyString => true
  | String c s' => (N_of_ascii c <? 128)%N && isascii s'
  end.

(** [c.lower()] on an ASCII character: the capitals A to Z move to a to z,
    every other byte is kept. *)
Definition lower_ascii (c : ascii) : ascii :=
  let n := N_of_ascii c in
  if ((65 <=? n) && (n <=? 90))%N then ascii_of_N (n + 32) else c.

(** [s.lower()] on ASCII text, which all text of the built-in catalog is.
    The bytes of a character outside ASCII are kept as they are, where
    [str.lower] applies the Unicode case mapping: it lowers a capital such
    as U+00C9, and sends U+212A (the Kelvin sign) to the letter k and
    U+0130 to the letter i followed by U+0307.  So [lower s] is
    [s.lower()] when [isascii s] holds; a statement that reads the lowered
    text of arbitrary input says so in a hypothesis. *)
Fixpoint lower (s : string) : string :=
  match s with
  | EmptyString => EmptyString
  | String c s' => String (lower_ascii c) (lower s')
  end.

(** [hay.startswith(k)]. *)
Fixpoint startswith (k hay : string) : bool :=
  match k, hay with
  | EmptyString, _ => true
  | String a k', String b hay' => Ascii.eqb a b && startswith k' hay'
  | String _ _, EmptyString => false
  end.

(** [k in hay] on two strings: [k] occurs in [hay] as a substring. *)
Fixpoint contains (k hay : string) : bool :=
  startswith k hay ||
  match hay with
  | EmptyString => false
  | String _ hay' => contains k hay'
  end.

(** [sep.join(parts)]. *)
Definition join (sep : string) (parts : list string) : string :=
  String.concat sep parts.

(** [str(n)] on an int, as an f-string prints it. *)
Definition str_int (n : Z) : string :=
  DecimalString.NilZero.string_of_int (Z.to_int n).

(** [bool(s)] on a string. *)
Definition nonempty (s : string) : bool :=
  match s with EmptyString => false | _ => true end.

End PyStr.

(* ================================================================== *)
(** * Data model *)

Inductive BudgetTier := FREE | UNDER_50 | UNDER_200 | ENTERPRISE.
Inductive DataType := STOCKS | CRYPTO | FOREX | OPTIONS | COMMODITIES.
Inductive FrequencyTier := REALTIME | DELAYED | EOD | HISTORICAL.
Inductive UseCase := RESEARCH | TRADING_BOT | PORTFOLIO | EDUCATIONAL.

Scheme Equality for BudgetTier.
Scheme Equality for DataType.
Scheme Equality for FrequencyTier.
Scheme Equality for UseCase.

(** The [.value] of each enum member. *)
Definition BudgetTier_value (b : BudgetTier) : string :=
  match b with
  | FREE => "Free"
  | UNDER_50 => "Under $50/month"
  | UNDER_200 => "Under $200/month"
  | ENTERPRISE => "Enterprise"
  end.

Definition DataType_value (d : DataType) : string :=
  match d with
  | STOCKS => "Stocks"
  | CRYPTO => "Crypto"
  | FOREX => "Forex"
  | OPTIONS => "Options"
  | COMMODITIES => "Commodities"
  end.

Definition FrequencyTier_value (f : FrequencyTier) : string :=
  match f with
  | REALTIME => "Real-time"
  | DELAYED => "Delayed (15-20 min)"
  | EOD => "End-of-day"
  | HISTORICAL => "Historical only"
  end.

Definition UseCase_value (u : UseCase) : string :=
  match u with
  | RESEARCH => "Research/Analysis"
  | TRADING_BOT => "Trading Bot"
  | PORTFOLIO => "Portfolio Tracking"
  | EDUCATIONAL => "Educational"
  end.

Record UserConstraints := {
  budget : BudgetTier;
  data_types : list DataType;
  frequency : FrequencyTier;
  use_case : UseCase
}.

(** A [dict] as its items in insertion order; [dict_get] is [d.get(k)]. *)
Definition dict (K V : Type) := list (K * V).

Fixpoint dict_get {K V} (eqb : K -> K -> bool) (d : dict K V) (k : K) : option V :=
  match d with
  | [] => None
  | (k', v) :: d' => if eqb k' k then Some v else dict_get eqb d' k
  end.

(** [d.get(k, default)]. *)
Definition dict_get_default {K V} (eqb : K -> K -> bool) (d : dict K V) (k : K)
    (default : V) : V :=
  match dict_get eqb d k with
  | Some v => v
  | None => default
  end.

(** A catalog record.  A dataclass checks no field types, so a malformed
    record is an [APIInfo] instance with a field that holds [None] where a
    container is expected: the four fields the scoring reads are options,
    [None] standing for such a value. *)
Record APIInfo := {
  name : string;
  pricing : option (dict BudgetTier bool);
  data_coverage : option (list DataType);
  frequency_support : option (list FrequencyTier);
  rate_limits : dict string Z;
  strengths : list string;
  limitations : list string;
  tos_restrictions : option (list string);
  reliability_score : PyFloat.t;
  last_updated : Z * Z * Z
}.

(** A record all of whose fields hold values of their declared types. *)
Definition well_formed (a : APIInfo) : Prop :=
  pricing a <> None /\ data_coverage a <> None /\
  frequency_support a <> None /\ tos_restrictions a <> None.

(** A scoring result.  [R] is what the [api] field holds: a reference into
    the object store while [score_apis] runs, the record itself once the
    reference is resolved. *)
Record APIScore {R : Type} := {
  api : R;
  total_score : PyFloat.t;
  category_scores : dict string PyFloat.t;
  compatibility_percentage : Z;
  recommendation_rank : Z
}.
Arguments APIScore R : clear implicits.

Definition set_rank {R} (s : APIScore R) (rank : Z) : APIScore R :=
  {| api := api s;
     total_score := total_score s;
     category_scores := category_scores s;
     compatibility_percentage := compatibility_percentage s;
     recommendation_rank := rank |}.

Record Verdict := {
  recommendation_text : string;
  trade_offs : list string;
  next_steps : list string;
  alternative_api : string;
  alternative_reason : string
}.

(* ================================================================== *)
(** * Scoring engine: the per-entry scores *)

(** [x in l] on a list of enum members. *)
Definition py_in_list {A} (eqb : A -> A -> bool) (x : A) (l : list A) : bool :=
  existsb (fun y => eqb y x) l.

(** A string is matched by a keyword list when some keyword occurs in its
    lowercase form; the source's nested loops return on the first match. *)
Definition matches_any (keywords : list string) (text : string) : bool :=
  existsb (fun keyword => PyStr.contains keyword (PyStr.lower text)) keywords.

Definition SCORING_WEIGHTS : dict string PyFloat.t :=
  [("budget", 0.30%float);
   ("data_types", 0.30%float);
   ("frequency", 0.25%float);
   ("use_case", 0.15%float)].

Definition score_budget_compatibility (a : APIInfo) (c : UserConstraints)
    : result PyFloat.t :=
  match pricing a with
  | None => Raise AttributeError
  | Some d =>
      if dict_get_default BudgetTier_beq d (budget c) false
      then Ok 100%float
      else Ok 0%float
  end.

Definition score_data_type_coverage (a : APIInfo) (c : UserConstraints)
    : result PyFloat.t :=
  match data_types c with
  | [] => Ok 100%float
  | dts =>
      match data_coverage a with
      | None => Raise TypeError
      | Some cov =>
          let covered :=
            Z.of_nat (List.length (filter (fun dt => py_in_list DataType_beq dt cov) dts)) in
          q <- PyFloat.truediv_int covered (Z.of_nat (List.length dts)) ;;
          Ok (q * 100)%float
      end
  end.

Definition score_frequency_availability (a : APIInfo) (c : UserConstraints)
    : result PyFloat.t :=
  match frequency_support a with
  | None => Raise TypeError
  | Some fs =>
      if py_in_list FrequencyTier_beq (frequency c) fs
      then Ok 100%float
      else Ok 0%float
  end.

Definition commercial_use_cases : list UseCase := [TRADING_BOT].

(** The keyword list of the scoring engine's commercial-penalty check. *)
Definition commercial_restricted_keywords : list string :=
  ["commercial use explicitly prohibited";
   "non-commercial use only";
   "personal/educational use only";
   "free tier for non-commercial use only"].

Definition commercial_allowed_keywords : list string :=
  ["commercial use allowed";
   "commercial use included"].

Definition score_use_case_suitability (a : APIInfo) (c : UserConstraints)
    : result PyFloat.t :=
  if py_in_list UseCase_beq (use_case c) commercial_use_cases then
    match tos_restrictions a with
    | None => Raise TypeError
    | Some tos =>
        if existsb (matches_any commercial_restricted_keywords) tos
        then Ok 25%float
        else if existsb (matches_any commercial_allowed_keywords) tos
        then Ok 100%float
        else Ok 75%float
    end
  else Ok 100%float.

Definition calculate_category_scores (a : APIInfo) (c : UserConstraints)
    : result (dict string PyFloat.t) :=
  b <- score_budget_compatibility a c ;;
  d <- score_data_type_coverage a c ;;
  f <- score_frequency_availability a c ;;
  u <- score_use_case_suitability a c ;;
  Ok [("budget", b); ("data_types", d); ("frequency", f); ("use_case", u)].

Definition calculate_total_score (category_scores : dict string PyFloat.t)
    (weights : option (dict string PyFloat.t)) : PyFloat.t :=
  let weights := match weights with None => SCORING_WEIGHTS | Some w => w end in
  fold_left
    (fun total '(category, score) =>
       let weight := dict_get_default String.eqb weights category 0%float in
       (total + score * weight)%float)
    category_scores 0%float.

Definition calculate_compatibility_percentage (total_score : PyFloat.t)
    : result Z :=
  r <- PyFloat.py_round total_score ;;
  Ok (Z.max 0 (Z.min 100 r)).

(** The three values the body of the scoring loop computes for one entry
    before it appends the [APIScore]. *)
Definition score_entry (a : APIInfo) (c : UserConstraints)
    : result (dict string PyFloat.t * PyFloat.t * Z) :=
  category_scores <- calculate_category_scores a c ;;
  let total_score := calculate_total_score category_scores None in
  compatibility <- calculate_compatibility_percentage total_score ;;
  Ok (category_scores, total_score, compatibility).

(* ================================================================== *)
(** * The built-in catalog *)

Definition get_all_apis : list APIInfo :=
[
  {| name := "Alpha Vantage";
     pricing := Some [(FREE, true); (UNDER_50, true); (UNDER_200, true); (ENTERPRISE, true)];
     data_coverage := Some [STOCKS; CRYPTO; FOREX; COMMODITIES];
     frequency_support := Some [REALTIME; DELAYED; EOD; HISTORICAL];
     rate_limits := [("requests_per_minute", 5%Z); ("requests_per_day", 500%Z)];
     strengths :=
      ["Generous free tier with 500 requests/day";
       "Excellent documentation and community support";
       "Wide data coverage including stocks, crypto, forex";
       "Technical indicators built-in";
       "Stable and reliable service"];
     limitations :=
      ["Strict rate limits on free tier (5 req/min)";
       "No options data available";
       "Real-time data requires premium subscription";
       "Limited historical depth on free tier"];
     tos_restrictions := Some
      ["Attribution required for free tier usage";
       "Commercial use allowed with proper licensing";
       "No redistribution of raw data without permission"];
     reliability_score := 0.85%float;
     last_updated := (2025, 1, 10)%Z |};
  {| name := "Polygon.io";
     pricing := Some [(FREE, true); (UNDER_50, true); (UNDER_200, true); (ENTERPRISE, true)];
     data_coverage := Some [STOCKS; CRYPTO; FOREX; OPTIONS];
     frequency_support := Some [REALTIME; DELAYED; EOD; HISTORICAL];
     rate_limits := [("requests_per_minute", 5%Z); ("requests_per_day", 1000%Z)];
     strengths :=
      ["Institutional-grade data quality";
       "Excellent real-time streaming capabilities";
       "Comprehensive options data";
       "WebSocket support for live data";
       "Strong API design and documentation"];
     limitations :=
      ["Free tier has limited features";
       "Premium pricing for full real-time access";
       "Some advanced features require enterprise plan";
       "Learning curve for WebSocket integration"];
     tos_restrictions := Some
      ["Free tier for personal/non-commercial use only";
       "Commercial use requires paid subscription";
       "Data redistribution prohibited without license";
       "Must comply with exchange data policies"];
     reliability_score := 0.92%float;
     last_updated := (2025, 1, 10)%Z |};
  {| name := "Yahoo Finance";
     pricing := Some [(FREE, true); (UNDER_50, false); (UNDER_200, false); (ENTERPRISE, false)];
     data_coverage := Some [STOCKS; CRYPTO; FOREX; OPTIONS; COMMODITIES];
     frequency_support := Some [DELAYED; EOD; HISTORICAL];
     rate_limits := [("requests_per_minute", 100%Z); ("requests_per_day", 2000%Z)];
     strengths :=
      ["Completely free to use";
       "Wide coverage of global markets";
       "Good historical data depth";
       "Options chain data available";
       "Easy to use with yfinance library"];
     limitations :=
      ["Unofficial API - may break without notice";
       "No official support or SLA";
       "Data quality can be inconsistent";
       "No real-time data available";
       "Rate limiting can be unpredictable"];
     tos_restrictions := Some
      ["Commercial use explicitly prohibited";
       "No redistribution allowed";
       "Personal/educational use only";
       "Terms may change without notice";
       "Scraping may violate TOS"];
     reliability_score := 0.60%float;
     last_updated := (2025, 1, 10)%Z |};
  {| name := "Finnhub";
     pricing := Some [(FREE, true); (UNDER_50, true); (UNDER_200, true); (ENTERPRISE, true)];
     data_coverage := Some [STOCKS; CRYPTO; FOREX];
     frequency_support := Some [REALTIME; DELAYED; EOD; HISTORICAL];
     rate_limits := [("requests_per_minute", 60%Z); ("requests_per_day", 1500%Z)];
     strengths :=
      ["Strong alternative data (news, sentiment)";
       "Good free tier with 60 req/min";
       "Real-time WebSocket support";
       "Company fundamentals and financials";
       "Developer-friendly API design"];
     limitations :=
      ["No options data";
       "No commodities data";
       "Limited historical depth on free tier";
       "Some features US-market focused"];
     tos_restrictions := Some
      ["Free tier allows commercial use with attribution";
       "Data redistribution requires enterprise license";
       "Must display Finnhub attribution in apps"];
     reliability_score := 0.88%float;
     last_updated := (2025, 1, 10)%Z |};
  {| name := "EODHD";
     pricing := Some [(FREE, true); (UNDER_50, true); (UNDER_200, true); (ENTERPRISE, true)];
     data_coverage := Some [STOCKS; CRYPTO; FOREX; OPTIONS; COMMODITIES];
     frequency_support := Some [DELAYED; EOD; HISTORICAL];
     rate_limits := [("requests_per_minute", 20%Z); ("requests_per_day", 1000%Z)];
     strengths :=
      ["Excellent historical data (30+ years)";
       "Global market coverage (70+ exchanges)";
       "Comprehensive fundamental data";
       "Good value for price";
       "Options and commodities included"];
     limitations :=
      ["No real-time streaming data";
       "API can be slower than competitors";
       "Documentation could be improved";
       "Limited free tier features"];
     tos_restrictions := Some
      ["Commercial use allowed on paid plans";
       "Free tier for evaluation only";
       "Data redistribution requires special license";
       "Must comply with exchange agreements"];
     reliability_score := 0.82%float;
     last_updated := (2025, 1, 10)%Z |};
  {| name := "Quandl";
     pricing := Some [(FREE, false); (UNDER_50, false); (UNDER_200, true); (ENTERPRISE, true)];
     data_coverage := Some [STOCKS; FOREX; COMMODITIES];
     frequency_support := Some [EOD; HISTORICAL];
     rate_limits := [("requests_per_minute", 300%Z); ("requests_per_day", 50000%Z)];
     strengths :=
      ["Premium institutional-grade data";
       "Extensive alternative datasets";
       "High data quality and accuracy";
       "Excellent for quantitative research";
       "Strong data governance and compliance"];
     limitations :=
      ["No free tier available";
       "Premium pricing (starts ~$100/month)";
       "No real-time data";
       "No crypto data";
       "No options data"];
     tos_restrictions := Some
      ["Commercial use included in subscription";
       "Data redistribution strictly prohibited";
       "Must comply with Nasdaq data policies";
       "Audit rights reserved by provider"];
     reliability_score := 0.95%float;
     last_updated := (2025, 1, 10)%Z |};
  {| name := "Marketstack";
     pricing := Some [(FREE, true); (UNDER_50, true); (UNDER_200, true); (ENTERPRISE, true)];
     data_coverage := Some [STOCKS];
     frequency_support := Some [DELAYED; EOD; HISTORICAL];
     rate_limits := [("requests_per_minute", 10%Z); ("requests_per_day", 100%Z)];
     strengths :=
      ["Simple REST API design";
       "Good for beginners";
       "Global stock market coverage";
       "Easy integration";
       "Clear documentation"];
     limitations :=
      ["Stocks only - no crypto, forex, options";
       "Very limited free tier (100 req/day)";
       "No real-time data";
       "Basic feature set compared to competitors";
       "Limited technical indicators"];
     tos_restrictions := Some
      ["Free tier for non-commercial use only";
       "Commercial use requires paid plan";
       "No data redistribution";
       "Attribution appreciated but not required"];
     reliability_score := 0.78%float;
     last_updated := (2025, 1, 10)%Z |}
].

Arguments get_all_apis : simpl never.

(* ================================================================== *)
(** * The object store, the clock and the log *)

(** A reference to an object of the store. *)
Abbreviation loc := nat (only parsing).

(** The objects [score_apis] reads and writes: catalog records, and
    [APIScore] objects whose [api] field refers to a catalog record. *)
Inductive Obj : Type :=
| ObjInfo (a : APIInfo)
| ObjScore (s : APIScore loc).

Inductive LogLevel := DEBUG | INFO | WARNING | ERROR | CRITICAL.

(** The log messages of [score_apis], each with the values it formats. *)
Inductive LogMsg : Type :=
| Msg_scoring (count : nat)
| Msg_scored (api_name : string) (total : PyFloat.t) (compatibility : Z)
    (api_time : PyFloat.t)
| Msg_error_scoring (api_name : string) (e : Exn)
| Msg_none_scored
| Msg_ranked (count : nat) (total_time sort_time : PyFloat.t)
| Msg_performance_issue (total_time : PyFloat.t)
| Msg_performance_slow (total_time : PyFloat.t)
| Msg_performance_good (total_time : PyFloat.t)
| Msg_critical (e : Exn) (total_time : PyFloat.t).

(** The state a call runs in: the object store, the readings [time.time()]
    will return and how many were taken, and the log written so far. *)
Record World := {
  heap : list Obj;
  clock : nat -> PyFloat.t;
  ticks : nat;
  log : list (LogLevel * LogMsg)
}.

Definition with_heap (w : World) (h : list Obj) : World :=
  {| heap := h; clock := clock w; ticks := ticks w; log := log w |}.

(** A computation over the world. *)
Definition M (A : Type) : Type := World -> A * World.

Definition mret {A} (a : A) : M A := fun w => (a, w).

Definition mbind {A B} (m : M A) (k : A -> M B) : M B :=
  fun w => let (a, w') := m w in k a w'.

(** Sequencing that stops at the first exception. *)
Definition ebind {A B} (m : M (result A)) (k : A -> M (result B)) : M (result B) :=
  fun w =>
    let (r, w') := m w in
    match r with
    | Ok a => k a w'
    | Raise e => (Raise e, w')
    end.

Notation "x <~ m ;; k" := (mbind m (fun x => k))
  (at level 61, m at next level, right associativity) : py_scope.
Notation "m ;;; k" := (mbind m (fun _ => k))
  (at level 61, right associativity) : py_scope.
Notation "x <~~ m ;; k" := (ebind m (fun x => k))
  (at level 61, m at next level, right associativity) : py_scope.

(** [time.time()]. *)
Definition time_time : M PyFloat.t :=
  fun w =>
    (clock w (ticks w),
     {| heap := heap w; clock := clock w; ticks := S (ticks w); log := log w |}).

(** [logger.<level>(message)]. *)
Definition logger (level : LogLevel) (msg : LogMsg) : M unit :=
  fun w =>
    (tt,
     {| heap := heap w; clock := clock w; ticks := ticks w;
        log := log w ++ [(level, msg)] |}).

(** Constructing an object: it gets the next free reference. *)
Definition alloc (o : Obj) : M loc :=
  fun w => (List.length (heap w), with_heap w (heap w ++ [o])).

Definition deref (l : loc) : M (option Obj) :=
  fun w => (nth_error (heap w) l, w).

Fixpoint list_set {A} (l : list A) (i : nat) (x : A) : list A :=
  match l, i with
  | [], _ => []
  | _ :: t, O => x :: t
  | h :: t, S i' => h :: list_set t i' x
  end.

(** Writing an attribute of the object at [l]: the object is replaced. *)
Definition store (l : loc) (o : Obj) : M unit :=
  fun w => (tt, with_heap w (list_set (heap w) l o)).

(** [get_all_apis()] builds the catalog records anew on every call. *)
Fixpoint alloc_all (records : list APIInfo) : M (list loc) :=
  match records with
  | [] => mret []
  | a :: rest =>
      l <~ alloc (ObjInfo a) ;;
      ls <~ alloc_all rest ;;
      mret (l :: ls)
  end.

(* ================================================================== *)
(** * [list.sort(key=..., reverse=True)] *)

Section SortByKey.
Context {A : Type} (key : A -> PyFloat.t).

(** [x], which precedes all of [l] in the input, goes before the first
    element whose key is not above its own: after every greater key, before
    every equal one. *)
Fixpoint insert_reverse (x : A) (l : list A) : list A :=
  match l with
  | [] => [x]
  | y :: l' =>
      if (key x <? key y)%float then y :: insert_reverse x l'
      else x :: l
  end.

(** The stable sort by decreasing key.  [list.sort] is stable and compares
    keys with [<] only; on keys that [<] orders (no NaN among them) every
    stable sort returns this list.  With a NaN among the keys [<] is no
    order, and the list [list.sort] returns depends on the comparisons its
    merge makes: that case is not modelled.  It does not arise for the
    totals [score_apis] sorts, which are finite, nor for the reliabilities
    of the built-in catalog. *)
Definition sort_reverse (l : list A) : list A :=
  fold_right insert_reverse [] l.
End SortByKey.

(* ================================================================== *)
(** * [score_apis] *)

(** The body of the [try] of the scoring loop for the entry [entry]; it
    returns the reference of the [APIScore] it appended. *)
Definition score_one (c : UserConstraints) (entry : loc) : M (result loc) :=
  api_start_time <~ time_time ;;
  o <~ deref entry ;;
  match o with
  | Some (ObjInfo a) =>
      match score_entry a c with
      | Raise e => mret (Raise e)
      | Ok (scores, total, compatibility) =>
          l <~ alloc (ObjScore {| api := entry;
                                  total_score := total;
                                  category_scores := scores;
                                  compatibility_percentage := compatibility;
                                  recommendation_rank := 0 |}) ;;
          finish <~ time_time ;;
          logger DEBUG
            (Msg_scored (name a) total compatibility (finish - api_start_time)%float) ;;;
          mret (Ok l)
      end
  | _ => mret (Raise AttributeError)
  end.

(** The scoring loop: an entry whose scoring raises is logged by name and
    skipped.  The handler reads [api.name]; on an entry that is no [APIInfo]
    that read raises in turn and ends the loop. *)
Fixpoint score_loop (c : UserConstraints) (apis : list loc) (scored_apis : list loc)
    : M (result (list loc)) :=
  match apis with
  | [] => mret (Ok scored_apis)
  | entry :: rest =>
      r <~ score_one c entry ;;
      match r with
      | Ok l => score_loop c rest (scored_apis ++ [l])
      | Raise e =>
          o <~ deref entry ;;
          match o with
          | Some (ObjInfo a) =>
              logger ERROR (Msg_error_scoring (name a) e) ;;;
              score_loop c rest scored_apis
          | _ => mret (Raise AttributeError)
          end
      end
  end.

(** Reading [x.total_score] for the sort key. *)
Definition read_total (l : loc) : M (result PyFloat.t) :=
  o <~ deref l ;;
  match o with
  | Some (ObjScore s) => mret (Ok (total_score s))
  | _ => mret (Raise AttributeError)
  end.

Fixpoint read_totals (ls : list loc) : M (result (list PyFloat.t)) :=
  match ls with
  | [] => mret (Ok [])
  | l :: rest =>
      k <~~ read_total l ;;
      ks <~~ read_totals rest ;;
      mret (Ok (k :: ks))
  end.

(** [for rank, scored_api in enumerate(scored_apis, start=rank): ...]. *)
Fixpoint assign_ranks (rank : Z) (ls : list loc) : M (result unit) :=
  match ls with
  | [] => mret (Ok tt)
  | l :: rest =>
      o <~ deref l ;;
      match o with
      | Some (ObjScore s) =>
          store l (ObjScore (set_rank s rank)) ;;;
          assign_ranks (rank + 1) rest
      | _ => mret (Raise AttributeError)
      end
  end.

Definition no_apis_scored : Exn :=
  ValueError "Unable to score any APIs - all scoring attempts failed".

(** The part of the outer [try] after the loop has scored an entry: sort,
    assign the ranks, log the timings. *)
Definition sort_and_rank (start_time : PyFloat.t) (scored_apis : list loc)
    : M (result (list loc)) :=
  sort_start_time <~ time_time ;;
  keys <~~ read_totals scored_apis ;;
  let scored_apis := map snd (sort_reverse fst (combine keys scored_apis)) in
  sorted_at <~ time_time ;;
  let sort_time := (sorted_at - sort_start_time)%float in
  _ <~~ assign_ranks 1 scored_apis ;;
  finish <~ time_time ;;
  let total_time := (finish - start_time)%float in
  logger INFO (Msg_ranked (List.length scored_apis) total_time sort_time) ;;;
  (if (2 <? total_time)%float then
     logger WARNING (Msg_performance_issue total_time)
   else if (1 <? total_time)%float then
     logger INFO (Msg_performance_slow total_time)
   else
     logger DEBUG (Msg_performance_good total_time)) ;;;
  mret (Ok scored_apis).

(** [if apis is None: apis = get_all_apis()]. *)
Definition load_apis (apis : option (list loc)) : M (list loc) :=
  match apis with
  | None => alloc_all get_all_apis
  | Some ls => mret ls
  end.

(** The body of the outer [try]. *)
Definition score_apis_try (start_time : PyFloat.t) (c : UserConstraints)
    (apis : option (list loc)) : M (result (list loc)) :=
  apis <~ load_apis apis ;;
  logger INFO (Msg_scoring (List.length apis)) ;;;
  scored_apis <~~ score_loop c apis [] ;;
  match scored_apis with
  | [] =>
      logger ERROR Msg_none_scored ;;;
      mret (Raise no_apis_scored)
  | _ => sort_and_rank start_time scored_apis
  end.

(** [score_apis(constraints, apis)]: the references of the ranked
    [APIScore] objects, best first.  The outer handler logs and re-raises. *)
Definition score_apis (c : UserConstraints) (apis : option (list loc))
    : M (result (list loc)) :=
  start_time <~ time_time ;;
  r <~ score_apis_try start_time c apis ;;
  match r with
  | Ok ranked => mret (Ok ranked)
  | Raise e =>
      failed_at <~ time_time ;;
      logger ERROR (Msg_critical e (failed_at - start_time)%float) ;;;
      mret (Raise e)
  end.

(** The [APIScore] behind a reference, with its [api] reference resolved. *)
Definition resolve (h : list Obj) (l : loc) : option (APIScore APIInfo) :=
  match nth_error h l with
  | Some (ObjScore s) =>
      match nth_error h (api s) with
      | Some (ObjInfo a) =>
          Some {| api := a;
                  total_score := total_score s;
                  category_scores := category_scores s;
                  compatibility_percentage := compatibility_percentage s;
                  recommendation_rank := recommendation_rank s |}
      | _ => None
      end
  | _ => None
  end.

(* ================================================================== *)
(** * Verdict generator *)

(** The verdict generator only reads the scores it is given: it is modelled
    on scores whose [api] reference is resolved.  Its logging and timing
    calls, which the returned value does not depend on, are left out. *)

Definition LOW_RELIABILITY_THRESHOLD : PyFloat.t := 0.70%float.

Definition SIGNIFICANT_LIMITATION_KEYWORDS : list string :=
  ["commercial use explicitly prohibited";
   "non-commercial use only";
   "personal/educational use only";
   "unofficial api";
   "may break without notice"].

(** The keyword list of [has_tos_restrictions_for_use_case]. *)
Definition tos_conflict_keywords : list string :=
  ["commercial use explicitly prohibited";
   "non-commercial use only";
   "personal/educational use only";
   "free tier for non-commercial use only";
   "free tier for personal/non-commercial use only"].

Definition has_tos_restrictions_for_use_case (a : APIInfo) (u : UseCase)
    : result bool :=
  if py_in_list UseCase_beq u commercial_use_cases then
    match tos_restrictions a with
    | None => Raise TypeError
    | Some tos => Ok (existsb (matches_any tos_conflict_keywords) tos)
    end
  else Ok false.

Definition has_significant_limitations (api_score : APIScore APIInfo)
    (c : UserConstraints) : result bool :=
  let a := api api_score in
  if (reliability_score a <? LOW_RELIABILITY_THRESHOLD)%float then Ok true
  else
    conflict <- has_tos_restrictions_for_use_case a (use_case c) ;;
    if conflict then Ok true
    else Ok (existsb (matches_any SIGNIFICANT_LIMITATION_KEYWORDS) (limitations a)).

(** [f"{int(x * 100)}"]. *)
Definition percent (x : PyFloat.t) : result string :=
  n <- PyFloat.py_int (x * 100)%float ;;
  Ok (PyStr.str_int n).

Definition instability_phrases : list string :=
  ["unofficial api"; "may break without notice"].

Definition get_limitation_reasons (api_score : APIScore APIInfo)
    (c : UserConstraints) : result (list string) :=
  let a := api api_score in
  reasons <-
    (if (reliability_score a <? LOW_RELIABILITY_THRESHOLD)%float then
       p <- percent (reliability_score a) ;;
       Ok [("lower reliability score (" ++ p ++ "%)")%string]
     else Ok []) ;;
  conflict <- has_tos_restrictions_for_use_case a (use_case c) ;;
  let reasons :=
    if conflict
    then reasons ++ ["TOS restrictions that may conflict with your use case"]
    else reasons in
  let reasons :=
    if existsb (matches_any instability_phrases) (limitations a)
    then reasons ++ ["potential stability concerns (unofficial API)"]
    else reasons in
  Ok reasons.

Definition generate_next_steps (a : APIInfo) (c : UserConstraints) : list string :=
  let step1 :=
    if BudgetTier_beq (budget c) FREE
    then ("Sign up for a free " ++ name a ++ " account and get your API key")%string
    else ("Visit " ++ name a ++ "'s pricing page and select the "
          ++ BudgetTier_value (budget c) ++ " plan")%string in
  let step2 :=
    ("Review " ++ name a ++ "'s API documentation for "
     ++ PyStr.join ", " (map DataType_value (data_types c)) ++ " endpoints")%string in
  let step3 :=
    match rate_limits a with
    | [] => []
    | _ =>
        let rpm :=
          match dict_get String.eqb (rate_limits a) "requests_per_minute" with
          | Some n => PyStr.str_int n
          | None => "N/A"
          end in
        [("Plan your request strategy around the " ++ rpm
          ++ " requests/minute rate limit")%string]
    end in
  let step4 :=
    match tos_restrictions a with
    | Some (_ :: _) =>
        if UseCase_beq (use_case c) TRADING_BOT
        then ["Review the Terms of Service to ensure compliance with commercial use requirements"]
        else ["Review the Terms of Service for any attribution or usage requirements"]
    | _ => []
    end in
  [step1; step2] ++ step3 ++ step4.

(** [set(l)] as a duplicate-free list. *)
Fixpoint py_set (l : list DataType) : list DataType :=
  match l with
  | [] => []
  | x :: l' =>
      if py_in_list DataType_beq x l' then py_set l' else x :: py_set l'
  end.

Section Verdict.

(** The order in which a set of enum members is iterated: it follows the
    members' hashes, which Python draws anew for each process. *)
Variable set_iter : list DataType -> list DataType.

Definition generate_trade_offs (top_api runner_up : APIScore APIInfo)
    (c : UserConstraints) : result (list string) :=
  let top := api top_api in
  let second := api runner_up in
  t1 <-
    (if (reliability_score top <? reliability_score second)%float then
       p2 <- percent (reliability_score second) ;;
       p1 <- percent (reliability_score top) ;;
       Ok [("Choose **" ++ name second ++ "** if you need higher reliability ("
            ++ p2 ++ "% vs " ++ p1 ++ "%)")%string]
     else Ok []) ;;
  let top_rpm := dict_get_default String.eqb (rate_limits top) "requests_per_minute" 0%Z in
  let second_rpm :=
    dict_get_default String.eqb (rate_limits second) "requests_per_minute" 0%Z in
  let t2 :=
    if (top_rpm <? second_rpm)%Z then
      [("Choose **" ++ name second ++ "** if you need higher rate limits ("
        ++ PyStr.str_int second_rpm ++ " vs " ++ PyStr.str_int top_rpm
        ++ " requests/minute)")%string]
    else [] in
  top_coverage <-
    match data_coverage top with Some l => Ok (py_set l) | None => Raise TypeError end ;;
  second_coverage <-
    match data_coverage second with Some l => Ok (py_set l) | None => Raise TypeError end ;;
  let second_only :=
    set_iter (filter (fun dt => negb (py_in_list DataType_beq dt top_coverage))
                second_coverage) in
  let t3 :=
    match second_only with
    | [] => []
    | _ =>
        [("Choose **" ++ name second ++ "** if you also need "
          ++ PyStr.join ", " (map DataType_value second_only) ++ " data")%string]
    end in
  t4 <-
    (if BudgetTier_beq (budget c) FREE then
       match pricing top with
       | None => Raise AttributeError
       | Some top_pricing =>
           if dict_get_default BudgetTier_beq top_pricing FREE false then
             match pricing second with
             | None => Raise AttributeError
             | Some second_pricing =>
                 if dict_get_default BudgetTier_beq second_pricing FREE false
                 then Ok []
                 else Ok [("**" ++ name top ++ "** offers a free tier while **"
                           ++ name second ++ "** requires payment")%string]
             end
           else Ok []
       end
     else Ok []) ;;
  let t5 :=
    match strengths top, strengths second with
    | strength :: _, _ :: _ =>
        [("**" ++ name top ++ "** excels at: " ++ PyStr.lower strength)%string]
    | _, _ => []
    end in
  Ok (t1 ++ t2 ++ t3 ++ t4 ++ t5).

(** The recommendation text of [generate_verdict]. *)
Definition recommendation_for (winner : APIScore APIInfo) (c : UserConstraints)
    : result string :=
  let part1 :=
    ("**" ++ name (api winner) ++ "** is your best match with a **"
     ++ PyStr.str_int (compatibility_percentage winner)
     ++ "% compatibility score**.")%string in
  let part2 :=
    match strengths (api winner) with
    | top_strength :: _ => [("Key advantage: " ++ top_strength)%string]
    | [] => []
    end in
  part3 <-
    (if BudgetTier_beq (budget c) FREE then
       match pricing (api winner) with
       | None => Raise AttributeError
       | Some p =>
           if dict_get_default BudgetTier_beq p FREE false
           then Ok ["This API offers a **free tier** that meets your budget requirements."]
           else Ok []
       end
     else
       Ok [("This API supports your **" ++ BudgetTier_value (budget c)
            ++ "** budget tier.")%string]) ;;
  Ok (PyStr.join " " ([part1] ++ part2 ++ part3)).

(** The sentence that proposes the runner-up. *)
Definition alternative_sentence (winner runner_up : APIScore APIInfo)
    (limitation_reasons : list string) : result string :=
  let reasons_text := PyStr.join " and " limitation_reasons in
  reliability <- percent (reliability_score (api runner_up)) ;;
  Ok ("Consider **" ++ name (api runner_up) ++ "** as an alternative due to "
      ++ name (api winner) ++ "'s " ++ reasons_text ++ ". "
      ++ name (api runner_up) ++ " has a "
      ++ PyStr.str_int (compatibility_percentage runner_up)
      ++ "% compatibility score and " ++ reliability ++ "% reliability.")%string.

(** The [try] block that fills [alternative_api] and [alternative_reason].
    [alternative_api] is assigned before the sentence is built: when
    building the sentence raises, the name stays and the reason is empty. *)
Definition alternative_for (winner : APIScore APIInfo)
    (runner_up : option (APIScore APIInfo)) (c : UserConstraints)
    : string * string :=
  match has_significant_limitations winner c, runner_up with
  | Ok true, Some second =>
      match get_limitation_reasons winner c with
      | Ok (reason :: reasons) =>
          match alternative_sentence winner second (reason :: reasons) with
          | Ok sentence => (name (api second), sentence)
          | Raise _ => (name (api second), "")
          end
      | _ => ("", "")
      end
  | _, _ => ("", "")
  end.

Definition generate_verdict (top_apis : list (APIScore APIInfo))
    (c : UserConstraints) : Verdict :=
  match top_apis with
  | [] =>
      {| recommendation_text := "No APIs available for evaluation.";
         trade_offs := [];
         next_steps := ["Please check your constraints and try again."];
         alternative_api := "";
         alternative_reason := "" |}
  | winner :: rest =>
      let runner_up := hd_error rest in
      match recommendation_for winner c with
      | Raise _ =>
          {| recommendation_text :=
               "**Unable to generate detailed recommendation** due to a system error. Please try again.";
             trade_offs := ["System encountered an error during analysis"];
             next_steps :=
               ["Try refreshing the page and submitting your constraints again";
                "If the problem persists, consider manually reviewing the API options";
                "Contact support if you continue to experience issues"];
             alternative_api := "";
             alternative_reason := "" |}
      | Ok text =>
          let offs :=
            match runner_up with
            | Some second =>
                match generate_trade_offs winner second c with
                | Ok l => l
                | Raise _ => []
                end
            | None => []
            end in
          let alternative := alternative_for winner runner_up c in
          {| recommendation_text := text;
             trade_offs := offs;
             next_steps := generate_next_steps (api winner) c;
             alternative_api := fst alternative;
             alternative_reason := snd alternative |}
      end
  end.

End Verdict.

(* ================================================================== *)
(** * Fallback path *)

Fixpoint enumerate_ranks {R} (rank : Z) (l : list (APIScore R)) : list (APIScore R) :=
  match l with
  | [] => []
  | s :: rest => set_rank s rank :: enumerate_ranks (rank + 1) rest
  end.

(** [any(dt in api.data_coverage for dt in constraints.data_types)]: the
    coverage is not read when no data type is requested. *)
Definition covers_any (a : APIInfo) (c : UserConstraints) : result bool :=
  match data_types c with
  | [] => Ok false
  | dts =>
      match data_coverage a with
      | None => Raise TypeError
      | Some cov => Ok (existsb (fun dt => py_in_list DataType_beq dt cov) dts)
      end
  end.

(** The body of the first loop of [get_fallback_recommendations]: the score
    appended for a compatible record, [None] for a record it skips. *)
Definition fallback_score (c : UserConstraints) (a : APIInfo)
    : result (option (APIScore APIInfo)) :=
  match pricing a with
  | None => Raise AttributeError
  | Some p =>
      let budget_compatible := dict_get_default BudgetTier_beq p (budget c) false in
      data_compatible <- covers_any a c ;;
      if negb budget_compatible || negb data_compatible then Ok None
      else
        fallback_compatibility <- PyFloat.py_int (reliability_score a * 100)%float ;;
        Ok (Some
              {| api := a;
                 total_score := (reliability_score a * 100)%float;
                 category_scores :=
                   [("budget", if budget_compatible then 100%float else 0%float);
                    ("data_types", if data_compatible then 100%float else 0%float);
                    ("frequency", 75%float);
                    ("use_case", 75%float)];
                 compatibility_percentage := fallback_compatibility;
                 recommendation_rank := 0 |})
  end.

Fixpoint fallback_scores (c : UserConstraints) (apis : list APIInfo)
    : result (list (APIScore APIInfo)) :=
  match apis with
  | [] => Ok []
  | a :: rest =>
      o <- fallback_score c a ;;
      l <- fallback_scores c rest ;;
      Ok match o with Some s => s :: l | None => l end
  end.

(** The scores of the second loop: the most reliable records, whatever
    their compatibility, ranked from [rank]. *)
Fixpoint most_reliable_scores (rank : Z) (apis : list APIInfo)
    : result (list (APIScore APIInfo)) :=
  match apis with
  | [] => Ok []
  | a :: rest =>
      compatibility <- PyFloat.py_int (reliability_score a * 100)%float ;;
      l <- most_reliable_scores (rank + 1) rest ;;
      Ok ({| api := a;
             total_score := (reliability_score a * 100)%float;
             category_scores :=
               [("budget", 50%float); ("data_types", 50%float);
                ("frequency", 50%float); ("use_case", 50%float)];
             compatibility_percentage := compatibility;
             recommendation_rank := rank |} :: l)
  end.

(** The body of the [try] of [get_fallback_recommendations], on the catalog
    [get_all_apis()] returns.  Both sorts are on the reliability, so their
    order is the code's for a catalog without a NaN reliability, as the
    built-in one is (see [sort_reverse]). *)
Definition fallback_try (catalog : list APIInfo) (c : UserConstraints)
    : result (list (APIScore APIInfo)) :=
  fallback_scores0 <- fallback_scores c catalog ;;
  let sorted := sort_reverse (fun x => reliability_score (api x)) fallback_scores0 in
  let ranked_scores := enumerate_ranks 1 sorted in
  match ranked_scores with
  | [] =>
      let all_apis := sort_reverse reliability_score catalog in
      most_reliable_scores 1 (firstn 3 all_apis)
  | _ => Ok ranked_scores
  end.

(** The last resort of the handler: three records picked by name. *)
Fixpoint hardcoded_scores (rank : Z) (apis : list APIInfo) : list (APIScore APIInfo) :=
  match apis with
  | [] => []
  | a :: rest =>
      {| api := a;
         total_score := 75%float;
         category_scores :=
           [("budget", 75%float); ("data_types", 75%float);
            ("frequency", 75%float); ("use_case", 75%float)];
         compatibility_percentage := 75;
         recommendation_rank := rank |} :: hardcoded_scores (rank + 1) rest
  end.

Definition fallback_handler (catalog : list APIInfo) : list (APIScore APIInfo) :=
  let reliable_apis :=
    filter (fun a => py_in_list String.eqb (name a)
                       ["Alpha Vantage"; "Polygon.io"; "Finnhub"]) catalog in
  let reliable_apis :=
    match reliable_apis with
    | [] => firstn 3 catalog
    | _ => reliable_apis
    end in
  hardcoded_scores 1 reliable_apis.

Definition fallback_recommendations_from (catalog : list APIInfo)
    (c : UserConstraints) : list (APIScore APIInfo) :=
  match fallback_try catalog c with
  | Ok scores => scores
  | Raise _ => fallback_handler catalog
  end.

Definition get_fallback_recommendations (c : UserConstraints)
    : list (APIScore APIInfo) :=
  fallback_recommendations_from get_all_apis c.

(* ================================================================== *)
(** * Fallback verdict *)

(** The verdict [generate_fallback_verdict] returns from its handler. *)
Definition unavailable_verdict : Verdict :=
  {| recommendation_text := "**System temporarily unavailable** - please try again later.";
     trade_offs := ["All recommendation systems are currently experiencing issues"];
     next_steps :=
       ["Please try again in a few minutes";
        "Check your internet connection";
        "Contact support if the problem persists"];
     alternative_api := "";
     alternative_reason := "" |}.

(** The body of the [try] of [generate_fallback_verdict], on the list
    [get_fallback_recommendations] returned. *)
Definition fallback_verdict_try (fallback_apis : list (APIScore APIInfo))
    : result Verdict :=
  parts <-
    match fallback_apis with
    | winner :: _ =>
        reliability <- percent (reliability_score (api winner)) ;;
        Ok (("**" ++ name (api winner) ++ "** is recommended based on reliability "
             ++ "(system is operating in fallback mode). "
             ++ "This API has a **" ++ reliability ++ "% reliability score** "
             ++ "and should meet your basic requirements.")%string,
            [("Visit " ++ name (api winner)
              ++ "'s website to learn more about their offerings")%string;
             "Review their pricing and terms of service carefully";
             "Test their API with a small sample before full implementation";
             "Consider trying the system again later for detailed analysis"])
    | [] =>
        Ok (("**Unable to provide specific recommendations** due to system issues. "
             ++ "Please try again later or consider these general options.")%string,
            ["Try refreshing the page and submitting your constraints again";
             "Consider Alpha Vantage for free tier usage";
             "Consider Polygon.io for professional/commercial use";
             "Contact support if issues persist"])
    end ;;
  Ok {| recommendation_text := fst parts;
        trade_offs := ["System is operating in fallback mode - detailed analysis unavailable"];
        next_steps := snd parts;
        alternative_api := "";
        alternative_reason := "" |}.

Definition fallback_verdict_from (catalog : list APIInfo) (c : UserConstraints)
    : Verdict :=
  match fallback_verdict_try (fallback_recommendations_from catalog c) with
  | Ok verdict => verdict
  | Raise _ => unavailable_verdict
  end.

Definition generate_fallback_verdict (c : UserConstraints) : Verdict :=
  fallback_verdict_from get_all_apis c.

(* ================================================================== *)
(** * Input validation ([app.py]) *)

(** The members of each enum, in definition order: what iterating the
    class yields. *)
Definition BudgetTier_members : list BudgetTier := [FREE; UNDER_50; UNDER_200; ENTERPRISE].
Definition DataType_members : list DataType := [STOCKS; CRYPTO; FOREX; OPTIONS; COMMODITIES].
Definition FrequencyTier_members : list FrequencyTier := [REALTIME; DELAYED; EOD; HISTORICAL].
Definition UseCase_members : list UseCase := [RESEARCH; TRADING_BOT; PORTFOLIO; EDUCATIONAL].

(** [E(value)]: the member of the enum [E] with that value; a [ValueError]
    when no member has it.  Python's message holds [repr(value)]: the value
    between single quotes when it has no quote, no backslash and no
    unprintable character, which is the case written here; for other values
    [repr] picks the quotes and escapes characters, so only the exception
    and its class are the code's then, not the text of the message. *)
Definition enum_of_value {E} (members : list E) (value_of : E -> string)
    (enum_name value : string) : result E :=
  match find (fun m => String.eqb (value_of m) value) members with
  | Some m => Ok m
  | None => Raise (ValueError ("'" ++ value ++ "' is not a valid " ++ enum_name)%string)
  end.

(** [[f(x) for x in l]], stopping at the first call that raises. *)
Fixpoint map_result {A B} (f : A -> result B) (l : list A) : result (list B) :=
  match l with
  | [] => Ok []
  | x :: rest =>
      y <- f x ;;
      ys <- map_result f rest ;;
      Ok (y :: ys)
  end.

Definition validate_data_types (data_types : list string) : bool * option string :=
  match data_types with
  | [] => (false, Some "Please select at least one data type.")
  | _ => (true, None)
  end.

Definition validate_constraints (budget : string) (data_types : list string)
    (frequency use_case : string) : bool * option string :=
  let valid_budgets := map BudgetTier_value BudgetTier_members in
  if negb (py_in_list String.eqb budget valid_budgets) then
    (false, Some ("Invalid budget selection: " ++ budget)%string)
  else
    let (is_valid, error) := validate_data_types data_types in
    if negb is_valid then (false, error)
    else
      let valid_data_types := map DataType_value DataType_members in
      match find (fun dt => negb (py_in_list String.eqb dt valid_data_types)) data_types with
      | Some dt => (false, Some ("Invalid data type: " ++ dt)%string)
      | None =>
          let valid_frequencies := map FrequencyTier_value FrequencyTier_members in
          if negb (py_in_list String.eqb frequency valid_frequencies) then
            (false, Some ("Invalid frequency selection: " ++ frequency)%string)
          else
            let valid_use_cases := map UseCase_value UseCase_members in
            if negb (py_in_list String.eqb use_case valid_use_cases) then
              (false, Some ("Invalid use case: " ++ use_case)%string)
            else (true, None)
      end.

Definition normalize_constraints (budget : string) (data_types : list string)
    (frequency use_case : string) : result UserConstraints :=
  b <- enum_of_value BudgetTier_members BudgetTier_value "BudgetTier" budget ;;
  dts <- map_result (enum_of_value DataType_members DataType_value "DataType") data_types ;;
  f <- enum_of_value FrequencyTier_members FrequencyTier_value "FrequencyTier" frequency ;;
  u <- enum_of_value UseCase_members UseCase_value "UseCase" use_case ;;
  Ok {| budget := b; data_types := dts; frequency := f; use_case := u |}.

(** What [collect_constraints] returns once the form widgets have been
    read: the constraints when the selection is valid, the error message
    otherwise, and whether the button was clicked. *)
Definition collect_constraints_from (budget : string) (data_types : list string)
    (frequency use_case : string) (analyze_clicked : bool)
    : result (option UserConstraints * bool * option string) :=
  let (is_valid, error) := validate_constraints budget data_types frequency use_case in
  if is_valid then
    constraints <- normalize_constraints budget data_types frequency use_case ;;
    Ok (Some constraints, analyze_clicked, None)
  else Ok (None, analyze_clicked, error).

(** [value] is the value of some member of the enum. *)
Definition known_value {E} (members : list E) (value_of : E -> string)
    (value : string) : bool :=
  py_in_list String.eqb value (map value_of members).

(** The form values of a constraints value. *)
Definition form_values (c : UserConstraints) : string * list string * string * string :=
  (BudgetTier_value (budget c), map DataType_value (data_types c),
   FrequencyTier_value (frequency c), UseCase_value (use_case c)).

(* ================================================================== *)
(** * Vocabulary of the specification

    The definitions the statements below are written with: what a call
    returned, the ranking as a function of the catalog records, the
    conditions of the data model, and the example inputs. *)

(** The [APIScore] the loop constructs for the record [a], with [ref] in
    its [api] field; [None] when scoring the record raises. *)
Definition score_of (c : UserConstraints) {R} (ref : R) (a : APIInfo) : option (APIScore R) :=
  match score_entry a c with
  | Ok (scores, total, compatibility) =>
      Some {| api := ref; total_score := total; category_scores := scores;
              compatibility_percentage := compatibility; recommendation_rank := 0 |}
  | Raise _ => None
  end.

(** The scores the loop appends for a list of entries, in their order. *)
Fixpoint scored_by {R} (c : UserConstraints) (entries : list (R * APIInfo)) : list (APIScore R) :=
  match entries with
  | [] => []
  | (ref, a) :: rest =>
      match score_of c ref a with
      | Some s => s :: scored_by c rest
      | None => scored_by c rest
      end
  end.

(** The reference [l] points to the catalog record [a]. *)
Definition points_to_info (h : list Obj) (l : loc) (a : APIInfo) : Prop :=
  nth_error h l = Some (ObjInfo a).

(** The world after [n] more clock readings. *)
Definition tick (n : nat) (w : World) : World :=
  {| heap := heap w; clock := clock w; ticks := n + ticks w; log := log w |}.

(** The world after an entry has been scored and its [APIScore] appended. *)
Definition after_scored (w : World) (entry : nat) (a : APIInfo)
    (scores : dict string PyFloat.t) (total : PyFloat.t) (compat : Z) : World :=
  {| heap := heap w ++
       [ObjScore {| api := entry; total_score := total; category_scores := scores;
                    compatibility_percentage := compat; recommendation_rank := 0 |}];
     clock := clock w;
     ticks := S (S (ticks w));
     log := log w ++
       [(DEBUG, Msg_scored (name a) total compat
                  (clock w (S (ticks w)) - clock w (ticks w))%float)] |}.

(** The world after an entry's scoring has raised and been logged. *)
Definition after_skipped (w : World) (a : APIInfo) (e : Exn) : World :=
  {| heap := heap w; clock := clock w; ticks := S (ticks w);
     log := log w ++ [(ERROR, Msg_error_scoring (name a) e)] |}.

(** The store holds the score [fst p] at the reference [snd p]. *)
Definition holds_score (h : list Obj) (p : APIScore loc * loc) : Prop :=
  nth_error h (snd p) = Some (ObjScore (fst p)).

(** The pairs of score and reference, in ranking order. *)
Definition ranked_pairs (h1 : list Obj) (news : list (APIScore loc))
    : list (APIScore loc * loc) :=
  sort_reverse (fun p => total_score (fst p))
    (combine news (seq (List.length h1) (List.length news))).

(** The same score with its [api] field mapped by [f]. *)
Definition retarget {R R'} (f : R -> R') (s : APIScore R) : APIScore R' :=
  {| api := f (api s);
     total_score := total_score s;
     category_scores := category_scores s;
     compatibility_percentage := compatibility_percentage s;
     recommendation_rank := recommendation_rank s |}.

(** The scores of the records that score without error, in catalog order,
    each before its rank is set. *)
Definition scored (c : UserConstraints) (infos : list APIInfo) : list (APIScore APIInfo) :=
  scored_by c (map (fun a => (a, a)) infos).

(** What [score_apis] returns on a catalog whose records are [infos], when
    some record scores: the scores sorted by decreasing total, ranked from 1. *)
Definition ranked (c : UserConstraints) (infos : list APIInfo) : list (APIScore APIInfo) :=
  enumerate_ranks 1 (sort_reverse total_score (scored c infos)).

(** Every object of [h] is unchanged in [h']. *)
Definition frame (h h' : list Obj) : Prop :=
  forall l, l < List.length h -> nth_error h' l = nth_error h l.

(** The score was constructed by the loop for a record of the store [h]. *)
Definition constructed_for (c : UserConstraints) (h : list Obj) (s : APIScore nat) : Prop :=
  exists a, nth_error h (api s) = Some (ObjInfo a) /\ score_of c (api s) a = Some s.

(** A fresh [APIScore] object equals the one the loop constructed for its
    entry, except for its rank. *)
Definition as_constructed (c : UserConstraints) (h : list Obj) (s' : APIScore nat) : Prop :=
  exists a s rank,
    nth_error h (api s') = Some (ObjInfo a) /\
    score_of c (api s') a = Some s /\
    s' = set_rank s rank.

(** The stages of [score_apis]. *)
Definition logged (w : World) (level : LogLevel) (msg : LogMsg) : World :=
  snd (logger level msg w).

(** The outer handler: on an exception it reads the clock, logs, re-raises. *)
Definition reraise (t0 : PyFloat.t) (x : result (list nat) * World)
    : result (list nat) * World :=
  match fst x with
  | Ok ranking => (Ok ranking, snd x)
  | Raise e =>
      (Raise e,
       logged (tick 1 (snd x)) ERROR
         (Msg_critical e (clock (snd x) (ticks (snd x)) - t0)%float))
  end.

(** The catalog a call scores: the records the given references point to,
    or the built-in ones. *)
Definition catalog_of (h : list Obj) (apis : option (list nat)) (infos : list APIInfo) : Prop :=
  match apis with
  | Some ls => Forall2 (points_to_info h) ls infos
  | None => infos = get_all_apis
  end.

(** Keys never increase along the list. *)
Definition descending {A} (key : A -> PyFloat.t) (l : list A) : Prop :=
  StronglySorted (fun x y => (key y <=? key x)%float = true) l.

(** No key is a NaN. *)
Definition no_nan {A} (key : A -> PyFloat.t) (l : list A) : Prop :=
  Forall (fun x => PyFloat.is_nan (key x) = false) l.

(** [s] holds the values the scoring computes for its [api]. *)
Definition scores_entry (c : UserConstraints) (s : APIScore APIInfo) : Prop :=
  score_entry (api s) c
  = Ok (category_scores s, total_score s, compatibility_percentage s).

(** The record [a] scores without error, with a total equal to [k]. *)
Definition total_is (c : UserConstraints) (k : PyFloat.t) (a : APIInfo) : bool :=
  match score_entry a c with
  | Ok (_, total, _) => (total =? k)%float
  | Raise _ => false
  end.

(** Scoring the record [a] does not raise. *)
Definition scores_ok (c : UserConstraints) (a : APIInfo) : bool :=
  is_ok (score_entry a c).

(** The call [x] returned the references of the scores [scores]. *)
Definition returns (x : result (list nat) * World) (scores : list (APIScore APIInfo)) : Prop :=
  exists locs,
    fst x = Ok locs /\ map (resolve (heap (snd x))) locs = map Some scores.

(** A well-formed record, with the given name, Free-tier support, data
    coverage and frequency support. *)
Definition example_record (nm : string) (free : bool) (cov : list DataType)
    (fs : list FrequencyTier) : APIInfo :=
  {| name := nm;
     pricing := Some [(FREE, free); (ENTERPRISE, true)];
     data_coverage := Some cov;
     frequency_support := Some fs;
     rate_limits := [("requests_per_minute", 5%Z)];
     strengths := ["Wide coverage"];
     limitations := [];
     tos_restrictions := Some [];
     reliability_score := 0.9%float;
     last_updated := (2025, 1, 10)%Z |}.

(** A record whose [pricing] holds [None]: scoring it raises. *)
Definition malformed_record : APIInfo :=
  {| name := "Broken";
     pricing := None;
     data_coverage := Some [STOCKS];
     frequency_support := Some [EOD];
     rate_limits := [];
     strengths := [];
     limitations := [];
     tos_restrictions := Some [];
     reliability_score := 0.5%float;
     last_updated := (2025, 1, 10)%Z |}.

(** Free, Stocks, End-of-day, Research. *)
Definition example_constraints : UserConstraints :=
  {| budget := FREE; data_types := [STOCKS]; frequency := EOD; use_case := RESEARCH |}.

(** A world whose store holds the given records at references 0, 1, ...,
    whose clock advances by one second per reading, and whose log is empty. *)
Definition example_world (records : list APIInfo) : World :=
  {| heap := map ObjInfo records;
     clock := fun n => PyFloat.of_int (Z.of_nat n);
     ticks := 0;
     log := [] |}.

(** Two well-formed records around a malformed one. *)
Definition example_catalog : list APIInfo :=
  [example_record "Beta" false [STOCKS] [EOD];
   malformed_record;
   example_record "Alpha" true [STOCKS] []].

(** The scores a call returned, read out of the store it left. *)
Definition outcome (x : result (list nat) * World)
    : result (list (option (APIScore APIInfo))) :=
  match fst x with
  | Ok locs => Ok (map (resolve (heap (snd x))) locs)
  | Raise e => Raise e
  end.

(** The integer [r] is a nearest integer of [v], the even one on a tie. *)
Definition nearest_even (v : Q) (r : Z) : Prop :=
  (Qabs (inject_Z r - v) <= 1 # 2)%Q /\
  ((Qabs (inject_Z r - v) == 1 # 2)%Q -> Z.even r = true).

(** Constraints with the Trading Bot use case. *)
Definition trading_bot (b : BudgetTier) (dts : list DataType) (f : FrequencyTier)
    : UserConstraints :=
  {| budget := b; data_types := dts; frequency := f; use_case := TRADING_BOT |}.

(** The invariants the data model states for a catalog record: fields of
    their declared types, a non-empty name, a reliability in [0, 1]. *)
Definition valid_record (a : APIInfo) : Prop :=
  well_formed a /\ name a <> "" /\
  (0 <=? reliability_score a)%float = true /\
  (reliability_score a <=? 1)%float = true.



(** The record lists the tier [b] as supported. *)
Definition supports (a : APIInfo) (b : BudgetTier) : bool :=
  match pricing a with
  | Some p => dict_get_default BudgetTier_beq p b false
  | None => false
  end.

(** The first sentence of the recommendation text. *)
Definition opening_sentence (winner : APIScore APIInfo) : string :=
  ("**" ++ name (api winner) ++ "** is your best match with a **"
   ++ PyStr.str_int (compatibility_percentage winner)
   ++ "% compatibility score**.")%string.

(** The sentence on the winner's first strength, when it lists one. *)
Definition key_advantage (winner : APIScore APIInfo) : list string :=
  match strengths (api winner) with
  | top_strength :: _ => [("Key advantage: " ++ top_strength)%string]
  | [] => []
  end.

(** The budget clause of the recommendation text. *)
Definition budget_sentences (winner : APIScore APIInfo) (c : UserConstraints)
    : list string :=
  match budget c with
  | FREE =>
      if supports (api winner) FREE
      then ["This API offers a **free tier** that meets your budget requirements."]
      else []
  | b => [("This API supports your **" ++ BudgetTier_value b ++ "** budget tier.")%string]
  end.

(** The record covers one of the requested data types. *)
Definition covers_requested (a : APIInfo) (c : UserConstraints) : bool :=
  match data_coverage a with
  | Some cov => existsb (fun dt => py_in_list DataType_beq dt cov) (data_types c)
  | None => false
  end.

(** The fallback's filter: the record supports the requested budget and
    covers one of the requested data types. *)
Definition compatible (c : UserConstraints) (a : APIInfo) : bool :=
  supports a (budget c) && covers_requested a c.

(** A record the fallback can process without an exception. *)
Definition fallback_ready (a : APIInfo) : Prop :=
  pricing a <> None /\ data_coverage a <> None /\
  PyFloat.is_finite (reliability_score a * 100)%float = true /\
  PyFloat.is_nan (reliability_score a) = false.

(** The frequency and use-case scores of [s] are the placeholder [x]. *)
Definition placeholders (x : PyFloat.t) (s : APIScore APIInfo) : Prop :=
  dict_get String.eqb (category_scores s) "frequency" = Some x /\
  dict_get String.eqb (category_scores s) "use_case" = Some x.

(** The total of [s] is its record's reliability times 100. *)
Definition reliability_total (s : APIScore APIInfo) : Prop :=
  total_score s = (reliability_score (api s) * 100)%float.

(** The compatibility of [s] is [int(reliability_score * 100)] of its
    record. *)
Definition reliability_percentage (s : APIScore APIInfo) : Prop :=
  PyFloat.py_int (reliability_score (api s) * 100)%float
  = Ok (compatibility_percentage s).

(** The category scores of a fallback score for a record that passed the
    filter: full marks for budget and data types, the placeholder 75 for
    frequency and use case. *)
Definition filtered_categories : list (string * PyFloat.t) :=
  [("budget", 100%float); ("data_types", 100%float);
   ("frequency", 75%float); ("use_case", 75%float)].

(** The category scores on the path of the three most reliable records:
    the neutral placeholder 50 in all four categories. *)
Definition neutral_categories : list (string * PyFloat.t) :=
  [("budget", 50%float); ("data_types", 50%float);
   ("frequency", 50%float); ("use_case", 50%float)].


(** The fallback's sort key. *)
Definition by_reliability (s : APIScore APIInfo) : PyFloat.t :=
  reliability_score (api s).

(** The constraints of the scenario: Free, Stocks, End-of-day, Research. *)
Definition free_stocks_eod_research : UserConstraints :=
  {| budget := FREE; data_types := [STOCKS]; frequency := EOD; use_case := RESEARCH |}.

(** The order the examples iterate a set in: the list's own. *)
Definition example_set_iter (l : list DataType) : list DataType := l.

(** The constraints of a trading bot on the Free tier that needs real-time
    options data. *)
Definition example_trading_bot : UserConstraints := trading_bot FREE [OPTIONS] REALTIME.

(** A score for one record, as a winner with a compatibility of 100. *)
Definition example_score (a : APIInfo) : APIScore APIInfo :=
  {| api := a;
     total_score := 100%float;
     category_scores :=
       [("budget", 100%float); ("data_types", 100%float);
        ("frequency", 100%float); ("use_case", 100%float)];
     compatibility_percentage := 100;
     recommendation_rank := 1 |}.

(** ** Vocabulary of the further properties *)

(** The verdict [generate_verdict] returns from its outer handler. *)
Definition system_error_verdict : Verdict :=
  {| recommendation_text :=
       "**Unable to generate detailed recommendation** due to a system error. Please try again.";
     trade_offs := ["System encountered an error during analysis"];
     next_steps :=
       ["Try refreshing the page and submitting your constraints again";
        "If the problem persists, consider manually reviewing the API options";
        "Contact support if you continue to experience issues"];
     alternative_api := "";
     alternative_reason := "" |}.

(** The text names [nm] in bold. *)
Definition names_in_bold (nm text : string) : bool :=
  PyStr.contains ("**" ++ nm ++ "**") text.

(** The entries the scoring loop reported as skipped, read off a log: the
    name and the exception of each "error scoring" message. *)
Definition skipped_entries (l : list (LogLevel * LogMsg)) : list (string * Exn) :=
  flat_map (fun entry =>
              match entry with
              | (ERROR, Msg_error_scoring api_name e) => [(api_name, e)]
              | _ => []
              end) l.

(** The records of a catalog whose scoring raises, each with its name and
    its exception. *)
Definition failing_entries (c : UserConstraints) (infos : list APIInfo)
    : list (string * Exn) :=
  flat_map (fun a =>
              match score_entry a c with
              | Raise e => [(name a, e)]
              | Ok _ => []
              end) infos.

(** The invariants of one [APIScore] of a list of [n] scores. *)
Definition score_invariants (n : nat) (s : APIScore APIInfo) : Prop :=
  (0 <= compatibility_percentage s <= 100)%Z /\
  (1 <= recommendation_rank s <= Z.of_nat n)%Z /\
  map fst (category_scores s) = ["budget"; "data_types"; "frequency"; "use_case"] /\
  PyFloat.is_finite (total_score s) = true /\
  calculate_compatibility_percentage (total_score s) = Ok (compatibility_percentage s).

(** A zero, or a finite float of magnitude at most [2^M]. *)
Definition SF_within (M : Z) (x : spec_float) : Prop :=
  match x with
  | S754_zero _ => True
  | S754_finite _ m e => (Zpos m <= 2 ^ (M - e) /\ e <= M)%Z
  | _ => False
  end.

(** The record [a] with other terms of service. *)
Definition with_tos_restrictions (a : APIInfo) (tos : list string) : APIInfo :=
  {| name := name a;
     pricing := pricing a;
     data_coverage := data_coverage a;
     frequency_support := frequency_support a;
     rate_limits := rate_limits a;
     strengths := strengths a;
     limitations := limitations a;
     tos_restrictions := Some tos;
     reliability_score := reliability_score a;
     last_updated := last_updated a |}.

(** Some record of the catalog satisfies [p]. *)
Definition offered (p : APIInfo -> bool) (catalog : list APIInfo) : bool :=
  existsb p catalog.

Definition covers (a : APIInfo) (d : DataType) : bool :=
  match data_coverage a with
  | Some cov => py_in_list DataType_beq d cov
  | None => false
  end.

Definition delivers (a : APIInfo) (f : FrequencyTier) : bool :=
  match frequency_support a with
  | Some fs => py_in_list FrequencyTier_beq f fs
  | None => false
  end.

(** A record with a low reliability and an instability note. *)
Definition example_unstable : APIInfo :=
  {| name := "Gamma";
     pricing := Some [(FREE, true)];
     data_coverage := Some [STOCKS];
     frequency_support := Some [EOD];
     rate_limits := [];
     strengths := ["Free access"];
     limitations := ["Unofficial API - may break without notice"];
     tos_restrictions := Some ["Commercial Use Explicitly Prohibited"];
     reliability_score := 0.5%float;
     last_updated := (2025, 1, 10)%Z |}.

(* ================================================================== *)
(** * Lemmas on the store and on [score_apis] *)

Lemma nth_error_app_left {A} (h new : list A) l o :
  nth_error h l = Some o -> nth_error (h ++ new) l = Some o.
Proof.
  intros H. rewrite nth_error_app1; auto. apply nth_error_Some. congruence.
Qed.

Lemma score_loop_cons_ok c l ls scored_apis w a scores total compat :
  nth_error (heap w) l = Some (ObjInfo a) ->
  score_entry a c = Ok (scores, total, compat) ->
  score_loop c (l :: ls) scored_apis w
  = score_loop c ls (scored_apis ++ [List.length (heap w)])
      (after_scored w l a scores total compat).
Proof.
  intros Hl Hs. simpl. unfold mbind at 1. unfold score_one, mbind at 1. simpl.
  unfold mbind at 1. simpl. rewrite Hl, Hs. reflexivity.
Qed.

Lemma score_loop_cons_skip c l ls scored_apis w a e :
  nth_error (heap w) l = Some (ObjInfo a) ->
  score_entry a c = Raise e ->
  score_loop c (l :: ls) scored_apis w
  = score_loop c ls scored_apis (after_skipped w a e).
Proof.
  intros Hl Hs. simpl. unfold mbind at 1. unfold score_one, mbind at 1. simpl.
  unfold mbind at 1. simpl. rewrite Hl, Hs. unfold mret, mbind, deref. simpl.
  rewrite Hl. reflexivity.
Qed.

Lemma score_loop_cons_bad c l ls scored_apis w :
  (forall a, nth_error (heap w) l <> Some (ObjInfo a)) ->
  score_loop c (l :: ls) scored_apis w = (Raise AttributeError, tick 1 w).
Proof.
  intros Hl. simpl. unfold mbind at 1. unfold score_one, mbind at 1. simpl.
  unfold mbind at 1. simpl.
  destruct (nth_error (heap w) l) as [[a|s]|] eqn:E;
    [now elim (Hl a)| |]; unfold mret, mbind, deref; simpl; rewrite E; reflexivity.
Qed.

Lemma score_loop_infos c : forall ls infos scored_apis w,
  Forall2 (points_to_info (heap w)) ls infos ->
  exists w',
    score_loop c ls scored_apis w =
      (Ok (scored_apis ++ seq (List.length (heap w))
                            (List.length (scored_by c (combine ls infos)))), w')
    /\ heap w' = heap w ++ map ObjScore (scored_by c (combine ls infos)).
Proof.
  induction ls as [|l ls IH]; intros infos scored_apis w HF;
    inversion HF as [|l0 a ls0 infos' H2 H4]; subst.
  - exists w. simpl. rewrite !app_nil_r. auto.
  - red in H2. simpl combine. simpl scored_by. unfold score_of.
    destruct (score_entry a c) as [[[scores total] compat]|e] eqn:Es.
    + rewrite (score_loop_cons_ok _ _ _ _ _ _ _ _ _ H2 Es).
      destruct (IH infos' (scored_apis ++ [List.length (heap w)])
                  (after_scored w l a scores total compat)) as [w' [E1 E2]].
      { simpl. eapply Forall2_impl; [|exact H4]. intros x y Hx. red. red in Hx.
        now apply nth_error_app_left. }
      simpl in E1, E2. rewrite length_app in E1. simpl in E1.
      exists w'. rewrite E1, E2.
      rewrite <- !app_assoc. simpl.
      replace (List.length (heap w) + 1) with (S (List.length (heap w))) by lia.
      split; reflexivity.
    + rewrite (score_loop_cons_skip _ _ _ _ _ _ _ H2 Es).
      destruct (IH infos' scored_apis (after_skipped w a e)) as [w' [E1 E2]].
      { simpl. exact H4. }
      exists w'. rewrite E1, E2. simpl. split; reflexivity.
Qed.

(** ** Sorting lemmas *)
Section SortFacts.
Context {A : Type} (key : A -> PyFloat.t).

Lemma insert_reverse_perm x l : Permutation (x :: l) (insert_reverse key x l).
Proof.
  induction l as [|y l IH]; simpl; auto.
  destruct (key x <? key y)%float; auto.
  rewrite perm_swap. now constructor.
Qed.

Lemma sort_reverse_perm l : Permutation l (sort_reverse key l).
Proof.
  induction l as [|x l IH]; simpl; auto.
  rewrite <- insert_reverse_perm. now constructor.
Qed.

Lemma sort_reverse_length l : List.length (sort_reverse key l) = List.length l.
Proof. symmetry. apply Permutation_length, sort_reverse_perm. Qed.
End SortFacts.

Lemma insert_reverse_map {A B} (g : B -> A) keyA keyB x l :
  (forall b, keyA (g b) = keyB b) ->
  insert_reverse keyA (g x) (map g l) = map g (insert_reverse keyB x l).
Proof.
  intros H. induction l as [|y l IH]; simpl; auto.
  rewrite !H. destruct (keyB x <? keyB y)%float; simpl; congruence.
Qed.

Lemma sort_reverse_map {A B} (g : B -> A) keyA keyB l :
  (forall b, keyA (g b) = keyB b) ->
  sort_reverse keyA (map g l) = map g (sort_reverse keyB l).
Proof.
  intros H. induction l as [|x l IH]; simpl; auto.
  rewrite IH. now apply insert_reverse_map.
Qed.

(** ** The store *)

Lemma read_totals_spec : forall P w,
  Forall (holds_score (heap w)) P ->
  read_totals (map snd P) w = (Ok (map (fun p => total_score (fst p)) P), w).
Proof.
  induction P as [|[s l] P IH]; intros w HF; simpl; auto.
  inversion HF as [|? ? H1 H2]; subst. red in H1. simpl in H1.
  unfold ebind, read_total, mbind, deref, mret. rewrite H1.
  rewrite (IH w H2). reflexivity.
Qed.

Lemma nth_error_list_set_eq {A} : forall (l : list A) i x,
  i < List.length l -> nth_error (list_set l i x) i = Some x.
Proof.
  induction l as [|y l IH]; intros [|i] x H; simpl in *; try lia; auto.
  apply IH. lia.
Qed.

Lemma nth_error_list_set_neq {A} : forall (l : list A) i j x,
  i <> j -> nth_error (list_set l i x) j = nth_error l j.
Proof.
  induction l as [|y l IH]; intros [|i] [|j] x H; simpl in *; auto; try congruence.
Qed.

Lemma list_set_length {A} : forall (l : list A) i x,
  List.length (list_set l i x) = List.length l.
Proof.
  induction l as [|y l IH]; intros [|i] x; simpl; auto.
Qed.

Lemma assign_ranks_spec : forall P rank w,
  Forall (holds_score (heap w)) P ->
  NoDup (map snd P) ->
  exists w',
    assign_ranks rank (map snd P) w = (Ok tt, w') /\
    Forall2 (fun l s => nth_error (heap w') l = Some (ObjScore s))
      (map snd P) (enumerate_ranks rank (map fst P)) /\
    List.length (heap w') = List.length (heap w) /\
    (forall l, ~ In l (map snd P) -> nth_error (heap w') l = nth_error (heap w) l).
Proof.
  induction P as [|[s l] P IH]; intros rank w HF ND; simpl.
  - exists w. repeat split; auto.
  - inversion HF as [|? ? H1 H2]; subst. red in H1. simpl in H1.
    simpl in ND. inversion ND as [|? ? Hnotin ND']; subst.
    unfold mbind, deref. rewrite H1. unfold store.
    set (w1 := with_heap w (list_set (heap w) l (ObjScore (set_rank s rank)))).
    destruct (IH (rank + 1)%Z w1) as [w' [E [F2 [L Fr]]]]; auto.
    { rewrite Forall_forall in *. intros [s' l'] Hin. red. simpl.
      unfold w1. simpl. rewrite nth_error_list_set_neq.
      - apply (H2 _ Hin).
      - intros ->. apply Hnotin. apply in_map_iff. exists (s', l'). auto. }
    exists w'. rewrite E. split; [reflexivity|]. split; [|split].
    + constructor; auto. rewrite Fr by exact Hnotin. unfold w1. simpl.
      apply nth_error_list_set_eq. apply nth_error_Some. congruence.
    + rewrite L. unfold w1. simpl. apply list_set_length.
    + intros l' Hl'. rewrite Fr by tauto. unfold w1. simpl.
      apply nth_error_list_set_neq. tauto.
Qed.

Lemma map_fst_combine {A B} : forall (a : list A) (b : list B),
  List.length a = List.length b -> map fst (combine a b) = a.
Proof.
  induction a as [|x a IH]; intros [|y b] H; simpl in *; try lia; auto.
  f_equal. apply IH. lia.
Qed.

Lemma map_snd_combine {A B} : forall (a : list A) (b : list B),
  List.length a = List.length b -> map snd (combine a b) = b.
Proof.
  induction a as [|x a IH]; intros [|y b] H; simpl in *; try lia; auto.
  f_equal. apply IH. lia.
Qed.

Lemma combine_map_both {A B C} (f : A -> B) (g : A -> C) : forall l,
  combine (map f l) (map g l) = map (fun x => (f x, g x)) l.
Proof. induction l; simpl; congruence. Qed.

Lemma holds_fresh h1 : forall news k,
  Forall (holds_score (h1 ++ k ++ map ObjScore news))
    (combine news (seq (List.length h1 + List.length k) (List.length news))).
Proof.
  induction news as [|s news IH]; intros k; simpl; constructor.
  - red. simpl. rewrite nth_error_app2 by lia.
    replace (List.length h1 + List.length k - List.length h1) with (List.length k) by lia.
    rewrite nth_error_app2 by lia. now rewrite Nat.sub_diag.
  - specialize (IH (k ++ [ObjScore s])).
    rewrite length_app in IH. simpl in IH.
    rewrite <- app_assoc in IH. simpl in IH.
    replace (S (List.length h1 + List.length k))
      with (List.length h1 + (List.length k + 1)) by lia. exact IH.
Qed.

Lemma ranked_pairs_fst h1 news :
  map fst (ranked_pairs h1 news) = sort_reverse total_score news.
Proof.
  unfold ranked_pairs.
  rewrite <- (sort_reverse_map fst total_score (fun p => total_score (fst p))) by auto.
  rewrite map_fst_combine; auto. now rewrite length_seq.
Qed.

Lemma sort_and_rank_pairs t0 w P0 :
  Forall (holds_score (heap w)) P0 ->
  NoDup (map snd P0) ->
  let P := sort_reverse (fun p => total_score (fst p)) P0 in
  exists w',
    sort_and_rank t0 (map snd P0) w = (Ok (map snd P), w') /\
    Forall2 (fun l s => nth_error (heap w') l = Some (ObjScore s))
      (map snd P) (enumerate_ranks 1 (map fst P)) /\
    List.length (heap w') = List.length (heap w) /\
    (forall l, ~ In l (map snd P0) -> nth_error (heap w') l = nth_error (heap w) l).
Proof.
  intros HP0 ND P.
  unfold sort_and_rank, mbind, ebind, time_time. simpl.
  match goal with |- context [read_totals _ ?w1] =>
    rewrite (read_totals_spec P0 w1 HP0) end.
  rewrite (combine_map_both (fun p => total_score (fst p)) snd P0).
  rewrite (sort_reverse_map (fun x : APIScore loc * loc => (total_score (fst x), snd x))
             fst (fun p => total_score (fst p))) by reflexivity.
  rewrite map_map. simpl.
  rewrite (map_ext (fun x : APIScore loc * loc => snd x) snd) by reflexivity.
  fold P.
  assert (HPerm : Permutation P0 P) by apply sort_reverse_perm.
  match goal with |- context [assign_ranks 1 _ ?w1] =>
    destruct (assign_ranks_spec P 1%Z w1) as [w2 [E [F2 [L Fr]]]] end.
  { simpl. eapply Permutation_Forall; eauto. }
  { eapply Permutation_NoDup; [apply Permutation_map, HPerm|]. exact ND. }
  rewrite E. unfold logger, mret.
  assert (Frame : forall l, ~ In l (map snd P0) -> nth_error (heap w2) l = nth_error (heap w) l).
  { intros l Hl. rewrite Fr; auto. intros Hin. apply Hl.
    eapply Permutation_in; [apply Permutation_sym, Permutation_map, HPerm|exact Hin]. }
  destruct (2 <? _)%float; [|destruct (1 <? _)%float];
    (eexists; split; [reflexivity|]; simpl; auto).
Qed.

Lemma sort_and_rank_spec t0 w h1 news :
  heap w = h1 ++ map ObjScore news ->
  exists w',
    sort_and_rank t0 (seq (List.length h1) (List.length news)) w
      = (Ok (map snd (ranked_pairs h1 news)), w') /\
    Forall2 (fun l s => nth_error (heap w') l = Some (ObjScore s))
      (map snd (ranked_pairs h1 news))
      (enumerate_ranks 1 (sort_reverse total_score news)) /\
    List.length (heap w') = List.length (heap w) /\
    (forall l, l < List.length h1 -> nth_error (heap w') l = nth_error (heap w) l).
Proof.
  intros Hh.
  assert (Hlocs : map snd (combine news (seq (List.length h1) (List.length news)))
                  = seq (List.length h1) (List.length news)).
  { apply map_snd_combine. now rewrite length_seq. }
  destruct (sort_and_rank_pairs t0 w (combine news (seq (List.length h1) (List.length news))))
    as [w' [E [F2 [L Fr]]]].
  { rewrite Hh. generalize (holds_fresh h1 news []). simpl.
    now rewrite Nat.add_0_r. }
  { rewrite Hlocs. apply seq_NoDup. }
  rewrite Hlocs in E, Fr. fold (ranked_pairs h1 news) in E, F2.
  rewrite ranked_pairs_fst in F2.
  exists w'. repeat split; auto.
  intros l Hl. apply Fr. rewrite in_seq. lia.
Qed.

(** ** Changing what the [api] field holds *)

Lemma scored_by_retarget {R R'} (f : R -> R') c : forall entries,
  scored_by c (map (fun p => (f (fst p), snd p)) entries)
  = map (retarget f) (scored_by c entries).
Proof.
  induction entries as [|[r a] entries IH]; simpl; auto.
  unfold score_of. destruct (score_entry a c) as [[[? ?] ?]|]; simpl; rewrite IH; auto.
Qed.

Lemma enumerate_ranks_retarget {R R'} (f : R -> R') : forall l rank,
  enumerate_ranks rank (map (retarget f) l) = map (retarget f) (enumerate_ranks rank l).
Proof. induction l; intros; simpl; auto. now rewrite IHl. Qed.

Lemma sort_reverse_retarget {R R'} (f : R -> R') l :
  sort_reverse total_score (map (retarget f) l)
  = map (retarget f) (sort_reverse total_score l).
Proof. apply sort_reverse_map. reflexivity. Qed.

Lemma Forall_enumerate_ranks {R} (P : APIScore R -> Prop) :
  (forall s rank, P s -> P (set_rank s rank)) ->
  forall l rank, Forall P l -> Forall P (enumerate_ranks rank l).
Proof.
  intros HP. induction l; intros rank HF; simpl; inversion HF; subst; constructor; auto.
Qed.

Lemma Forall_scored_by {R} c (Q : R * APIInfo -> Prop) : forall entries,
  Forall Q entries ->
  Forall (fun s : APIScore (R * APIInfo) => Q (api s))
    (scored_by c (map (fun p => (p, snd p)) entries)).
Proof.
  induction entries as [|[r a] entries IH]; intros HF; simpl; auto.
  inversion HF; subst.
  unfold score_of. destruct (score_entry a c) as [[[? ?] ?]|]; simpl; auto.
Qed.

Lemma Forall2_combine {A B} (P : A -> B -> Prop) : forall l l',
  Forall2 P l l' -> Forall (fun p => P (fst p) (snd p)) (combine l l').
Proof. induction 1; simpl; constructor; auto. Qed.

Lemma Forall2_length_eq {A B} (P : A -> B -> Prop) l l' :
  Forall2 P l l' -> List.length l = List.length l'.
Proof. induction 1; simpl; auto. Qed.

Lemma nth_error_Some_lt {A} (l : list A) i x :
  nth_error l i = Some x -> i < List.length l.
Proof. intros H. apply nth_error_Some. congruence. Qed.

(** ** The effects of [score_apis] on the store, for any input *)

Lemma nth_error_app_scores h (news : list (APIScore nat)) l a :
  nth_error (h ++ map ObjScore news) l = Some (ObjInfo a) ->
  nth_error h l = Some (ObjInfo a).
Proof.
  intros H. destruct (Nat.lt_ge_cases l (List.length h)) as [Hlt|Hge].
  - now rewrite nth_error_app1 in H.
  - rewrite nth_error_app2 in H by exact Hge.
    rewrite nth_error_map in H.
    destruct (nth_error news (l - List.length h)); discriminate.
Qed.

Lemma score_loop_any c : forall ls scored_apis w,
  exists news,
    heap (snd (score_loop c ls scored_apis w)) = heap w ++ map ObjScore news /\
    (forall out, fst (score_loop c ls scored_apis w) = Ok out ->
       out = scored_apis ++ seq (List.length (heap w)) (List.length news)) /\
    Forall (constructed_for c (heap w)) news.
Proof.
  induction ls as [|l ls IH]; intros scored_apis w.
  - exists []. simpl. rewrite !app_nil_r. repeat split; auto. congruence.
  - destruct (nth_error (heap w) l) as [[a|s]|] eqn:El.
    + destruct (score_entry a c) as [[[scores total] compat]|e] eqn:Es.
      * rewrite (score_loop_cons_ok _ _ _ _ _ _ _ _ _ El Es).
        destruct (IH (scored_apis ++ [List.length (heap w)])
                    (after_scored w l a scores total compat)) as [news [H1 [H2 H3]]].
        simpl in H1, H2, H3.
        eexists (_ :: news). rewrite H1. simpl. rewrite <- app_assoc. simpl.
        split; [reflexivity|]. split.
        -- intros out Hout. rewrite (H2 out Hout). rewrite length_app. simpl.
           rewrite <- app_assoc. simpl. do 2 f_equal. f_equal. lia.
        -- constructor.
           ++ exists a. simpl. split; auto. unfold score_of. now rewrite Es.
           ++ eapply Forall_impl; [|exact H3]. intros s [a' [Ha' Hs']].
              exists a'. split; auto.
              apply (nth_error_app_scores (heap w) [_] (api s) a' Ha').
      * rewrite (score_loop_cons_skip _ _ _ _ _ _ _ El Es).
        destruct (IH scored_apis (after_skipped w a e)) as [news [H1 [H2 H3]]].
        simpl in H1, H2, H3. exists news. auto.
    + rewrite score_loop_cons_bad by (intros a; congruence).
      exists []. simpl. rewrite app_nil_r. repeat split; auto. discriminate.
    + rewrite score_loop_cons_bad by (intros a; congruence).
      exists []. simpl. rewrite app_nil_r. repeat split; auto. discriminate.
Qed.

Lemma alloc_all_spec : forall records w,
  alloc_all records w =
    (seq (List.length (heap w)) (List.length records),
     with_heap w (heap w ++ map ObjInfo records)).
Proof.
  induction records as [|a records IH]; intros w; simpl.
  - unfold mret, with_heap. rewrite app_nil_r. now destruct w.
  - unfold mbind, alloc. rewrite IH. unfold mret, with_heap. simpl.
    rewrite length_app, <- app_assoc. simpl.
    replace (List.length (heap w) + 1) with (S (List.length (heap w))) by lia.
    reflexivity.
Qed.

Lemma In_enumerate_ranks {R} : forall (l : list (APIScore R)) rank s',
  In s' (enumerate_ranks rank l) -> exists s r, In s l /\ s' = set_rank s r.
Proof.
  induction l as [|s l IH]; intros rank s' Hin; simpl in *; [tauto|].
  destruct Hin as [<-|Hin]; eauto.
  destruct (IH _ _ Hin) as [s0 [r [H1 H2]]]. eauto.
Qed.

Lemma Forall2_In_l {A B} (P : A -> B -> Prop) l l' x :
  Forall2 P l l' -> In x l -> exists y, In y l' /\ P x y.
Proof.
  induction 1; intros Hin; simpl in *; [tauto|].
  destruct Hin as [<-|Hin]; eauto. destruct (IHForall2 Hin) as [y' [? ?]]; eauto.
Qed.

Lemma set_rank_same {R} (s : APIScore R) :
  set_rank s (recommendation_rank s) = s.
Proof. now destruct s. Qed.

Lemma score_of_rank {R} c (r : R) a s :
  score_of c r a = Some s -> recommendation_rank s = 0%Z.
Proof.
  unfold score_of. destruct (score_entry a c) as [[[? ?] ?]|]; [|discriminate].
  intros [= <-]. reflexivity.
Qed.

Lemma score_apis_stages c apis w :
  score_apis c apis w =
    let t0 := clock w (ticks w) in
    let loaded := load_apis apis (tick 1 w) in
    let looped :=
      score_loop c (fst loaded) []
        (logged (snd loaded) INFO (Msg_scoring (List.length (fst loaded)))) in
    reraise t0
      match fst looped with
      | Raise e => (Raise e, snd looped)
      | Ok [] => (Raise no_apis_scored, logged (snd looped) ERROR Msg_none_scored)
      | Ok (l :: ls) => sort_and_rank t0 (l :: ls) (snd looped)
      end.
Proof.
  unfold score_apis, mbind. unfold time_time at 1. cbv zeta.
  change {| heap := heap w; clock := clock w; ticks := S (ticks w); log := log w |}
    with (tick 1 w).
  unfold score_apis_try, mbind, ebind.
  destruct (load_apis apis (tick 1 w)) as [ls0 w1]. cbn [fst snd].
  unfold logged. destruct (logger INFO (Msg_scoring (List.length ls0)) w1) as [[] w2].
  cbn [fst snd].
  destruct (score_loop c ls0 [] w2) as [[[|l ls]|e] w3]; cbn [fst snd]; unfold reraise.
  - unfold mbind, mret. destruct (logger ERROR Msg_none_scored w3) as [[] w4] eqn:E.
    cbn [fst snd]. unfold time_time, mbind, mret. reflexivity.
  - destruct (sort_and_rank (clock w (ticks w)) (l :: ls) w3) as [[r|e] w4];
      cbn [fst snd]; reflexivity.
  - reflexivity.
Qed.

Lemma heap_reraise t0 x : heap (snd (reraise t0 x)) = heap (snd x).
Proof. unfold reraise. destruct (fst x); reflexivity. Qed.

Lemma load_apis_spec apis w :
  load_apis apis w =
    (match apis with
     | None => seq (List.length (heap w)) (List.length get_all_apis)
     | Some ls => ls
     end,
     with_heap w (heap w ++
        map ObjInfo match apis with None => get_all_apis | Some _ => [] end)).
Proof.
  destruct apis as [ls|]; unfold load_apis.
  - unfold mret, with_heap. simpl. rewrite app_nil_r. now destruct w.
  - apply alloc_all_spec.
Qed.

Theorem score_apis_effects c apis w :
  let w' := snd (score_apis c apis w) in
  (forall l o, nth_error (heap w) l = Some o -> nth_error (heap w') l = Some o) /\
  (forall l o, List.length (heap w) <= l -> nth_error (heap w') l = Some o ->
     match o with
     | ObjInfo a => apis = None /\ In a get_all_apis
     | ObjScore s' => as_constructed c (heap w') s'
     end).
Proof.
  rewrite score_apis_stages. cbv zeta. rewrite heap_reraise.
  rewrite load_apis_spec. cbn [fst snd].
  set (cat := match apis with None => get_all_apis | Some _ => [] end).
  set (ls0 := match apis with None => _ | Some ls => ls end).
  set (w1 := with_heap (tick 1 w) (heap (tick 1 w) ++ map ObjInfo cat)).
  assert (Hh1 : heap w1 = heap w ++ map ObjInfo cat) by reflexivity.
  set (w2 := logged w1 INFO (Msg_scoring (List.length ls0))).
  assert (Hh2 : heap w2 = heap w1) by reflexivity.
  destruct (score_loop_any c ls0 [] w2) as [news [H1 [H2 H3]]].
  destruct (score_loop c ls0 [] w2) as [r w3] eqn:Eloop.
  rewrite Hh2 in *. cbn [fst snd] in *.
  assert (Hcat : forall l a, nth_error (heap w ++ map ObjInfo cat) l = Some (ObjInfo a) ->
                  List.length (heap w) <= l -> apis = None /\ In a get_all_apis).
  { intros l a Hl Hge. rewrite nth_error_app2 in Hl by exact Hge.
    rewrite nth_error_map in Hl.
    destruct (nth_error cat (l - List.length (heap w))) as [a'|] eqn:Ea; [|discriminate].
    injection Hl as ->. apply nth_error_In in Ea. unfold cat in Ea.
    destruct apis; [destruct Ea|auto]. }
  assert (Hnews : Forall (as_constructed c (heap w1 ++ map ObjScore news)) news).
  { eapply Forall_impl; [|exact H3]. intros s [a [Ha Hs]].
    exists a, s, (recommendation_rank s). repeat split; auto.
    - now apply nth_error_app_left.
    - now rewrite set_rank_same. }
  (* the state after the loop already satisfies both parts *)
  assert (Hafter_loop :
    (forall l o, nth_error (heap w) l = Some o -> nth_error (heap w3) l = Some o) /\
    (forall l o, List.length (heap w) <= l -> nth_error (heap w3) l = Some o ->
       match o with
       | ObjInfo a => apis = None /\ In a get_all_apis
       | ObjScore s' => as_constructed c (heap w3) s'
       end)).
  { rewrite H1, Hh1. split.
    - intros l o Hl. rewrite <- app_assoc. now apply nth_error_app_left.
    - intros l o Hge Hl. destruct o as [a|s'].
      + apply nth_error_app_scores in Hl. eauto.
      + destruct (Nat.lt_ge_cases l (List.length (heap w ++ map ObjInfo cat))) as [Hlt|Hge2].
        * rewrite nth_error_app1 in Hl by exact Hlt.
          rewrite nth_error_app2 in Hl by exact Hge. rewrite nth_error_map in Hl.
          destruct (nth_error cat _); discriminate.
        * rewrite nth_error_app2 in Hl by exact Hge2. rewrite nth_error_map in Hl.
          destruct (nth_error news _) as [s0|] eqn:E0; [|discriminate].
          injection Hl as ->. apply nth_error_In in E0.
          rewrite Forall_forall in Hnews. rewrite <- Hh1. now apply Hnews. }
  destruct r as [out|e].
  2:{ exact Hafter_loop. }
  specialize (H2 out eq_refl). simpl in H2. subst out.
  change (heap w ++ map ObjInfo cat) with (heap w1).
  destruct (seq (List.length (heap w1)) (List.length news)) as [|l0 ls1] eqn:Eseq.
  { exact Hafter_loop. }
  rewrite <- Eseq. clear Hafter_loop.
  destruct (sort_and_rank_spec (clock w (ticks w)) w3 (heap w1) news H1)
    as [w4 [E4 [F4 [L4 Fr4]]]].
  rewrite E4. cbn [fst snd]. split.
  - intros l o Hl. rewrite Fr4.
    + rewrite H1, Hh1, <- app_assoc. now apply nth_error_app_left.
    + rewrite Hh1, length_app. apply nth_error_Some_lt in Hl. lia.
  - assert (Hinfo : forall l a, nth_error (heap w4) l = Some (ObjInfo a) ->
                      nth_error (heap w1) l = Some (ObjInfo a)).
    { intros l a Hl.
      destruct (Nat.lt_ge_cases l (List.length (heap w1))) as [Hlt|Hge].
      - rewrite Fr4, H1 in Hl by exact Hlt. now rewrite nth_error_app1 in Hl.
      - exfalso.
        assert (Hin : In l (map snd (ranked_pairs (heap w1) news))).
        { eapply Permutation_in.
          - apply Permutation_map. apply sort_reverse_perm.
          - rewrite map_snd_combine by now rewrite length_seq.
            apply in_seq. apply nth_error_Some_lt in Hl. rewrite L4, H1 in Hl.
            rewrite length_app, length_map in Hl. lia. }
        destruct (Forall2_In_l _ _ _ _ F4 Hin) as [s' [_ Hs']]. congruence. }
    assert (Hstill : forall l a, nth_error (heap w1) l = Some (ObjInfo a) ->
                       nth_error (heap w4) l = Some (ObjInfo a)).
    { intros l a Hl. rewrite Fr4.
      - rewrite H1. now apply nth_error_app_left.
      - now apply nth_error_Some_lt in Hl. }
    intros l o Hge Hl. destruct o as [a|s'].
    + apply Hinfo in Hl. rewrite Hh1 in Hl. eauto.
    + destruct (Nat.lt_ge_cases l (List.length (heap w1))) as [Hlt|Hge2].
      * rewrite Fr4, H1 in Hl by exact Hlt. rewrite nth_error_app1 in Hl by exact Hlt.
        rewrite Hh1 in Hl. rewrite nth_error_app2 in Hl by exact Hge.
        rewrite nth_error_map in Hl. destruct (nth_error cat _); discriminate.
      * assert (Hin : In l (map snd (ranked_pairs (heap w1) news))).
        { eapply Permutation_in.
          - apply Permutation_map. apply sort_reverse_perm.
          - rewrite map_snd_combine by now rewrite length_seq.
            apply in_seq. apply nth_error_Some_lt in Hl. rewrite L4, H1 in Hl.
            rewrite length_app, length_map in Hl. lia. }
        destruct (Forall2_In_l _ _ _ _ F4 Hin) as [s2 [Hs2 Hs2']].
        assert (s2 = s') by congruence. subst s2.
        destruct (In_enumerate_ranks _ _ _ Hs2) as [s [r [Hs Heq]]].
        assert (Hs0 : In s news).
        { eapply Permutation_in; [apply Permutation_sym, sort_reverse_perm|exact Hs]. }
        rewrite Forall_forall in H3. destruct (H3 s Hs0) as [a [Ha Hsa]].
        exists a, s, r. subst s'. simpl. repeat split; auto.
Qed.

Lemma points_to_fresh h : forall records k,
  Forall2 (points_to_info (h ++ k ++ map ObjInfo records))
    (seq (List.length h + List.length k) (List.length records)) records.
Proof.
  induction records as [|a records IH]; intros k; simpl; constructor.
  - red. rewrite nth_error_app2 by lia.
    replace (List.length h + List.length k - List.length h) with (List.length k) by lia.
    rewrite nth_error_app2 by lia. now rewrite Nat.sub_diag.
  - specialize (IH (k ++ [ObjInfo a])).
    rewrite length_app in IH. simpl in IH.
    rewrite <- app_assoc in IH. simpl in IH.
    replace (S (List.length h + List.length k))
      with (List.length h + (List.length k + 1)) by lia. exact IH.
Qed.

Lemma enumerate_ranks_length {R} : forall (l : list (APIScore R)) r,
  List.length (enumerate_ranks r l) = List.length l.
Proof. induction l; intros; simpl; auto. Qed.

Theorem score_apis_spec c apis infos w :
  catalog_of (heap w) apis infos ->
  exists w',
    frame (heap w) (heap w') /\
    match ranked c infos with
    | [] => score_apis c apis w = (Raise no_apis_scored, w')
    | _ :: _ =>
        exists locs,
          score_apis c apis w = (Ok locs, w') /\
          map (resolve (heap w')) locs = map Some (ranked c infos)
    end.
Proof.
  intros Hcat.
  rewrite score_apis_stages. cbv zeta. rewrite load_apis_spec. cbn [fst snd].
  set (cat := match apis with None => get_all_apis | Some _ => [] end).
  set (ls := match apis with None => _ | Some ls => ls end).
  set (w1 := with_heap (tick 1 w) (heap (tick 1 w) ++ map ObjInfo cat)).
  set (w2 := logged w1 INFO (Msg_scoring (List.length ls))).
  assert (Hh1 : heap w2 = heap w ++ map ObjInfo cat) by reflexivity.
  assert (HF : Forall2 (points_to_info (heap w2)) ls infos).
  { rewrite Hh1. unfold ls, cat. destruct apis as [ls'|]; simpl in Hcat.
    - eapply Forall2_impl; [|exact Hcat]. intros x y Hx. now apply nth_error_app_left.
    - subst infos. generalize (points_to_fresh (heap w) get_all_apis []).
      simpl. now rewrite Nat.add_0_r. }
  set (X := scored_by c (map (fun p => (p, snd p)) (combine ls infos))).
  assert (Hlen := Forall2_length_eq _ _ _ HF).
  assert (HX1 : scored_by c (combine ls infos) = map (retarget fst) X).
  { unfold X. rewrite <- scored_by_retarget. rewrite map_map. simpl.
    f_equal. rewrite <- (map_id (combine ls infos)) at 1. apply map_ext. now intros []. }
  assert (HX2 : scored c infos = map (retarget snd) X).
  { unfold X, scored. rewrite <- scored_by_retarget. rewrite map_map. simpl.
    f_equal. rewrite <- (map_snd_combine ls infos Hlen) at 1. now rewrite map_map. }
  assert (HXpt : Forall (fun s : APIScore (nat * APIInfo) =>
                           points_to_info (heap w2) (fst (api s)) (snd (api s))) X).
  { unfold X. apply (Forall_scored_by c (fun p => points_to_info (heap w2) (fst p) (snd p))).
    now apply Forall2_combine. }
  destruct (score_loop_infos c ls infos [] w2 HF) as [w3 [E3 H3]].
  rewrite E3. cbn [fst snd app]. clear E3.
  unfold ranked. rewrite HX2. rewrite HX1 in *.
  rewrite sort_reverse_retarget, enumerate_ranks_retarget.
  rewrite length_map in *.
  assert (Hpre : frame (heap w) (heap w2)).
  { intros l Hl. rewrite Hh1. now rewrite nth_error_app1. }
  destruct X as [|x X'] eqn:EX.
  - simpl. eexists. split; [|reflexivity]. simpl. intros l Hl.
    rewrite H3. simpl. rewrite app_nil_r. now apply Hpre.
  - rewrite <- EX in *.
    destruct (sort_and_rank_spec (clock w (ticks w)) w3 (heap w2) (map (retarget fst) X))
      as [w4 [E4 [F4 [L4 Fr4]]]]; [exact H3|].
    rewrite length_map in E4.
    destruct (seq (List.length (heap w2)) (List.length X)) as [|l0 ls0] eqn:Eseq.
    { apply (f_equal (@List.length _)) in Eseq. rewrite length_seq, EX in Eseq. discriminate. }
    rewrite E4. unfold reraise. cbn [fst snd].
    destruct (map (retarget snd) (enumerate_ranks 1 (sort_reverse total_score X)))
      as [|y Y] eqn:EY.
    { apply (f_equal (@List.length _)) in EY.
      rewrite length_map, enumerate_ranks_length, sort_reverse_length, EX in EY.
      discriminate. }
    rewrite <- EY.
    assert (Frame : frame (heap w2) (heap w4)).
    { intros l Hl. rewrite Fr4 by exact Hl. rewrite H3.
      rewrite nth_error_app1; auto. }
    eexists. split; [|eexists; split; [reflexivity|]].
    { intros l Hl. rewrite Frame; [now apply Hpre|]. rewrite Hh1, length_app. lia. }
    rewrite sort_reverse_retarget, enumerate_ranks_retarget in F4.
    assert (HR : Forall (fun s : APIScore (nat * APIInfo) =>
                           points_to_info (heap w2) (fst (api s)) (snd (api s)))
                   (enumerate_ranks 1 (sort_reverse total_score X))).
    { apply Forall_enumerate_ranks; [intros; assumption|].
      eapply Permutation_Forall; [apply sort_reverse_perm|exact HXpt]. }
    revert F4 HR. generalize (enumerate_ranks 1 (sort_reverse total_score X)).
    generalize (map snd (ranked_pairs (heap w2) (map (retarget fst) X))).
    intros locs R F4. revert locs F4.
    induction R as [|s R IH]; intros locs F4 HR;
      inversion F4 as [|l s' locs' R' Hl HF4]; subst; simpl; auto.
    inversion HR as [|? ? Hpt HR']; subst. f_equal; [|apply IH; auto].
    unfold resolve. rewrite Hl. simpl. red in Hpt.
    rewrite Frame by (apply nth_error_Some; congruence).
    rewrite Hpt. reflexivity.
Qed.

(** ** The order of floats *)
Module FloatOrder.
Import PyFloat.

Ltac sf_cases :=
  repeat match goal with
  | x : spec_float |- _ => destruct x as [[|]|[|]| |[|] ? ?]
  end.

Ltac cmp_cases :=
  repeat match goal with
  | |- context [Z.compare ?a ?b] => destruct (Z.compare_spec a b)
  | H : context [Z.compare ?a ?b] |- _ => destruct (Z.compare_spec a b)
  | |- context [Pos.compare ?a ?b] => destruct (Pos.compare_spec a b)
  | H : context [Pos.compare ?a ?b] |- _ => destruct (Pos.compare_spec a b)
  end.

Ltac sf_order :=
  unfold SFleb, SFltb, SFeqb, SFcompare;
  change (Pos.compare_cont Eq) with Pos.compare;
  sf_cases; simpl; try discriminate; try reflexivity; intros;
  cmp_cases; simpl in *; try discriminate; try reflexivity; try lia.

Lemma SFleb_trans x y z :
  SFleb x y = true -> SFleb y z = true -> SFleb x z = true.
Proof. revert x y z. intros x y z. sf_order. Qed.

Lemma SFltb_false_leb x y :
  SF_is_nan x = false -> SF_is_nan y = false ->
  SFltb x y = false -> SFleb y x = true.
Proof. sf_order. Qed.

Lemma SFltb_leb x y : SFltb x y = true -> SFleb x y = true.
Proof. sf_order. Qed.

Lemma SFeqb_tied k x y :
  SFeqb x k = true -> SFeqb y k = true -> SFltb x y = false.
Proof. sf_order. Qed.

Lemma SFleb_refl x : SF_is_nan x = false -> SFleb x x = true.
Proof. sf_order. Qed.

Lemma leb_trans (x y z : t) :
  (x <=? y)%float = true -> (y <=? z)%float = true -> (x <=? z)%float = true.
Proof. rewrite !leb_spec. apply SFleb_trans. Qed.

Lemma ltb_false_leb (x y : t) :
  is_nan x = false -> is_nan y = false ->
  (x <? y)%float = false -> (y <=? x)%float = true.
Proof. rewrite ltb_spec, leb_spec. apply SFltb_false_leb. Qed.

Lemma ltb_leb (x y : t) : (x <? y)%float = true -> (x <=? y)%float = true.
Proof. rewrite ltb_spec, leb_spec. apply SFltb_leb. Qed.

Lemma eqb_tied (k x y : t) :
  (x =? k)%float = true -> (y =? k)%float = true -> (x <? y)%float = false.
Proof. rewrite !eqb_spec, ltb_spec. apply SFeqb_tied. Qed.

Lemma leb_refl (x : t) : is_nan x = false -> (x <=? x)%float = true.
Proof. rewrite leb_spec. apply SFleb_refl. Qed.

Lemma finite_not_nan (x : t) : is_finite x = true -> is_nan x = false.
Proof. unfold is_finite, is_nan. now destruct (view x). Qed.

Lemma py_round_ok_finite (x : t) r : py_round x = Ok r -> is_finite x = true.
Proof. unfold py_round, is_finite. now destruct (view x). Qed.

End FloatOrder.

(** ** What the sort guarantees *)
Section SortCorrect.
Context {A : Type} (key : A -> PyFloat.t).

Lemma insert_reverse_descending x l :
  PyFloat.is_nan (key x) = false -> no_nan key l ->
  descending key l -> descending key (insert_reverse key x l).
Proof.
  intros Hx Hl Hs. induction Hs as [|y l Hs IH Hy]; simpl.
  - repeat constructor.
  - inversion Hl as [|? ? Hny Hl']; subst.
    destruct (key x <? key y)%float eqn:E.
    + constructor; [now apply IH|].
      eapply Permutation_Forall; [apply insert_reverse_perm|].
      constructor; [now apply FloatOrder.ltb_leb|exact Hy].
    + assert (Hyx : (key y <=? key x)%float = true)
        by now apply FloatOrder.ltb_false_leb.
      constructor; [now constructor|].
      constructor; [exact Hyx|].
      eapply Forall_impl; [|exact Hy]. intros z Hz. simpl in Hz.
      eapply FloatOrder.leb_trans; eauto.
Qed.

Lemma sort_reverse_descending l :
  no_nan key l -> descending key (sort_reverse key l).
Proof.
  induction l as [|x l IH]; intros Hl; simpl.
  - constructor.
  - inversion Hl; subst. apply insert_reverse_descending; auto.
    eapply Permutation_Forall; [apply sort_reverse_perm|assumption].
Qed.

(** Stability: the elements whose key equals [k] keep their order. *)
Lemma insert_reverse_stable k x l :
  filter (fun y => (key y =? k)%float) (insert_reverse key x l)
  = filter (fun y => (key y =? k)%float) (x :: l).
Proof.
  induction l as [|y l IH]; simpl; auto.
  destruct (key x <? key y)%float eqn:E; simpl; auto.
  rewrite IH. simpl.
  destruct (key x =? k)%float eqn:Ex, (key y =? k)%float eqn:Ey; auto.
  rewrite (FloatOrder.eqb_tied k _ _ Ex Ey) in E. discriminate.
Qed.

Lemma sort_reverse_stable k l :
  filter (fun y => (key y =? k)%float) (sort_reverse key l)
  = filter (fun y => (key y =? k)%float) l.
Proof.
  induction l as [|x l IH]; simpl; auto.
  rewrite insert_reverse_stable. simpl. now rewrite IH.
Qed.
End SortCorrect.

(** ** Properties of the ranking *)

Lemma scored_api c : forall infos,
  map api (scored c infos) = filter (scores_ok c) infos.
Proof.
  unfold scored, scores_ok. induction infos as [|a infos IH]; simpl; auto.
  unfold score_of. destruct (score_entry a c) as [[[? ?] ?]|]; simpl; congruence.
Qed.

Lemma scored_entries c : forall infos, Forall (scores_entry c) (scored c infos).
Proof.
  unfold scored. induction infos as [|a infos IH]; simpl; auto.
  unfold score_of. destruct (score_entry a c) as [[[? ?] ?]|] eqn:E; auto.
Qed.

Lemma scores_entry_finite c s :
  scores_entry c s -> PyFloat.is_finite (total_score s) = true.
Proof.
  unfold scores_entry, score_entry. intros H.
  destruct (calculate_category_scores (api s) c) as [cs|]; [|discriminate].
  simpl in H.
  destruct (calculate_compatibility_percentage (calculate_total_score cs None))
    as [p|] eqn:E; [|discriminate].
  simpl in H. injection H as _ H2 _. rewrite <- H2.
  unfold calculate_compatibility_percentage in E.
  destruct (PyFloat.py_round (calculate_total_score cs None)) eqn:E'; [|discriminate].
  eapply FloatOrder.py_round_ok_finite; eauto.
Qed.

Lemma scored_total_filter c k : forall infos,
  map api (filter (fun s => (total_score s =? k)%float) (scored c infos))
  = filter (total_is c k) infos.
Proof.
  unfold scored, total_is. induction infos as [|a infos IH]; simpl; auto.
  unfold score_of. destruct (score_entry a c) as [[[? total] ?]|]; simpl; auto.
  destruct (total =? k)%float; simpl; congruence.
Qed.

Section Enumerate.
Context {R : Type}.

Lemma enumerate_ranks_api : forall (l : list (APIScore R)) r,
  map api (enumerate_ranks r l) = map api l.
Proof. induction l; intros; simpl; auto. now rewrite IHl. Qed.

Lemma enumerate_ranks_nth : forall (l : list (APIScore R)) r i s,
  nth_error (enumerate_ranks r l) i = Some s ->
  recommendation_rank s = (r + Z.of_nat i)%Z.
Proof.
  induction l as [|x l IH]; intros r [|i] s H; simpl in *; try discriminate.
  - injection H as <-. simpl. lia.
  - rewrite (IH _ _ _ H). lia.
Qed.

Lemma enumerate_ranks_filter (p : PyFloat.t -> bool) : forall (l : list (APIScore R)) r,
  map api (filter (fun s => p (total_score s)) (enumerate_ranks r l))
  = map api (filter (fun s => p (total_score s)) l).
Proof.
  induction l as [|x l IH]; intros r; simpl; auto.
  destruct (p (total_score x)); simpl; now rewrite IH.
Qed.

Lemma enumerate_ranks_descending : forall (l : list (APIScore R)) r,
  descending total_score l -> descending total_score (enumerate_ranks r l).
Proof.
  induction l as [|x l IH]; intros r H; simpl; [constructor|].
  inversion H as [|? ? Hs Hx]; subst. constructor; [now apply IH|].
  apply Forall_enumerate_ranks; auto.
Qed.
End Enumerate.

Lemma descending_head {A} (key : A -> PyFloat.t) x l :
  PyFloat.is_nan (key x) = false ->
  descending key (x :: l) ->
  Forall (fun y => (key y <=? key x)%float = true) (x :: l).
Proof.
  intros Hx H. inversion H; subst. constructor; auto.
  now apply FloatOrder.leb_refl.
Qed.

(** Everything the ranking guarantees, for the records that score. *)
Lemma ranked_properties c infos :
  let scores := ranked c infos in
  Permutation (map api scores) (filter (scores_ok c) infos) /\
  Forall (scores_entry c) scores /\
  descending total_score scores /\
  (forall i s, nth_error scores i = Some s ->
     recommendation_rank s = Z.of_nat (S i)) /\
  (forall k, map api (filter (fun s => (total_score s =? k)%float) scores)
             = filter (total_is c k) infos) /\
  (forall first, hd_error scores = Some first ->
     Forall (fun s => (total_score s <=? total_score first)%float = true) scores).
Proof.
  unfold ranked. cbv zeta.
  assert (HE : Forall (scores_entry c) (sort_reverse total_score (scored c infos))).
  { eapply Permutation_Forall; [apply sort_reverse_perm|apply scored_entries]. }
  assert (HD : descending total_score
                 (enumerate_ranks 1 (sort_reverse total_score (scored c infos)))).
  { apply enumerate_ranks_descending, sort_reverse_descending.
    eapply Forall_impl; [|apply scored_entries].
    intros s Hs. apply FloatOrder.finite_not_nan. eapply scores_entry_finite; eauto. }
  assert (HE' : Forall (scores_entry c)
                  (enumerate_ranks 1 (sort_reverse total_score (scored c infos)))).
  { apply Forall_enumerate_ranks; auto. }
  split; [|split; [|split; [|split; [|split]]]]; auto.
  - rewrite enumerate_ranks_api, <- scored_api.
    apply Permutation_map, Permutation_sym, sort_reverse_perm.
  - intros i s H. rewrite (enumerate_ranks_nth _ _ _ _ H). lia.
  - intros k.
    rewrite (enumerate_ranks_filter (fun t => (t =? k)%float)).
    rewrite sort_reverse_stable. apply scored_total_filter.
  - intros first Hfirst.
    destruct (enumerate_ranks 1 (sort_reverse total_score (scored c infos)))
      as [|x l] eqn:E; [discriminate|].
    injection Hfirst as ->. apply descending_head; auto.
    inversion HE'; subst. apply FloatOrder.finite_not_nan.
    eapply scores_entry_finite; eauto.
Qed.

Lemma ranked_length c infos :
  List.length (ranked c infos) = List.length (filter (scores_ok c) infos).
Proof.
  unfold ranked. rewrite enumerate_ranks_length, sort_reverse_length.
  rewrite <- scored_api. now rewrite length_map.
Qed.

Lemma score_apis_returns c apis infos w :
  catalog_of (heap w) apis infos ->
  match filter (scores_ok c) infos with
  | [] => fst (score_apis c apis w) = Raise no_apis_scored
  | _ :: _ => returns (score_apis c apis w) (ranked c infos)
  end.
Proof.
  intros Hcat. destruct (score_apis_spec c apis infos w Hcat) as [w' [_ H]].
  generalize (ranked_length c infos).
  destruct (ranked c infos) as [|s l]; destruct (filter (scores_ok c) infos);
    simpl; try discriminate; intros _.
  - now rewrite H.
  - destruct H as [locs [E H]]. exists locs. rewrite E. auto.
Qed.

Lemma filter_all {A} (p : A -> bool) l :
  Forall (fun x => p x = true) l -> filter p l = l.
Proof. induction 1; simpl; auto. rewrite H. congruence. Qed.

(** ** The claims about [score_apis] *)

(** C1 (as amended: the catalog is not empty).  On a non-empty catalog whose
    entries all score without error, [score_apis] returns one [APIScore] per
    entry, each holding the values scored for its entry; the list is sorted
    by [total_score] in descending order; the element at 0-based position
    [i] has rank [i + 1]; the entries of equal total keep their catalog
    order; and no total exceeds the first element's. *)
Theorem score_apis_ranks_every_entry c apis infos w :
  catalog_of (heap w) apis infos ->
  Forall (fun a => scores_ok c a = true) infos ->
  infos <> [] ->
  exists scores,
    returns (score_apis c apis w) scores /\
    Permutation (map api scores) infos /\
    Forall (scores_entry c) scores /\
    descending total_score scores /\
    (forall i s, nth_error scores i = Some s ->
       recommendation_rank s = Z.of_nat (S i)) /\
    (forall k, map api (filter (fun s => (total_score s =? k)%float) scores)
               = filter (total_is c k) infos) /\
    (forall first, hd_error scores = Some first ->
       Forall (fun s => (total_score s <=? total_score first)%float = true) scores).
Proof.
  intros Hcat Hok Hne.
  generalize (score_apis_returns c apis infos w Hcat).
  generalize (ranked_properties c infos). cbv zeta.
  rewrite (filter_all _ _ Hok).
  destruct infos as [|a infos]; [congruence|].
  intros Hprops Hret. exists (ranked c (a :: infos)). split; assumption.
Qed.

(** C1, the claim as stated, fails on the empty catalog: all of its entries
    score without error, and the call raises instead of returning. *)
Lemma score_apis_empty_catalog_raises :
  catalog_of (heap (example_world [])) (Some []) [] /\
  Forall (fun a => scores_ok example_constraints a = true) [] /\
  fst (score_apis example_constraints (Some []) (example_world [])) = Raise no_apis_scored /\
  ~ exists scores,
      returns (score_apis example_constraints (Some []) (example_world [])) scores.
Proof.
  split; [constructor|]. split; [constructor|]. split; [reflexivity|].
  intros [scores [locs [H _]]]. discriminate H.
Qed.

(** C5.  An entry whose scoring raises is skipped; the call raises exactly
    when no entry scored (an empty catalog included), and otherwise returns
    one [APIScore] per entry that scored. *)
Theorem score_apis_skips_failing_entries c apis infos w :
  catalog_of (heap w) apis infos ->
  (filter (scores_ok c) infos = [] <->
     exists e, fst (score_apis c apis w) = Raise e) /\
  (filter (scores_ok c) infos = [] ->
     fst (score_apis c apis w) = Raise no_apis_scored) /\
  (filter (scores_ok c) infos <> [] ->
     exists scores,
       returns (score_apis c apis w) scores /\
       Permutation (map api scores) (filter (scores_ok c) infos) /\
       Forall (scores_entry c) scores).
Proof.
  intros Hcat.
  generalize (score_apis_returns c apis infos w Hcat).
  destruct (ranked_properties c infos) as [HP [HE _]].
  destruct (filter (scores_ok c) infos) as [|a l] eqn:E.
  - intros H. repeat split; eauto; congruence.
  - intros H. split; [|split]; [split| |]; try discriminate.
    + intros [e He]. destruct H as [locs [H _]]. congruence.
    + intros _. exists (ranked c infos). auto.
Qed.

Lemma outcome_spec c apis infos w :
  catalog_of (heap w) apis infos ->
  outcome (score_apis c apis w) =
    match ranked c infos with
    | [] => Raise no_apis_scored
    | scores => Ok (map Some scores)
    end.
Proof.
  intros Hcat. destruct (score_apis_spec c apis infos w Hcat) as [w' [_ H]].
  unfold outcome. destruct (ranked c infos) as [|s l].
  - now rewrite H.
  - destruct H as [locs [E H]]. rewrite E. simpl. now rewrite H.
Qed.

Lemma catalog_of_frame h h' apis infos :
  frame h h' -> catalog_of h apis infos -> catalog_of h' apis infos.
Proof.
  intros Hf. destruct apis as [ls|]; simpl; auto.
  intros H. eapply Forall2_impl; [|exact H]. intros l a Hl. red. red in Hl.
  rewrite Hf; auto. now apply nth_error_Some_lt in Hl.
Qed.

(** C9.  The outcome of [score_apis] depends on the constraints and on the
    catalog records only: two calls on the same records give the same list of
    scores, in the same order, whatever the clock readings, the log and the
    rest of the store are; in particular a second call made after the first. *)
Theorem score_apis_deterministic c apis1 apis2 infos w1 w2 :
  catalog_of (heap w1) apis1 infos ->
  catalog_of (heap w2) apis2 infos ->
  outcome (score_apis c apis1 w1) = outcome (score_apis c apis2 w2) /\
  outcome (score_apis c apis1 (snd (score_apis c apis1 w1)))
  = outcome (score_apis c apis1 w1).
Proof.
  intros H1 H2. split.
  - now rewrite (outcome_spec c apis1 infos w1), (outcome_spec c apis2 infos w2).
  - rewrite (outcome_spec c apis1 infos w1 H1).
    apply outcome_spec.
    destruct (score_apis_spec c apis1 infos w1 H1) as [w' [Hf H]].
    assert (Hw : snd (score_apis c apis1 w1) = w').
    { destruct (ranked c infos); [now rewrite H|].
      destruct H as [locs [E _]]. now rewrite E. }
    rewrite Hw. eapply catalog_of_frame; eauto.
Qed.

(** C10.  Whatever it is given and whether it returns or raises,
    [score_apis] leaves every object that existed before the call as it was,
    the catalog records it was given among them; every object it adds is a
    record of the built-in catalog (when no catalog was given) or an
    [APIScore] equal, but for its rank, to the one constructed for its entry. *)
Theorem score_apis_leaves_inputs_unchanged c apis w :
  let w' := snd (score_apis c apis w) in
  (forall l a, points_to_info (heap w) l a -> points_to_info (heap w') l a) /\
  (forall l o, nth_error (heap w) l = Some o -> nth_error (heap w') l = Some o) /\
  (forall l o, List.length (heap w) <= l -> nth_error (heap w') l = Some o ->
     match o with
     | ObjInfo a => apis = None /\ In a get_all_apis
     | ObjScore s' => as_constructed c (heap w') s'
     end).
Proof.
  destruct (score_apis_effects c apis w) as [H1 H2]. cbv zeta.
  split; [|split]; auto. intros l a. apply H1.
Qed.

Lemma example_catalog_of records :
  catalog_of (heap (example_world records))
    (Some (seq 0 (List.length records))) records.
Proof.
  simpl. generalize (points_to_fresh [] records []). simpl. auto.
Qed.

Lemma score_apis_ranks_every_entry_witness :
  exists scores,
    returns (score_apis example_constraints (Some [0; 1])
               (example_world [example_record "Beta" false [STOCKS] [EOD];
                               example_record "Alpha" true [STOCKS] []])) scores /\
    Permutation (map api scores)
      [example_record "Beta" false [STOCKS] [EOD];
       example_record "Alpha" true [STOCKS] []] /\
    Forall (scores_entry example_constraints) scores /\
    descending total_score scores /\
    (forall i s, nth_error scores i = Some s ->
       recommendation_rank s = Z.of_nat (S i)) /\
    (forall k, map api (filter (fun s => (total_score s =? k)%float) scores)
               = filter (total_is example_constraints k)
                   [example_record "Beta" false [STOCKS] [EOD];
                    example_record "Alpha" true [STOCKS] []]) /\
    (forall first, hd_error scores = Some first ->
       Forall (fun s => (total_score s <=? total_score first)%float = true) scores).
Proof.
  apply (score_apis_ranks_every_entry example_constraints (Some [0; 1])
           [example_record "Beta" false [STOCKS] [EOD];
            example_record "Alpha" true [STOCKS] []]).
  - apply (example_catalog_of [example_record "Beta" false [STOCKS] [EOD];
                               example_record "Alpha" true [STOCKS] []]).
  - repeat constructor.
  - discriminate.
Defined.

Lemma score_apis_skips_failing_entries_witness :
  (filter (scores_ok example_constraints) example_catalog = [] <->
     exists e, fst (score_apis example_constraints (Some [0; 1; 2])
                      (example_world example_catalog)) = Raise e) /\
  (filter (scores_ok example_constraints) example_catalog = [] ->
     fst (score_apis example_constraints (Some [0; 1; 2])
            (example_world example_catalog)) = Raise no_apis_scored) /\
  (filter (scores_ok example_constraints) example_catalog <> [] ->
     exists scores,
       returns (score_apis example_constraints (Some [0; 1; 2])
                  (example_world example_catalog)) scores /\
       Permutation (map api scores)
         (filter (scores_ok example_constraints) example_catalog) /\
       Forall (scores_entry example_constraints) scores).
Proof.
  apply (score_apis_skips_failing_entries example_constraints (Some [0; 1; 2])
           example_catalog (example_world example_catalog)).
  apply (example_catalog_of example_catalog).
Defined.

Lemma score_apis_deterministic_witness :
  outcome (score_apis example_constraints (Some [0; 1; 2]) (example_world example_catalog))
  = outcome (score_apis example_constraints (Some [1; 2; 3])
               {| heap := ObjInfo malformed_record :: map ObjInfo example_catalog;
                  clock := fun n => 1000%float;
                  ticks := 7;
                  log := [(INFO, Msg_none_scored)] |}) /\
  outcome (score_apis example_constraints (Some [0; 1; 2])
             (snd (score_apis example_constraints (Some [0; 1; 2])
                     (example_world example_catalog))))
  = outcome (score_apis example_constraints (Some [0; 1; 2]) (example_world example_catalog)).
Proof.
  apply (score_apis_deterministic example_constraints (Some [0; 1; 2]) (Some [1; 2; 3])
           example_catalog).
  - apply (example_catalog_of example_catalog).
  - repeat constructor.
Defined.

(* ================================================================== *)
(** * Rounding and the compatibility percentage *)

Module RoundFacts.
Import PyFloat.
Open Scope Z_scope.

Lemma round_half_even_nearest m e :
  0 <= m -> e < 0 ->
  let d := 2 ^ (- e) in
  let r := round_half_even m e in
  0 <= r /\ 2 * Z.abs (r * d - m) <= d /\
  (2 * Z.abs (r * d - m) = d -> Z.even r = true).
Proof.
  intros Hm He d r.
  assert (Hd : 0 < d) by (apply Z.pow_pos_nonneg; lia).
  unfold r, round_half_even. destruct (Z.leb_spec 0 e) as [|_]; [lia|].
  fold d.
  pose proof (Z.div_mod m d ltac:(lia)) as Hdm.
  pose proof (Z.mod_pos_bound m d Hd) as Hmod.
  assert (Hq : 0 <= m / d) by (apply Z.div_pos; lia).
  set (q := m / d) in *. set (rem := m mod d) in *.
  destruct (Z.compare_spec (2 * rem) d) as [E|E|E].
  - destruct (Z.even q) eqn:Ev.
    + repeat split; try lia. intros _. exact Ev.
    + repeat split; try lia. intros _.
      rewrite Z.even_add, Ev. reflexivity.
  - repeat split; lia.
  - repeat split; lia.
Qed.

Lemma round_half_even_exact m e :
  0 <= e -> round_half_even m e = m * 2 ^ e.
Proof. intros He. unfold round_half_even. destruct (Z.leb_spec 0 e); lia. Qed.

Close Scope Z_scope.
Open Scope Q_scope.

Lemma Qpower_2_neg e : (e < 0)%Z -> Qpower 2 e == 1 # Z.to_pos (2 ^ (- e)).
Proof.
  intros He.
  assert (Hd : (0 < 2 ^ (- e))%Z) by (apply Z.pow_pos_nonneg; lia).
  replace e with (- (- e))%Z at 1 by lia.
  rewrite Qpower_opp.
  rewrite <- (Zpower_Qpower 2 (- e)) by lia.
  unfold Qinv, inject_Z. simpl.
  destruct (2 ^ (- e))%Z eqn:E; try lia. simpl. reflexivity.
Qed.

Lemma Qpower_2_nonneg e : (0 <= e)%Z -> Qpower 2 e == inject_Z (2 ^ e).
Proof. intros He. now rewrite (Zpower_Qpower 2 e He). Qed.

Lemma nearest_even_opp v r : nearest_even v r -> nearest_even (- v) (- r).
Proof.
  unfold nearest_even.
  assert (E : inject_Z (- r) - - v == - (inject_Z r - v)).
  { rewrite inject_Z_opp. ring. }
  rewrite E, Qabs_opp. rewrite Z.even_opp. auto.
Qed.

Lemma nearest_even_pos m e :
  nearest_even (inject_Z (Zpos m) * Qpower 2 e) (round_half_even (Zpos m) e).
Proof.
  unfold nearest_even.
  destruct (Z.leb_spec 0 e) as [He|He].
  - rewrite round_half_even_exact by exact He.
    assert (E : inject_Z (Z.pos m * 2 ^ e) - inject_Z (Z.pos m) * Qpower 2 e == 0).
    { rewrite Qpower_2_nonneg by exact He. rewrite inject_Z_mult. ring. }
    rewrite E. split.
    + discriminate.
    + intros H. discriminate H.
  - destruct (round_half_even_nearest (Zpos m) e ltac:(lia) He) as [H0 [H1 H2]].
    cbv zeta in H1, H2.
    assert (Hd : (0 < 2 ^ (- e))%Z) by (apply Z.pow_pos_nonneg; lia).
    set (r := round_half_even (Z.pos m) e) in *.
    set (d := (2 ^ (- e))%Z) in *.
    assert (Ed : Zpos (Z.to_pos d) = d) by (apply Z2Pos.id; lia).
    assert (E : inject_Z r - inject_Z (Z.pos m) * Qpower 2 e
                == (r * d - Z.pos m) # Z.to_pos d).
    { rewrite Qpower_2_neg by exact He. fold d.
      unfold Qeq, Qminus, Qplus, Qmult, Qopp, inject_Z. simpl. rewrite !Ed.
      rewrite !Pos.mul_1_r. change (Z.neg m) with (- Z.pos m)%Z. ring. }
    rewrite E.
    unfold Qabs, Qle, Qeq. simpl. rewrite Ed. split.
    + lia.
    + intros H. apply H2. lia.
Qed.

Lemma py_round_nearest x :
  is_finite x = true ->
  exists v r, value x = Some v /\ py_round x = Ok r /\ nearest_even v r.
Proof.
  unfold is_finite, value, py_round.
  destruct (view x) as [s|s| |s m e]; try discriminate; intros _.
  - exists 0, 0%Z. repeat split; try reflexivity; try discriminate.
  - exists (inject_Z (cond_Zopp s (Z.pos m)) * Qpower 2 e),
           (cond_Zopp s (round_half_even (Z.pos m) e)).
    split; [reflexivity|]. split; [reflexivity|].
    destruct s; simpl cond_Zopp; [|apply nearest_even_pos].
    pose proof (nearest_even_opp _ _ (nearest_even_pos m e)) as [H1 H2].
    assert (E : inject_Z (Z.neg m) * Qpower 2 e == - (inject_Z (Z.pos m) * Qpower 2 e)).
    { change (Z.neg m) with (- Z.pos m)%Z. rewrite inject_Z_opp. ring. }
    unfold nearest_even. rewrite E. split; assumption.
Qed.

End RoundFacts.

Lemma nearest_bounds v r :
  nearest_even v r ->
  (inject_Z r - v <= 1 # 2)%Q /\ (- (1 # 2) <= inject_Z r - v)%Q.
Proof.
  intros [H _]. apply Qabs_Qle_condition in H. tauto.
Qed.

(** C2.  On every finite float, [calculate_compatibility_percentage] does
    not raise and returns [clamp(round(total_score), 0, 100)], where
    [round] yields a nearest integer of the input (the even one on a tie):
    an input below 0 gives 0, one above 100 gives 100, and one in [0, 100]
    gives its rounding. *)
Theorem calculate_compatibility_percentage_clamps (total_score : PyFloat.t) :
  PyFloat.is_finite total_score = true ->
  exists v r,
    PyFloat.value total_score = Some v /\
    PyFloat.py_round total_score = Ok r /\
    nearest_even v r /\
    calculate_compatibility_percentage total_score = Ok (Z.max 0 (Z.min 100 r)) /\
    ((v < 0)%Q -> calculate_compatibility_percentage total_score = Ok 0%Z) /\
    ((100 < v)%Q -> calculate_compatibility_percentage total_score = Ok 100%Z) /\
    ((0 <= v <= 100)%Q -> calculate_compatibility_percentage total_score = Ok r).
Proof.
  intros Hfin.
  destruct (RoundFacts.py_round_nearest total_score Hfin) as [v [r [Hv [Hr Hn]]]].
  exists v, r. split; [exact Hv|]. split; [exact Hr|]. split; [exact Hn|].
  unfold calculate_compatibility_percentage. rewrite Hr. simpl.
  destruct (nearest_bounds v r Hn) as [Hup Hlo].
  split; [reflexivity|]. split; [|split].
  - intros Hneg. f_equal.
    assert (H : (inject_Z r < inject_Z 1)%Q) by (unfold inject_Z at 2; lra).
    rewrite <- Zlt_Qlt in H. lia.
  - intros Hbig. f_equal.
    assert (H : (inject_Z 99 < inject_Z r)%Q) by (unfold inject_Z at 1; lra).
    rewrite <- Zlt_Qlt in H. lia.
  - intros [H0 H100]. f_equal.
    assert (H : (inject_Z (-1) < inject_Z r)%Q) by (unfold inject_Z at 1; lra).
    assert (H' : (inject_Z r < inject_Z 101)%Q) by (unfold inject_Z at 2; lra).
    rewrite <- Zlt_Qlt in H, H'. lia.
Qed.

Lemma calculate_compatibility_percentage_clamps_witness :
  exists v r,
    PyFloat.value 87.5%float = Some v /\
    PyFloat.py_round 87.5%float = Ok r /\
    nearest_even v r /\
    calculate_compatibility_percentage 87.5%float = Ok (Z.max 0 (Z.min 100 r)) /\
    ((v < 0)%Q -> calculate_compatibility_percentage 87.5%float = Ok 0%Z) /\
    ((100 < v)%Q -> calculate_compatibility_percentage 87.5%float = Ok 100%Z) /\
    ((0 <= v <= 100)%Q -> calculate_compatibility_percentage 87.5%float = Ok r).
Proof.
  apply (calculate_compatibility_percentage_clamps 87.5%float). reflexivity.
Defined.

(** The tie 87.5 rounds to the even 88; an input beyond the range is
    clamped; a NaN or an infinity makes the conversion raise. *)
Lemma calculate_compatibility_percentage_examples :
  calculate_compatibility_percentage 87.5%float = Ok 88%Z /\
  calculate_compatibility_percentage 86.5%float = Ok 86%Z /\
  calculate_compatibility_percentage (-3.5)%float = Ok 0%Z /\
  calculate_compatibility_percentage 250.25%float = Ok 100%Z /\
  calculate_compatibility_percentage infinity = Raise OverflowError.
Proof. repeat split; reflexivity. Qed.

Lemma calculate_compatibility_percentage_not_finite (total_score : PyFloat.t) :
  PyFloat.is_finite total_score = false ->
  exists e, calculate_compatibility_percentage total_score = Raise e.
Proof.
  unfold PyFloat.is_finite, calculate_compatibility_percentage, PyFloat.py_round.
  destruct (PyFloat.view total_score); try discriminate; intros _; simpl; eauto.
Qed.

(* ================================================================== *)
(** * A float between 0 and 1, times 100 *)

Module MulBound.
Import PyFloat.
Open Scope Z_scope.

Lemma digits2_pos_size p : digits2_pos p = Pos.size p.
Proof. induction p; simpl; congruence. Qed.

Lemma Zdigits2_le m K : 0 <= m < 2 ^ K -> 0 <= K -> Zdigits2 m <= K.
Proof.
  intros [H0 HK] HK0. destruct m as [|p|p]; simpl; try lia.
  rewrite digits2_pos_size.
  pose proof (Pos.size_le p) as Hs.
  destruct (Z.le_gt_cases (Zpos (Pos.size p)) K) as [|Hgt]; auto.
  exfalso.
  assert (H2 : 2 ^ (K + 1) <= 2 ^ Zpos (Pos.size p)) by (apply Z.pow_le_mono_r; lia).
  rewrite Z.pow_add_r in H2 by lia.
  assert (H3 : (2 ^ Zpos (Pos.size p) <= Zpos p~0)).
  { rewrite <- Pos2Z.inj_pow. apply Pos2Z.pos_le_pos. exact Hs. }
  change (Zpos p~0) with (2 * Zpos p) in H3. lia.
Qed.

Lemma pos_lt_pow_digits m : Zpos m < 2 ^ Zpos (digits2_pos m).
Proof.
  rewrite digits2_pos_size. rewrite <- Pos2Z.inj_pow.
  apply Pos2Z.pos_lt_pos. apply Pos.size_gt.
Qed.

Lemma shr_1_bounds mrs : 0 <= shr_m mrs -> 0 <= shr_m (shr_1 mrs) <= shr_m mrs.
Proof.
  destruct mrs as [m r s]. simpl. destruct m as [|[p|p|]|p]; simpl; lia.
Qed.

Lemma iter_pos_shr_1_bounds : forall n mrs,
  0 <= shr_m mrs -> 0 <= shr_m (iter_pos shr_1 n mrs) <= shr_m mrs.
Proof.
  induction n as [n IH|n IH|]; intros mrs H; simpl.
  - pose proof (shr_1_bounds mrs H) as H1.
    pose proof (IH _ (proj1 H1)) as H2.
    pose proof (IH _ (proj1 H2)) as H3. lia.
  - pose proof (IH _ H) as H2.
    pose proof (IH _ (proj1 H2)) as H3. lia.
  - apply shr_1_bounds, H.
Qed.

Lemma shr_m_of_loc m l : shr_m (shr_record_of_loc m l) = m.
Proof. destruct l as [|[| |]]; reflexivity. Qed.

(** One right shift to the format's exponent: the mantissa stays between 0
    and its old value, and the exponent is the larger of the old one and
    the format's. *)
Lemma shr_fexp_bounds m e l :
  0 <= m ->
  let '(mrs, e') := shr_fexp prec emax m e l in
  0 <= shr_m mrs <= m /\
  e' = Z.max e (fexp prec emax (Zdigits2 m + e)).
Proof.
  intros Hm. unfold shr_fexp, shr.
  destruct (fexp prec emax (Zdigits2 m + e) - e) as [|p|p] eqn:E.
  - rewrite shr_m_of_loc. lia.
  - pose proof (iter_pos_shr_1_bounds p (shr_record_of_loc m l)) as H.
    rewrite shr_m_of_loc in H. split; [apply H, Hm|lia].
  - rewrite shr_m_of_loc. lia.
Qed.

Lemma round_nearest_even_bounds m l :
  0 <= m -> m <= round_nearest_even m l <= m + 1.
Proof.
  intros Hm. destruct l as [|[| |]]; simpl; try lia.
  destruct (Z.even m); lia.
Qed.

Lemma fexp_le z B : z - 53 <= B -> -1074 <= B -> fexp prec emax z <= B.
Proof. unfold fexp, FloatOps.prec, SpecFloat.emin, emax. lia. Qed.

(** Rounding a non-negative mantissa below [2^K] at an exponent at most [B]
    yields a zero or a finite float when [K] and [B] are small enough. *)
Lemma binary_round_aux_finite s mx ex lx K B :
  0 <= mx < 2 ^ K -> 0 <= K ->
  ex <= B -> K + ex - 53 <= B -> -1074 <= B ->
  K + 1 + B - 53 <= 971 -> B <= 971 ->
  SF_is_finite (binary_round_aux prec emax s mx ex lx) = true.
Proof.
  intros Hmx HK Hex HKex HB HKB HB'.
  unfold binary_round_aux.
  pose proof (shr_fexp_bounds mx ex lx (proj1 Hmx)) as H1.
  destruct (shr_fexp prec emax mx ex lx) as [mrs' e'].
  destruct H1 as [Hm' He'].
  pose proof (round_nearest_even_bounds (shr_m mrs') (loc_of_shr_record mrs') (proj1 Hm')) as Hr.
  set (m1 := round_nearest_even (shr_m mrs') (loc_of_shr_record mrs')) in *.
  pose proof (shr_fexp_bounds m1 e' loc_Exact ltac:(lia)) as H2.
  destruct (shr_fexp prec emax m1 e' loc_Exact) as [mrs'' e''].
  destruct H2 as [Hm'' He''].
  assert (Hd : Zdigits2 mx <= K) by (apply Zdigits2_le; lia).
  assert (He'B : e' <= B).
  { rewrite He'. apply Z.max_lub; [lia|]. apply fexp_le; lia. }
  assert (Hd1 : Zdigits2 m1 <= K + 1).
  { apply Zdigits2_le; [|lia]. split; [lia|].
    rewrite Z.pow_add_r by lia. lia. }
  assert (He''B : e'' <= 971).
  { rewrite He''. apply Z.max_lub; [lia|]. apply fexp_le; lia. }
  destruct (shr_m mrs'') as [|p|p] eqn:E; simpl; try lia; auto.
  unfold emax, FloatOps.prec. simpl.
  destruct (Z.leb_spec e'' 971); [reflexivity|lia].
Qed.

Close Scope Z_scope.

(** A float between 0 and 1 times 100 is finite. *)
Lemma unit_times_100_finite (x : t) :
  (0 <=? x)%float = true -> (x <=? 1)%float = true ->
  is_finite (x * 100)%float = true.
Proof.
  rewrite !leb_spec. unfold is_finite, view. rewrite mul_spec.
  pose proof (Prim2SF_valid x) as Hvalid.
  change (Prim2SF 0) with (S754_zero false).
  change (Prim2SF 1) with (S754_finite false 4503599627370496 (-52)).
  change (Prim2SF 100) with (S754_finite false 7036874417766400 (-46)).
  destruct (Prim2SF x) as [s|s| |s m e]; try (destruct s; discriminate); try discriminate.
  - intros _ _. reflexivity.
  - intros H0 H1. destruct s; [discriminate|].
    unfold SF64mul, SFmul. simpl xorb.
    unfold valid_binary, bounded, canonical_mantissa in Hvalid.
    apply andb_prop in Hvalid. destruct Hvalid as [Hc _].
    apply Z.eqb_eq in Hc.
    assert (Hdig : (Zpos (digits2_pos m) <= 53)%Z).
    { unfold fexp, FloatOps.prec, SpecFloat.emin, emax in Hc. lia. }
    assert (Hm : (Zpos m < 2 ^ 53)%Z).
    { eapply Z.lt_le_trans; [apply pos_lt_pow_digits|].
      apply Z.pow_le_mono_r; lia. }
    assert (He : (e <= -52)%Z).
    { unfold SFleb, SFcompare in H1.
      destruct (Z.compare_spec e (-52)); try lia; discriminate. }
    apply (binary_round_aux_finite false _ _ loc_Exact 106 (-45)); lia.
Qed.

Lemma percent_ok (x : t) :
  (0 <=? x)%float = true -> (x <=? 1)%float = true ->
  exists p, percent x = Ok p.
Proof.
  intros H0 H1. pose proof (unit_times_100_finite x H0 H1) as Hf.
  unfold percent, py_int. unfold is_finite in Hf.
  destruct (view (x * 100)%float); try discriminate; simpl; eauto.
Qed.

End MulBound.

(* ================================================================== *)
(** * The verdict generator *)

Module StrFacts.
Import PyStr.
Open Scope string_scope.

Lemma startswith_spec k : forall hay,
  startswith k hay = true <-> exists post, hay = k ++ post.
Proof.
  induction k as [|a k IH]; intros hay; simpl.
  - split; eauto.
  - destruct hay as [|b hay].
    + split; [discriminate|]. intros [post H]. discriminate.
    + rewrite andb_true_iff, Ascii.eqb_eq, IH. split.
      * intros [-> [post ->]]. eauto.
      * intros [post H]. injection H as -> ->. eauto.
Qed.

Lemma contains_spec k : forall hay,
  contains k hay = true <-> exists pre post, hay = pre ++ k ++ post.
Proof.
  induction hay as [|b hay IH]; simpl; rewrite orb_true_iff, startswith_spec.
  - split.
    + intros [[post H]|H]; [|discriminate]. exists "", post. exact H.
    + intros [pre [post H]]. left. destruct pre; [eauto|discriminate].
  - rewrite IH. split.
    + intros [[post H]|[pre [post H]]].
      * exists "", post. exact H.
      * exists (String b pre), post. simpl. now rewrite H.
    + intros [[|b' pre] [post H]]; simpl in H.
      * left. eauto.
      * right. injection H as -> ->. eauto.
Qed.

Lemma append_assoc (a b c : string) : (a ++ b) ++ c = a ++ b ++ c.
Proof. induction a; simpl; congruence. Qed.

Lemma contains_trans a b hay :
  contains a b = true -> contains b hay = true -> contains a hay = true.
Proof.
  rewrite !contains_spec. intros [p1 [q1 ->]] [p2 [q2 ->]].
  exists (p2 ++ p1), (q1 ++ q2). now rewrite !append_assoc.
Qed.

Lemma contains_middle pre k post : contains k (pre ++ k ++ post) = true.
Proof. apply contains_spec. eauto. Qed.

Lemma contains_append_l k a b : contains k a = true -> contains k (a ++ b) = true.
Proof.
  rewrite !contains_spec. intros [p [q ->]]. exists p, (q ++ b).
  now rewrite !append_assoc.
Qed.

Lemma contains_append_r k a b : contains k b = true -> contains k (a ++ b) = true.
Proof.
  rewrite !contains_spec. intros [p [q ->]]. exists (a ++ p), q.
  now rewrite !append_assoc.
Qed.

Lemma join_cons sep p parts :
  exists rest, join sep (p :: parts) = p ++ rest.
Proof.
  unfold join. simpl. destruct parts; [exists ""|eauto].
  clear. induction p; simpl; congruence.
Qed.

Lemma nonempty_append_l a b : a <> "" -> a ++ b <> "".
Proof. destruct a; simpl; congruence. Qed.

End StrFacts.

(** ** C7: the two phrase sets *)

Lemma matches_any_app ks1 ks2 text :
  matches_any (ks1 ++ ks2) text = matches_any ks1 text || matches_any ks2 text.
Proof. unfold matches_any. apply existsb_app. Qed.

(** A keyword that contains one of [ks] adds nothing to [ks]. *)
Lemma matches_any_redundant ks k k' text :
  In k' ks -> PyStr.contains k' k = true ->
  matches_any (ks ++ [k]) text = matches_any ks text.
Proof.
  intros Hin Hsub. rewrite matches_any_app.
  assert (Hk : matches_any [k] text = PyStr.contains k (PyStr.lower text)).
  { unfold matches_any. simpl. now rewrite orb_false_r. }
  rewrite Hk.
  destruct (PyStr.contains k (PyStr.lower text)) eqn:Ek; [|now rewrite orb_false_r].
  rewrite orb_true_r. symmetry.
  unfold matches_any. apply existsb_exists. exists k'. split; auto.
  eapply StrFacts.contains_trans; eauto.
Qed.

Lemma tos_conflict_keywords_same text :
  matches_any tos_conflict_keywords text
  = matches_any commercial_restricted_keywords text.
Proof.
  change tos_conflict_keywords
    with (commercial_restricted_keywords
          ++ ["free tier for personal/non-commercial use only"]).
  apply (matches_any_redundant _ _ "non-commercial use only").
  - simpl. auto.
  - reflexivity.
Qed.

Lemma existsb_ext {A} (f g : A -> bool) :
  (forall x, f x = g x) -> forall l, existsb f l = existsb g l.
Proof. intros H. induction l; simpl; congruence. Qed.

Lemma float_neq (x y : PyFloat.t) : PrimFloat.eqb x y = false -> PrimFloat.is_nan x = false -> x <> y.
Proof.
  intros H Hn ->. 
  rewrite eqb_spec in H. unfold PrimFloat.is_nan in Hn.
  rewrite eqb_spec in Hn. 
  destruct (SFeqb (Prim2SF y) (Prim2SF y)); simpl in *; congruence.
Qed.

(** C7.  For every record, the verdict generator's check of a ToS conflict
    with the Trading Bot use case holds exactly when the scoring engine's
    penalty branch (score 25) is taken for that record under that use case:
    the two keyword lists match the same texts. *)
Theorem tos_conflict_iff_scoring_penalty (a : APIInfo) (b : BudgetTier)
    (dts : list DataType) (f : FrequencyTier) :
  has_tos_restrictions_for_use_case a TRADING_BOT = Ok true
  <-> score_use_case_suitability a (trading_bot b dts f) = Ok 25%float.
Proof.
  unfold has_tos_restrictions_for_use_case, score_use_case_suitability, trading_bot.
  simpl. destruct (tos_restrictions a) as [tos|]; [|split; discriminate].
  rewrite (existsb_ext _ _ tos_conflict_keywords_same tos).
  destruct (existsb (matches_any commercial_restricted_keywords) tos).
  - split; reflexivity.
  - split; [discriminate|].
    destruct (existsb (matches_any commercial_allowed_keywords) tos);
      intros H;
      apply (f_equal (fun r => match r with Ok x => x | Raise _ => 0%float end)) in H;
      exfalso; revert H; apply float_neq; reflexivity.
Qed.

(** ** C3: the alternative recommendation *)


Lemma instability_is_significant text :
  matches_any instability_phrases text = true ->
  matches_any SIGNIFICANT_LIMITATION_KEYWORDS text = true.
Proof.
  change SIGNIFICANT_LIMITATION_KEYWORDS
    with (["commercial use explicitly prohibited"; "non-commercial use only";
           "personal/educational use only"] ++ instability_phrases).
  rewrite matches_any_app. intros ->. apply orb_true_r.
Qed.

Lemma existsb_impl {A} (f g : A -> bool) l :
  (forall x, f x = true -> g x = true) -> existsb f l = true -> existsb g l = true.
Proof.
  intros H. rewrite !existsb_exists. intros [x [Hin Hx]]. eauto.
Qed.


Lemma app_nonempty {A} (l : list A) x : l ++ [x] <> [].
Proof. destruct l; discriminate. Qed.



Lemma recommendation_for_ok winner c :
  valid_record (api winner) -> exists text, recommendation_for winner c = Ok text.
Proof.
  intros [[Hp _] _]. unfold recommendation_for.
  destruct (pricing (api winner)) as [p|]; [|congruence].
  destruct (BudgetTier_beq (budget c) FREE); simpl; [|eauto].
  destruct (dict_get_default BudgetTier_beq p FREE false); simpl; eauto.
Qed.


(** ** C4: what the recommendation text contains *)

Lemma contains_join k sep : forall parts p,
  In p parts -> PyStr.contains k p = true ->
  PyStr.contains k (PyStr.join sep parts) = true.
Proof.
  unfold PyStr.join.
  induction parts as [|x parts IH]; intros p Hin Hk; [destruct Hin|].
  destruct parts as [|y parts].
  - destruct Hin as [->|[]]. exact Hk.
  - change (String.concat sep (x :: y :: parts))
      with (x ++ sep ++ String.concat sep (y :: parts))%string.
    destruct Hin as [->|Hin].
    + now apply StrFacts.contains_append_l.
    + apply StrFacts.contains_append_r, StrFacts.contains_append_r.
      eapply IH; eauto.
Qed.

Lemma recommendation_for_spec winner c :
  pricing (api winner) <> None ->
  recommendation_for winner c
  = Ok (PyStr.join " "
          ([opening_sentence winner] ++ key_advantage winner ++ budget_sentences winner c)).
Proof.
  intros Hp. unfold recommendation_for, budget_sentences, supports.
  destruct (pricing (api winner)) as [p|]; [|congruence].
  fold (opening_sentence winner). fold (key_advantage winner).
  destruct (budget c); simpl BudgetTier_beq; cbv iota;
    try destruct (dict_get_default BudgetTier_beq p FREE false);
    reflexivity.
Qed.

(** C4 (as amended: the tier's name appears for the paid tiers only).  On a
    non-empty list whose winner is a well-formed record, the recommendation
    text contains the winner's name and its compatibility percentage; it
    contains the name of the selected budget tier when that tier is not
    Free, and the words "free tier" when the tier is Free and the winner
    supports it; when the tier is Free and the winner does not support it,
    the text has no budget clause: it is the opening sentence and the key
    advantage. *)
Theorem generate_verdict_text_mentions set_iter (winner : APIScore APIInfo)
    (rest : list (APIScore APIInfo)) (c : UserConstraints) :
  well_formed (api winner) ->
  let text := recommendation_text (generate_verdict set_iter (winner :: rest) c) in
  PyStr.contains (name (api winner)) text = true /\
  PyStr.contains (PyStr.str_int (compatibility_percentage winner)) text = true /\
  (budget c <> FREE -> PyStr.contains (BudgetTier_value (budget c)) text = true) /\
  (budget c = FREE -> supports (api winner) FREE = true ->
   PyStr.contains "free tier" text = true) /\
  (budget c = FREE -> supports (api winner) FREE = false ->
   text = PyStr.join " " (opening_sentence winner :: key_advantage winner)).
Proof.
  intros [Hp _]. cbv zeta. unfold generate_verdict.
  rewrite (recommendation_for_spec winner c Hp).
  set (part2 := key_advantage winner).
  cbn [recommendation_text].
  assert (H1 : PyStr.contains (name (api winner)) (opening_sentence winner) = true)
    by apply (StrFacts.contains_middle "**").
  assert (H2 : PyStr.contains (PyStr.str_int (compatibility_percentage winner))
                 (opening_sentence winner) = true).
  { unfold opening_sentence. apply StrFacts.contains_append_r, StrFacts.contains_append_r.
    apply (StrFacts.contains_middle "** is your best match with a **"). }
  split; [eapply contains_join; [left; reflexivity|exact H1]|].
  split; [eapply contains_join; [left; reflexivity|exact H2]|].
  assert (Hin : forall p, In p (budget_sentences winner c) ->
                  In p ([opening_sentence winner] ++ part2 ++ budget_sentences winner c)).
  { intros p Hin. apply in_or_app. right. apply in_or_app. now right. }
  unfold budget_sentences in *. split.
  - intros Hb. destruct (budget c); try congruence;
      (eapply contains_join; [apply Hin; left; reflexivity|]);
      apply (StrFacts.contains_middle "This API supports your **").
  - split.
    + intros Hb Hs. rewrite Hb, Hs in *.
      eapply contains_join; [apply Hin; left; reflexivity|].
      apply (StrFacts.contains_middle "This API offers a **" "free tier"
               "** that meets your budget requirements.").
    + intros Hb Hs. rewrite Hb, Hs. now rewrite app_nil_r.
Qed.

(* ================================================================== *)
(** * The fallback path *)

(** ** C6: the fallback recommendations *)

Lemma py_int_finite x :
  PyFloat.is_finite x = true -> exists n, PyFloat.py_int x = Ok n.
Proof.
  unfold PyFloat.is_finite, PyFloat.py_int.
  destruct (PyFloat.view x); try discriminate; eauto.
Qed.

Lemma covers_any_ok a c :
  data_coverage a <> None -> covers_any a c = Ok (covers_requested a c).
Proof.
  intros H. unfold covers_any, covers_requested.
  destruct (data_coverage a); [|congruence]. now destruct (data_types c).
Qed.

Lemma fallback_scores_spec c : forall catalog,
  Forall fallback_ready catalog ->
  exists l,
    fallback_scores c catalog = Ok l /\
    map api l = filter (compatible c) catalog /\
    Forall (fun s => reliability_total s /\ placeholders 75%float s) l.
Proof.
  induction catalog as [|a catalog IH]; intros HF; simpl.
  - exists []. auto.
  - inversion HF as [|? ? [Hp [Hd [Hfin _]]] HF']; subst.
    destruct (IH HF') as [l [El [Hapi Hl]]]. rewrite El.
    unfold fallback_score, compatible, supports.
    destruct (pricing a) as [p|]; [|congruence].
    rewrite (covers_any_ok a c Hd). simpl.
    destruct (py_int_finite _ Hfin) as [n ->]. simpl.
    destruct (dict_get_default BudgetTier_beq p (budget c) false),
             (covers_requested a c); simpl;
      eexists; (split; [reflexivity|]); simpl; rewrite ?Hapi; split; auto.
    constructor; auto. unfold reliability_total, placeholders. simpl. auto.
Qed.

Lemma most_reliable_scores_spec : forall l rank,
  Forall fallback_ready l ->
  exists r,
    most_reliable_scores rank l = Ok r /\
    map api r = l /\
    Forall (fun s => reliability_total s /\ placeholders 50%float s) r /\
    (forall i s, nth_error r i = Some s ->
       recommendation_rank s = (rank + Z.of_nat i)%Z).
Proof.
  induction l as [|a l IH]; intros rank HF; simpl.
  - exists []. repeat split; auto. intros [|i] s H; discriminate.
  - inversion HF as [|? ? [_ [_ [Hfin _]]] HF']; subst.
    destruct (py_int_finite _ Hfin) as [n ->]. simpl.
    destruct (IH (rank + 1)%Z HF') as [r [Er [Hapi [Hr Hrank]]]]. rewrite Er. simpl.
    eexists. split; [reflexivity|]. simpl. rewrite Hapi.
    split; [reflexivity|]. split.
    + constructor; auto. unfold reliability_total, placeholders. simpl. auto.
    + intros [|i] s H; simpl in H.
      * injection H as <-. simpl. lia.
      * rewrite (Hrank _ _ H). lia.
Qed.

Lemma descending_map {A B} (f : A -> B) (key : B -> PyFloat.t) (l : list A) :
  descending (fun x => key (f x)) l <-> descending key (map f l).
Proof.
  unfold descending. induction l as [|x l IH]; simpl.
  - split; constructor.
  - split; intros H; inversion H as [|? ? Hs Hx]; subst; constructor.
    + now apply IH.
    + rewrite Forall_map. exact Hx.
    + now apply IH.
    + rewrite Forall_map in Hx. exact Hx.
Qed.

Lemma In_firstn_In {A} n : forall (l : list A) x,
  In x (firstn n l) -> In x l.
Proof.
  induction n as [|n IH]; intros [|y l] x H; simpl in *; try tauto.
  destruct H; auto.
Qed.

Lemma descending_firstn {A} (key : A -> PyFloat.t) n : forall l,
  descending key l -> descending key (firstn n l).
Proof.
  unfold descending. induction n as [|n IH]; intros l H; simpl; [constructor|].
  destruct l as [|x l]; [constructor|].
  inversion H as [|? ? Hs Hx]; subst. constructor; [now apply IH|].
  rewrite Forall_forall in *. intros y Hy. apply Hx.
  eapply In_firstn_In; eauto.
Qed.

Lemma enumerate_ranks_descending_by {R} (key : APIScore R -> PyFloat.t) :
  (forall s r, key (set_rank s r) = key s) ->
  forall l rank, descending key l -> descending key (enumerate_ranks rank l).
Proof.
  intros Hkey. induction l as [|x l IH]; intros r H; simpl; [constructor|].
  inversion H as [|? ? Hs Hx]; subst. constructor; [now apply IH|].
  rewrite Hkey. apply Forall_enumerate_ranks; auto.
  intros s r'. now rewrite Hkey.
Qed.

Lemma firstn_nonempty {A} (l : list A) : l <> [] -> firstn 3 l <> [].
Proof. destruct l; simpl; congruence. Qed.

(** What the fallback returns on any catalog of records it can process. *)
Lemma fallback_recommendations_spec catalog c :
  Forall fallback_ready catalog ->
  let r := fallback_recommendations_from catalog c in
  descending by_reliability r /\
  Forall reliability_total r /\
  (forall i s, nth_error r i = Some s -> recommendation_rank s = Z.of_nat (S i)) /\
  (filter (compatible c) catalog <> [] ->
     Permutation (map api r) (filter (compatible c) catalog) /\
     Forall (placeholders 75%float) r) /\
  (filter (compatible c) catalog = [] ->
     map api r = firstn 3 (sort_reverse reliability_score catalog) /\
     Forall (placeholders 50%float) r) /\
  (catalog <> [] -> r <> []).
Proof.
  intros Hready. cbv zeta. unfold fallback_recommendations_from, fallback_try.
  destruct (fallback_scores_spec c catalog Hready) as [l [-> [Hapi Hl]]].
  cbn [rbind].
  set (sorted := sort_reverse (fun x => reliability_score (api x)) l).
  assert (Hperm : Permutation l sorted) by apply sort_reverse_perm.
  assert (Hnan : no_nan by_reliability l).
  { unfold no_nan, by_reliability. rewrite Forall_forall in *. intros s Hs.
    assert (Ha : In (api s) (filter (compatible c) catalog)).
    { rewrite <- Hapi. now apply in_map. }
    apply filter_In in Ha. destruct Ha as [Ha _]. apply (Hready _ Ha). }
  assert (Hcase : l = [] \/ l <> []) by (destruct l; [left|right]; congruence).
  destruct Hcase as [El|Hne]; [subst l|].
  - (* no compatible record *)
    simpl in Hapi. subst sorted.
    change (sort_reverse (fun x : APIScore APIInfo => reliability_score (api x)) [])
      with (@nil (APIScore APIInfo)) in *.
    cbn [enumerate_ranks].
    set (top := firstn 3 (sort_reverse reliability_score catalog)).
    assert (Htop : Forall fallback_ready top).
    { unfold top. rewrite Forall_forall in *. intros a Ha. apply Hready.
      apply In_firstn_In in Ha.
      eapply Permutation_in; [apply Permutation_sym, sort_reverse_perm|exact Ha]. }
    destruct (most_reliable_scores_spec top 1 Htop) as [r [-> [Hr_api [Hr Hrank]]]].
    split; [|split; [|split; [|split; [|split]]]].
    + apply (descending_map api reliability_score). rewrite Hr_api.
      apply descending_firstn, sort_reverse_descending.
      unfold no_nan. rewrite Forall_forall in *. intros a Ha. apply (Hready a Ha).
    + eapply Forall_impl; [|exact Hr]. intros s [? ?]; assumption.
    + intros i s H. rewrite (Hrank _ _ H). lia.
    + intros H. congruence.
    + intros _. split; [exact Hr_api|]. eapply Forall_impl; [|exact Hr]. intros s [? ?]; assumption.
    + intros Hne Hr0. rewrite Hr0 in Hr_api. simpl in Hr_api. symmetry in Hr_api.
      revert Hr_api. apply firstn_nonempty.
      intros E. apply (f_equal (@List.length _)) in E.
      rewrite sort_reverse_length in E. destruct catalog; [congruence|discriminate].
  - assert (Hlen : List.length (enumerate_ranks 1 sorted) = List.length l).
    { rewrite enumerate_ranks_length. unfold sorted. now rewrite sort_reverse_length. }
    destruct (enumerate_ranks 1 sorted) as [|s1 rest] eqn:Eranked.
    { destruct l; [congruence|discriminate]. }
    rewrite <- Eranked. clear Hlen.
    assert (Hl' : Forall (fun s => reliability_total s /\ placeholders 75%float s)
                    (enumerate_ranks 1 sorted)).
    { apply Forall_enumerate_ranks; [intros s r H; exact H|].
      eapply Permutation_Forall; eauto. }
    split; [|split; [|split; [|split; [|split]]]].
    + apply (enumerate_ranks_descending_by by_reliability); [reflexivity|].
      apply (sort_reverse_descending by_reliability). exact Hnan.
    + eapply Forall_impl; [|exact Hl']. intros s [? ?]; assumption.
    + intros i s H. rewrite (enumerate_ranks_nth _ _ _ _ H). lia.
    + intros _. split; [|eapply Forall_impl; [|exact Hl']; intros s [? ?]; assumption].
      rewrite enumerate_ranks_api, <- Hapi.
      apply Permutation_map, Permutation_sym, Hperm.
    + intros Hnone. rewrite Hnone in Hapi. destruct l; [congruence|discriminate].
    + intros _. rewrite Eranked. discriminate.
Qed.

Lemma get_all_apis_ready : Forall fallback_ready get_all_apis.
Proof.
  unfold get_all_apis, fallback_ready.
  repeat (constructor; [repeat split; (discriminate || reflexivity)|]).
  constructor.
Qed.

Lemma most_reliable_three :
  map name (firstn 3 (sort_reverse reliability_score get_all_apis))
  = ["Quandl"; "Polygon.io"; "Finnhub"].
Proof. reflexivity. Qed.

(** The scores of the first loop carry the category scores of a record
    that passed the filter, and the reliability as a percentage. *)
Lemma fallback_scores_categories c : forall catalog l,
  fallback_scores c catalog = Ok l ->
  Forall (fun s => category_scores s = filtered_categories /\
                   reliability_percentage s) l.
Proof.
  induction catalog as [|a catalog IH]; intros l H; simpl in H.
  - injection H as <-. constructor.
  - destruct (fallback_score c a) as [o|] eqn:Ea; [|discriminate]. cbn [rbind] in H.
    destruct (fallback_scores c catalog) as [l'|]; [|discriminate]. cbn [rbind] in H.
    injection H as <-. specialize (IH l' eq_refl).
    destruct o as [s|]; [|exact IH]. constructor; [|exact IH].
    revert Ea. unfold fallback_score. destruct (pricing a) as [p|]; [|discriminate].
    destruct (covers_any a c) as [d|]; [|discriminate]. cbn [rbind].
    destruct (dict_get_default BudgetTier_beq p (budget c) false), d;
      cbn [negb orb]; try discriminate.
    destruct (PyFloat.py_int (reliability_score a * 100)%float) as [n|] eqn:En;
      [|discriminate].
    cbn [rbind]. intros [= <-]. split; [reflexivity|exact En].
Qed.

(** The scores of the second loop carry the neutral category scores, and
    the reliability as a percentage. *)
Lemma most_reliable_scores_categories : forall l rank r,
  most_reliable_scores rank l = Ok r ->
  Forall (fun s => category_scores s = neutral_categories /\
                   reliability_percentage s) r.
Proof.
  induction l as [|a l IH]; intros rank r H; simpl in H.
  - injection H as <-. constructor.
  - destruct (PyFloat.py_int (reliability_score a * 100)%float) as [n|] eqn:En;
      [|discriminate].
    cbn [rbind] in H.
    destruct (most_reliable_scores (rank + 1) l) as [r'|] eqn:E; [|discriminate].
    cbn [rbind] in H. injection H as <-.
    constructor; [split; [reflexivity|exact En]|]. exact (IH _ _ E).
Qed.

(** The category scores and the compatibility of what the fallback returns
    on any catalog of records it can process. *)
Lemma fallback_recommendations_categories catalog c :
  Forall fallback_ready catalog ->
  let r := fallback_recommendations_from catalog c in
  Forall reliability_percentage r /\
  (filter (compatible c) catalog <> [] ->
     Forall (fun s => category_scores s = filtered_categories) r /\
     map api r = sort_reverse reliability_score (filter (compatible c) catalog)) /\
  (filter (compatible c) catalog = [] ->
     Forall (fun s => category_scores s = neutral_categories) r).
Proof.
  intros Hready. cbv zeta. unfold fallback_recommendations_from, fallback_try.
  destruct (fallback_scores_spec c catalog Hready) as [l [El [Hapi _]]].
  pose proof (fallback_scores_categories c catalog l El) as Hl.
  rewrite El. cbn [rbind].
  set (sorted := sort_reverse (fun x => reliability_score (api x)) l).
  assert (Hperm : Permutation l sorted) by apply sort_reverse_perm.
  assert (Hsorted : map api sorted
                    = sort_reverse reliability_score (filter (compatible c) catalog)).
  { unfold sorted. rewrite <- Hapi. symmetry. now apply sort_reverse_map. }
  destruct l as [|s0 l0].
  - (* no compatible record *)
    simpl in Hapi. subst sorted.
    change (sort_reverse (fun x : APIScore APIInfo => reliability_score (api x)) [])
      with (@nil (APIScore APIInfo)) in *.
    cbn [enumerate_ranks].
    set (top := firstn 3 (sort_reverse reliability_score catalog)).
    assert (Htop : Forall fallback_ready top).
    { unfold top. rewrite Forall_forall in *. intros a Ha. apply Hready.
      apply In_firstn_In in Ha.
      eapply Permutation_in; [apply Permutation_sym, sort_reverse_perm|exact Ha]. }
    destruct (most_reliable_scores_spec top 1 Htop) as [r [Er _]].
    pose proof (most_reliable_scores_categories top 1 r Er) as Hr.
    rewrite Er. split; [|split].
    + eapply Forall_impl; [|exact Hr]. intros s [? ?]; assumption.
    + intros H. congruence.
    + intros _. eapply Forall_impl; [|exact Hr]. intros s [? ?]; assumption.
  - assert (Hlen : List.length (enumerate_ranks 1 sorted) = List.length (s0 :: l0)).
    { rewrite enumerate_ranks_length. unfold sorted. now rewrite sort_reverse_length. }
    destruct (enumerate_ranks 1 sorted) as [|s1 rest] eqn:Eranked; [discriminate|].
    rewrite <- Eranked. clear Hlen.
    assert (Hl' : Forall (fun s => category_scores s = filtered_categories /\
                                   reliability_percentage s)
                    (enumerate_ranks 1 sorted)).
    { apply Forall_enumerate_ranks; [intros s r H; exact H|].
      eapply Permutation_Forall; eauto. }
    split; [|split].
    + eapply Forall_impl; [|exact Hl']. intros s [? ?]; assumption.
    + intros _. split.
      * eapply Forall_impl; [|exact Hl']. intros s [? ?]; assumption.
      * rewrite enumerate_ranks_api. exact Hsorted.
    + intros Hnone. rewrite Hnone in Hapi. discriminate.
Qed.

(** C6.  The fallback list is sorted by decreasing reliability and ranked
    from 1; every total is the reliability times 100, and every
    compatibility its integer part.  When some catalog record supports the
    requested budget and covers a requested data type, the list holds
    exactly those records, in the order the stable sort by decreasing
    reliability gives them, each with the category scores 100 for budget
    and data types and the placeholder 75 for frequency and use case; when
    none does, it holds the three most reliable records of the catalog
    (Quandl, Polygon.io, Finnhub), each with the neutral placeholder 50 in
    all four categories.  It is never empty. *)
Theorem get_fallback_recommendations_spec (c : UserConstraints) :
  let r := get_fallback_recommendations c in
  descending by_reliability r /\
  Forall reliability_total r /\
  Forall reliability_percentage r /\
  (forall i s, nth_error r i = Some s -> recommendation_rank s = Z.of_nat (S i)) /\
  (filter (compatible c) get_all_apis <> [] ->
     Permutation (map api r) (filter (compatible c) get_all_apis) /\
     map api r = sort_reverse reliability_score (filter (compatible c) get_all_apis) /\
     Forall (fun s => supports (api s) (budget c) = true /\
                      covers_requested (api s) c = true) r /\
     Forall (placeholders 75%float) r /\
     Forall (fun s => category_scores s = filtered_categories) r) /\
  (filter (compatible c) get_all_apis = [] ->
     map api r = firstn 3 (sort_reverse reliability_score get_all_apis) /\
     map (fun s => name (api s)) r = ["Quandl"; "Polygon.io"; "Finnhub"] /\
     Forall (placeholders 50%float) r /\
     Forall (fun s => category_scores s = neutral_categories) r) /\
  r <> [].
Proof.
  destruct (fallback_recommendations_spec get_all_apis c get_all_apis_ready)
    as [H1 [H2 [H3 [H4 [H5 H6]]]]].
  destruct (fallback_recommendations_categories get_all_apis c get_all_apis_ready)
    as [K1 [K2 K3]].
  cbv zeta. unfold get_fallback_recommendations.
  split; [exact H1|]. split; [exact H2|]. split; [exact K1|]. split; [exact H3|].
  split; [|split].
  - intros Hne. destruct (H4 Hne) as [HP HF]. destruct (K2 Hne) as [HC HS].
    split; [exact HP|]. split; [exact HS|]. split; [|split; [exact HF|exact HC]].
    rewrite Forall_forall. intros s Hs.
    assert (Hin : In (api s) (filter (compatible c) get_all_apis)).
    { eapply Permutation_in; [exact HP|]. now apply in_map. }
    apply filter_In in Hin. destruct Hin as [_ Hc].
    unfold compatible in Hc. now apply andb_prop in Hc.
  - intros Hnone. destruct (H5 Hnone) as [Hapi HF]. split; [exact Hapi|].
    split; [|split; [exact HF|exact (K3 Hnone)]].
    rewrite <- (map_map api name), Hapi. apply most_reliable_three.
  - apply H6. discriminate.
Qed.

(** Both branches on the built-in catalog.  For Free and Stocks six
    records pass the filter; with no data type requested none does, and the
    three most reliable records are returned. *)
Lemma get_fallback_recommendations_examples :
  map (fun s => (name (api s), compatibility_percentage s, recommendation_rank s))
    (get_fallback_recommendations example_constraints)
  = [("Polygon.io", 92, 1); ("Finnhub", 88, 2); ("Alpha Vantage", 85, 3);
     ("EODHD", 82, 4); ("Marketstack", 78, 5); ("Yahoo Finance", 60, 6)]%Z /\
  map (fun s => (name (api s), compatibility_percentage s, recommendation_rank s))
    (get_fallback_recommendations
       {| budget := FREE; data_types := []; frequency := EOD; use_case := RESEARCH |})
  = [("Quandl", 95, 1); ("Polygon.io", 92, 2); ("Finnhub", 88, 3)]%Z.
Proof. split; vm_compute; reflexivity. Qed.

(* ================================================================== *)
(** * The provider that alone supports the Free tier *)

Lemma SFltb_asym x y : SFltb x y = true -> SFltb y x = false.
Proof. FloatOrder.sf_order. Qed.

Lemma ltb_asym (x y : PyFloat.t) : (x <? y)%float = true -> (y <? x)%float = false.
Proof. rewrite !ltb_spec. apply SFltb_asym. Qed.

Section SortHead.
Context {A : Type} (key : A -> PyFloat.t).

Lemma insert_reverse_above x l :
  Forall (fun y => (key y <? key x)%float = true) l ->
  insert_reverse key x l = x :: l.
Proof.
  intros H. destruct l as [|y l]; simpl; auto.
  inversion H; subst. now rewrite ltb_asym.
Qed.

Lemma insert_reverse_below x z l :
  (key x <? key z)%float = true ->
  insert_reverse key x (z :: l) = z :: insert_reverse key x l.
Proof. intros H. simpl. now rewrite H. Qed.

(** An element whose key is above every other key comes first. *)
Lemma sort_reverse_head x : forall pre post,
  Forall (fun y => (key y <? key x)%float = true) (pre ++ post) ->
  exists rest, sort_reverse key (pre ++ x :: post) = x :: rest.
Proof.
  induction pre as [|p pre IH]; intros post H; simpl.
  - rewrite insert_reverse_above; eauto.
    eapply Permutation_Forall; [apply sort_reverse_perm|exact H].
  - simpl in H. inversion H as [|? ? Hp H']; subst.
    destruct (IH post H') as [rest ->].
    rewrite insert_reverse_below by exact Hp. eauto.
Qed.
End SortHead.

Lemma scored_by_app {R} c : forall (l1 l2 : list (R * APIInfo)),
  scored_by c (l1 ++ l2) = scored_by c l1 ++ scored_by c l2.
Proof.
  induction l1 as [|[r a] l1 IH]; intros l2; simpl; auto.
  destruct (score_of c r a); simpl; now rewrite IH.
Qed.

Lemma scored_app c l1 l2 : scored c (l1 ++ l2) = scored c l1 ++ scored c l2.
Proof. unfold scored. now rewrite map_app, scored_by_app. Qed.

(** Under these constraints a record that does not support Free totals
    less than 75, whatever else it offers. *)
Lemma total_without_free a scores total p :
  supports a FREE = false ->
  score_entry a free_stocks_eod_research = Ok (scores, total, p) ->
  (total <? 75)%float = true.
Proof.
  unfold supports, score_entry, calculate_category_scores,
    score_budget_compatibility, score_data_type_coverage,
    score_frequency_availability, score_use_case_suitability.
  simpl budget. simpl data_types. simpl frequency. simpl use_case.
  destruct (pricing a) as [pr|]; [|discriminate]. intros ->.
  destruct (data_coverage a) as [cov|]; [|discriminate].
  destruct (frequency_support a) as [fs|]; [|discriminate].
  cbn [filter List.length].
  destruct (py_in_list DataType_beq STOCKS cov);
    destruct (py_in_list FrequencyTier_beq EOD fs);
    vm_compute; intros H;
    apply (f_equal (fun r => match r with Ok (_, t, _) => t | Raise _ => 0%float end)) in H;
    rewrite <- H; reflexivity.
Qed.

(** A record that supports Free and covers Stocks scores without error,
    with a budget score of 100 and a total of at least 75. *)
Lemma total_with_free_and_stocks a :
  supports a FREE = true ->
  covers_requested a free_stocks_eod_research = true ->
  frequency_support a <> None ->
  exists scores total p,
    score_entry a free_stocks_eod_research = Ok (scores, total, p) /\
    dict_get String.eqb scores "budget" = Some 100%float /\
    (total <? 75)%float = false /\
    PyFloat.is_nan total = false.
Proof.
  unfold supports, covers_requested, score_entry, calculate_category_scores,
    score_budget_compatibility, score_data_type_coverage,
    score_frequency_availability, score_use_case_suitability.
  simpl budget. simpl data_types. simpl frequency. simpl use_case.
  destruct (pricing a) as [pr|]; [|discriminate]. intros ->.
  destruct (data_coverage a) as [cov|]; [|discriminate].
  destruct (frequency_support a) as [fs|]; [|congruence].
  cbn [filter List.length existsb]. rewrite orb_false_r. intros -> _.
  destruct (py_in_list FrequencyTier_beq EOD fs);
    (eexists _, _, _; split; [vm_compute; reflexivity|]);
    repeat split; reflexivity.
Qed.

Lemma SFltb_leb_trans x k y :
  SFltb x k = true -> SFleb k y = true -> SFltb x y = true.
Proof. FloatOrder.sf_order. Qed.

Lemma ltb_leb_trans (x k y : PyFloat.t) :
  (x <? k)%float = true -> (k <=? y)%float = true -> (x <? y)%float = true.
Proof. rewrite !ltb_spec, leb_spec. apply SFltb_leb_trans. Qed.

Lemma ltb_trans_75 (x y : PyFloat.t) :
  (x <? 75)%float = true -> (y <? 75)%float = false -> PyFloat.is_nan y = false ->
  (x <? y)%float = true.
Proof.
  intros Hx Hy Hn. apply (ltb_leb_trans x 75%float y Hx).
  apply FloatOrder.ltb_false_leb; auto.
Qed.

(** C8 (as amended: Alpha must also cover Stocks).  When exactly one record
    of the catalog, named "Alpha", supports the Free tier and Alpha covers
    Stocks, scoring Free / Stocks / End-of-day / Research ranks Alpha first,
    whatever its frequency support is, with a budget score of 100. *)
Theorem alpha_ranks_first apis pre alpha post w :
  catalog_of (heap w) apis (pre ++ alpha :: post) ->
  name alpha = "Alpha" ->
  supports alpha FREE = true ->
  Forall (fun a => supports a FREE = false) (pre ++ post) ->
  covers_requested alpha free_stocks_eod_research = true ->
  frequency_support alpha <> None ->
  exists first rest,
    returns (score_apis free_stocks_eod_research apis w) (first :: rest) /\
    api first = alpha /\
    name (api first) = "Alpha" /\
    recommendation_rank first = 1%Z /\
    dict_get String.eqb (category_scores first) "budget" = Some 100%float.
Proof.
  intros Hcat Hname Hfree Hothers Hstocks Hfreq.
  set (c := free_stocks_eod_research).
  destruct (total_with_free_and_stocks alpha Hfree Hstocks Hfreq)
    as [scores [total [p [Hs [Hb [H75 Hnan]]]]]].
  pose (s_alpha := {| api := alpha; total_score := total; category_scores := scores;
                      compatibility_percentage := p; recommendation_rank := 0%Z |}).
  assert (Hscored : scored c (pre ++ alpha :: post)
                    = scored c pre ++ s_alpha :: scored c post).
  { rewrite scored_app. f_equal. unfold scored at 1. simpl.
    unfold score_of. fold c in Hs. rewrite Hs. reflexivity. }
  assert (Hbelow : Forall (fun y => (total_score y <? total_score s_alpha)%float = true)
                     (scored c pre ++ scored c post)).
  { rewrite <- scored_app. rewrite Forall_forall. intros y Hy.
    assert (Hin : In (api y) (pre ++ post)).
    { assert (H : In (api y) (map api (scored c (pre ++ post)))) by now apply in_map.
      rewrite scored_api in H. apply filter_In in H. tauto. }
    pose proof (scored_entries c (pre ++ post)) as HE.
    rewrite Forall_forall in HE, Hothers. specialize (HE y Hy).
    simpl. eapply ltb_trans_75; eauto.
    eapply total_without_free; [apply Hothers, Hin|exact HE]. }
  destruct (sort_reverse_head total_score s_alpha _ _ Hbelow) as [rest Hsort].
  generalize (score_apis_returns c apis _ w Hcat).
  unfold ranked. rewrite Hscored, Hsort. simpl enumerate_ranks.
  assert (Hok : In alpha (filter (scores_ok c) (pre ++ alpha :: post))).
  { apply filter_In. split; [apply in_or_app; right; now left|].
    unfold scores_ok. fold c in Hs. now rewrite Hs. }
  destruct (filter (scores_ok c) (pre ++ alpha :: post)); [destruct Hok|].
  intros Hret. eexists _, _. split; [exact Hret|]. simpl. auto.
Qed.

(* ================================================================== *)
(** * Examples, witnesses and counterexamples *)

Lemma get_all_apis_valid : Forall valid_record get_all_apis.
Proof.
  unfold get_all_apis, valid_record, well_formed.
  repeat (constructor; [repeat split; (discriminate || reflexivity)|]).
  constructor.
Qed.



(** On that ranking the winner is Polygon.io, whose terms conflict with a
    trading bot, and the verdict proposes the runner-up. *)
Lemma example_alternative :
  let v := generate_verdict example_set_iter
             (ranked example_trading_bot get_all_apis) example_trading_bot in
  alternative_api v = "EODHD" /\
  alternative_reason v =
    "Consider **EODHD** as an alternative due to Polygon.io's TOS restrictions that may conflict with your use case. EODHD has a 75% compatibility score and 82% reliability.".
Proof. vm_compute. split; reflexivity. Qed.

Lemma generate_verdict_text_mentions_witness :
  let winner := example_score (example_record "Alpha" true [STOCKS] [EOD]) in
  let c := free_stocks_eod_research in
  let text := recommendation_text (generate_verdict example_set_iter [winner] c) in
  PyStr.contains (name (api winner)) text = true /\
  PyStr.contains (PyStr.str_int (compatibility_percentage winner)) text = true /\
  (budget c <> FREE -> PyStr.contains (BudgetTier_value (budget c)) text = true) /\
  (budget c = FREE -> supports (api winner) FREE = true ->
   PyStr.contains "free tier" text = true) /\
  (budget c = FREE -> supports (api winner) FREE = false ->
   text = PyStr.join " " (opening_sentence winner :: key_advantage winner)).
Proof.
  apply (generate_verdict_text_mentions example_set_iter
           (example_score (example_record "Alpha" true [STOCKS] [EOD])) []
           free_stocks_eod_research).
  repeat split; discriminate.
Defined.

(** C4, the claim as stated, fails for the Free tier.  On the ranking of
    the catalog of Alpha and Beta the winner, Beta, does not support the
    Free tier, and the text has no budget clause: the tier's name, "Free",
    does not occur in it, in no letter case.  On the ranking of the built-in
    catalog the winner supports the Free tier, and the text has the words
    "free tier" but not the tier's name. *)
Lemma free_tier_name_not_in_text :
  let c := free_stocks_eod_research in
  let top_apis :=
    ranked c [example_record "Alpha" true [] [];
              example_record "Beta" false [STOCKS] [EOD]] in
  let text := recommendation_text (generate_verdict example_set_iter top_apis c) in
  let text' :=
    recommendation_text (generate_verdict example_set_iter (ranked c get_all_apis) c) in
  BudgetTier_value (budget c) = "Free" /\
  map (fun s => name (api s)) top_apis = ["Beta"; "Alpha"] /\
  text = "**Beta** is your best match with a **70% compatibility score**. Key advantage: Wide coverage" /\
  PyStr.contains (BudgetTier_value (budget c)) text = false /\
  PyStr.contains (PyStr.lower (BudgetTier_value (budget c))) (PyStr.lower text) = false /\
  text' = "**Alpha Vantage** is your best match with a **100% compatibility score**. Key advantage: Generous free tier with 500 requests/day This API offers a **free tier** that meets your budget requirements." /\
  PyStr.contains (BudgetTier_value (budget c)) text' = false.
Proof.
  cbv zeta. repeat split; vm_compute; reflexivity.
Qed.

Lemma alpha_ranks_first_witness :
  exists first rest,
    returns (score_apis free_stocks_eod_research (Some [0; 1; 2])
               (example_world example_catalog)) (first :: rest) /\
    api first = example_record "Alpha" true [STOCKS] [] /\
    name (api first) = "Alpha" /\
    recommendation_rank first = 1%Z /\
    dict_get String.eqb (category_scores first) "budget" = Some 100%float.
Proof.
  apply (alpha_ranks_first (Some [0; 1; 2])
           [example_record "Beta" false [STOCKS] [EOD]; malformed_record]
           (example_record "Alpha" true [STOCKS] []) []
           (example_world example_catalog)).
  - apply (example_catalog_of example_catalog).
  - reflexivity.
  - reflexivity.
  - repeat constructor.
  - reflexivity.
  - discriminate.
Defined.

(** C8, the claim as stated, fails: Alpha alone supports the Free tier but
    covers neither Stocks nor End-of-day, and totals 45; Beta does not
    support Free but covers both, totals 70 and is ranked first. *)
Lemma alpha_outranked :
  let alpha := example_record "Alpha" true [] [] in
  let beta := example_record "Beta" false [STOCKS] [EOD] in
  supports alpha FREE = true /\
  supports beta FREE = false /\
  exists first second,
    returns (score_apis free_stocks_eod_research (Some [0; 1])
               (example_world [alpha; beta])) [first; second] /\
    api first = beta /\ recommendation_rank first = 1%Z /\
    total_score first = 70%float /\
    api second = alpha /\ recommendation_rank second = 2%Z /\
    total_score second = 45%float /\
    dict_get String.eqb (category_scores second) "budget" = Some 100%float.
Proof.
  cbv zeta. split; [reflexivity|]. split; [reflexivity|].
  eexists _, _. split.
  - eexists. split; vm_compute; reflexivity.
  - vm_compute. repeat split; reflexivity.
Qed.

(** An entry that is no [APIInfo] has no [name] for the handler to log: the
    call raises although another entry scores. *)
Lemma score_apis_entry_without_name :
  let w := {| heap := [ObjInfo (example_record "Alpha" true [STOCKS] [EOD]);
                       ObjScore {| api := 0; total_score := 0%float;
                                   category_scores := [];
                                   compatibility_percentage := 0;
                                   recommendation_rank := 0 |}];
              clock := fun _ => 0%float; ticks := 0; log := [] |} in
  fst (score_apis free_stocks_eod_research (Some [0; 1]) w) = Raise AttributeError.
Proof. reflexivity. Qed.

(** Outside the data model the alternative can be half filled: with a
    runner-up whose reliability is a NaN, building the sentence raises after
    [alternative_api] has been assigned. *)
Lemma alternative_half_filled_outside_data_model :
  let winner :=
    example_score
      {| name := "Gamma"; pricing := Some [(FREE, true)];
         data_coverage := Some [STOCKS]; frequency_support := Some [EOD];
         rate_limits := []; strengths := []; limitations := [];
         tos_restrictions := Some []; reliability_score := 0.5%float;
         last_updated := (2025, 1, 10)%Z |} in
  let runner_up :=
    example_score
      {| name := "Delta"; pricing := Some [(FREE, true)];
         data_coverage := Some [STOCKS]; frequency_support := Some [EOD];
         rate_limits := []; strengths := []; limitations := [];
         tos_restrictions := Some []; reliability_score := nan;
         last_updated := (2025, 1, 10)%Z |} in
  let v := generate_verdict example_set_iter [winner; runner_up]
             free_stocks_eod_research in
  alternative_api v = "Delta" /\ alternative_reason v = "".
Proof. vm_compute. split; reflexivity. Qed.

(* ================================================================== *)
(** * Input validation *)

Lemma enum_of_value_BudgetTier b :
  enum_of_value BudgetTier_members BudgetTier_value "BudgetTier" (BudgetTier_value b) = Ok b.
Proof. destruct b; reflexivity. Qed.

Lemma enum_of_value_DataType d :
  enum_of_value DataType_members DataType_value "DataType" (DataType_value d) = Ok d.
Proof. destruct d; reflexivity. Qed.

Lemma enum_of_value_FrequencyTier f :
  enum_of_value FrequencyTier_members FrequencyTier_value "FrequencyTier"
    (FrequencyTier_value f) = Ok f.
Proof. destruct f; reflexivity. Qed.

Lemma enum_of_value_UseCase u :
  enum_of_value UseCase_members UseCase_value "UseCase" (UseCase_value u) = Ok u.
Proof. destruct u; reflexivity. Qed.

(** A value the membership test accepts is the value of the member the
    conversion finds. *)
Lemma enum_of_value_accepted {E} (members : list E) (value_of : E -> string) nm v :
  py_in_list String.eqb v (map value_of members) = true ->
  exists m, enum_of_value members value_of nm v = Ok m /\ value_of m = v.
Proof.
  unfold py_in_list, enum_of_value. rewrite existsb_exists.
  intros [y [Hin Hy]]. apply in_map_iff in Hin. destruct Hin as [m [<- Hm]].
  destruct (find (fun m0 => value_of m0 =? v) members) as [m'|] eqn:E'.
  - exists m'. split; auto. apply find_some in E'. now apply String.eqb_eq.
  - exfalso. eapply find_none in E'; eauto. congruence.
Qed.

Lemma enum_of_value_value {E} (members : list E) (value_of : E -> string) nm v m :
  enum_of_value members value_of nm v = Ok m -> value_of m = v.
Proof.
  unfold enum_of_value.
  destruct (find (fun m0 => value_of m0 =? v) members) as [m'|] eqn:E'; [|discriminate].
  intros [= <-]. apply find_some in E'. now apply String.eqb_eq.
Qed.

Lemma enum_value_in {E} (members : list E) (value_of : E -> string) m :
  In m members -> py_in_list String.eqb (value_of m) (map value_of members) = true.
Proof.
  intros H. unfold py_in_list. apply existsb_exists. exists (value_of m).
  split; [now apply in_map|apply String.eqb_refl].
Qed.

Lemma map_result_values dts :
  map_result (enum_of_value DataType_members DataType_value "DataType")
    (map DataType_value dts) = Ok dts.
Proof.
  induction dts as [|d dts IH]; simpl; auto.
  rewrite enum_of_value_DataType. simpl. now rewrite IH.
Qed.

Lemma map_result_accepted : forall dsel,
  find (fun dt => negb (py_in_list String.eqb dt (map DataType_value DataType_members)))
    dsel = None ->
  exists dts,
    map_result (enum_of_value DataType_members DataType_value "DataType") dsel = Ok dts
    /\ map DataType_value dts = dsel.
Proof.
  induction dsel as [|x l IH]; intros H.
  - exists []. auto.
  - cbn [find] in H.
    destruct (py_in_list String.eqb x (map DataType_value DataType_members)) eqn:Ex;
      [|discriminate].
    cbn [negb] in H.
    destruct (IH H) as [dts [E1 E2]].
    destruct (enum_of_value_accepted _ _ "DataType" x Ex) as [d [Ed Hd]].
    exists (d :: dts). cbn [map_result]. rewrite Ed. cbn [rbind]. rewrite E1. cbn [rbind].
    split; [reflexivity|]. simpl. congruence.
Qed.

Lemma find_invalid_values dts :
  find (fun dt => negb (py_in_list String.eqb dt (map DataType_value DataType_members)))
    (map DataType_value dts) = None.
Proof.
  induction dts as [|d dts IH]; auto.
  cbn [map find]. rewrite enum_value_in by (destruct d; simpl; auto 6). exact IH.
Qed.

(** The selections [validate_constraints] accepts, and what
    [normalize_constraints] makes of them. *)
Lemma validate_accepts bsel dsel fsel usel :
  validate_constraints bsel dsel fsel usel = (true, None) ->
  exists c,
    normalize_constraints bsel dsel fsel usel = Ok c /\
    form_values c = (bsel, dsel, fsel, usel) /\
    dsel <> [].
Proof.
  unfold validate_constraints, normalize_constraints, form_values.
  destruct (py_in_list String.eqb bsel _) eqn:Eb; [|discriminate]. cbn [negb].
  destruct dsel as [|x l]; [discriminate|].
  cbn [validate_data_types negb].
  destruct (find _ (x :: l)) as [bad|] eqn:Ed; [discriminate|].
  destruct (py_in_list String.eqb fsel _) eqn:Ef; [|discriminate]. cbn [negb].
  destruct (py_in_list String.eqb usel _) eqn:Eu; [|discriminate]. cbn [negb].
  intros _.
  destruct (enum_of_value_accepted _ _ "BudgetTier" _ Eb) as [b [-> Hb]].
  destruct (map_result_accepted _ Ed) as [dts [-> Hd]].
  destruct (enum_of_value_accepted _ _ "FrequencyTier" _ Ef) as [f [-> Hf]].
  destruct (enum_of_value_accepted _ _ "UseCase" _ Eu) as [u [-> Hu]].
  eexists. split; [reflexivity|]. simpl. split; [congruence|discriminate].
Qed.

Lemma validate_values c :
  data_types c <> [] ->
  validate_constraints (BudgetTier_value (budget c)) (map DataType_value (data_types c))
    (FrequencyTier_value (frequency c)) (UseCase_value (use_case c)) = (true, None).
Proof.
  intros Hne. unfold validate_constraints.
  rewrite enum_value_in by (destruct (budget c); simpl; auto 6). cbn [negb].
  destruct (data_types c) as [|d dts] eqn:E; [congruence|].
  rewrite <- E. assert (Hv : validate_data_types (map DataType_value (data_types c)) = (true, None))
    by now rewrite E.
  rewrite Hv. cbn [negb]. rewrite find_invalid_values.
  rewrite enum_value_in by (destruct (frequency c); simpl; auto 6). cbn [negb].
  rewrite enum_value_in by (destruct (use_case c); simpl; auto 6). reflexivity.
Qed.

Lemma normalize_values c :
  normalize_constraints (BudgetTier_value (budget c)) (map DataType_value (data_types c))
    (FrequencyTier_value (frequency c)) (UseCase_value (use_case c)) = Ok c.
Proof.
  unfold normalize_constraints.
  rewrite enum_of_value_BudgetTier, map_result_values, enum_of_value_FrequencyTier,
    enum_of_value_UseCase.
  simpl. now destruct c.
Qed.

(** X1.  [validate_constraints] accepts a selection exactly when it is the
    form values of a constraints value with at least one data type: every
    field is the value of a member of its enum, and some data type is
    selected. *)
Theorem validate_constraints_accepts_iff bsel dsel fsel usel :
  validate_constraints bsel dsel fsel usel = (true, None)
  <-> exists c, data_types c <> [] /\
                form_values c = (bsel, dsel, fsel, usel).
Proof.
  split.
  - intros H. destruct (validate_accepts _ _ _ _ H) as [c [_ [Hc Hne]]].
    exists c. split; [|exact Hc].
    unfold form_values in Hc. injection Hc as _ Hd _ _.
    intros E. rewrite E in Hd. simpl in Hd. congruence.
  - intros [c [Hne Hc]]. unfold form_values in Hc. injection Hc as <- <- <- <-.
    now apply validate_values.
Qed.

(** X2.  Decoding is a round trip on both sides: the form values of any
    constraints value normalize back to it, and whatever
    [normalize_constraints] returns has the submitted strings as its form
    values. *)
Theorem normalize_constraints_round_trip :
  (forall c,
     normalize_constraints (BudgetTier_value (budget c))
       (map DataType_value (data_types c)) (FrequencyTier_value (frequency c))
       (UseCase_value (use_case c)) = Ok c) /\
  (forall bsel dsel fsel usel c,
     normalize_constraints bsel dsel fsel usel = Ok c ->
     form_values c = (bsel, dsel, fsel, usel)).
Proof.
  split.
  - apply normalize_values.
  - intros bsel dsel fsel usel c. unfold normalize_constraints.
    destruct (enum_of_value BudgetTier_members _ _ bsel) as [b|] eqn:Eb; [|discriminate].
    cbn [rbind].
    destruct (map_result _ dsel) as [dts|] eqn:Ed; [|discriminate]. cbn [rbind].
    destruct (enum_of_value FrequencyTier_members _ _ fsel) as [f|] eqn:Ef;
      [|discriminate].
    cbn [rbind].
    destruct (enum_of_value UseCase_members _ _ usel) as [u|] eqn:Eu; [|discriminate].
    cbn [rbind]. intros [= <-]. unfold form_values. simpl.
    apply enum_of_value_value in Eb, Ef, Eu. rewrite Eb, Ef, Eu.
    do 3 f_equal.
    clear -Ed. revert dts Ed. induction dsel as [|x l IH]; intros dts Ed.
    + injection Ed as <-. reflexivity.
    + cbn [map_result] in Ed.
      destruct (enum_of_value DataType_members _ _ x) as [d|] eqn:Ex; [|discriminate].
      cbn [rbind] in Ed.
      destruct (map_result _ l) as [ds|]; [|discriminate]. cbn [rbind] in Ed.
      injection Ed as <-. simpl. apply enum_of_value_value in Ex.
      rewrite Ex, (IH ds eq_refl). reflexivity.
Qed.

(** The result is an acceptance without a message or a rejection with one. *)
Lemma validate_constraints_shape bsel dsel fsel usel :
  validate_constraints bsel dsel fsel usel = (true, None) \/
  exists msg, validate_constraints bsel dsel fsel usel = (false, Some msg).
Proof.
  unfold validate_constraints.
  destruct (negb (py_in_list String.eqb bsel _)); [right; eauto|].
  destruct dsel as [|x l]; [right; simpl; eauto|]. cbn [validate_data_types negb].
  destruct (find _ (x :: l)); [right; eauto|].
  destruct (negb (py_in_list String.eqb fsel _)); [right; eauto|].
  destruct (negb (py_in_list String.eqb usel _)); [right; eauto|].
  now left.
Qed.

(** X3.  [collect_constraints] never lets the enum conversion raise: it
    returns constraints exactly for the selections validation accepts, and
    then no error; otherwise it returns no constraints and an error
    message.  The click flag is passed through. *)
Theorem collect_constraints_guarded bsel dsel fsel usel clicked :
  (exists c, collect_constraints_from bsel dsel fsel usel clicked
             = Ok (Some c, clicked, None) /\
             form_values c = (bsel, dsel, fsel, usel) /\
             data_types c <> []) \/
  (exists msg, collect_constraints_from bsel dsel fsel usel clicked
               = Ok (None, clicked, Some msg) /\
               validate_constraints bsel dsel fsel usel
               = (false, Some msg)).
Proof.
  unfold collect_constraints_from.
  destruct (validate_constraints_shape bsel dsel fsel usel) as [E|[msg E]]; rewrite E.
  - left. destruct (validate_accepts _ _ _ _ E) as [c [-> [Hc Hne]]].
    exists c. split; [reflexivity|]. split; [exact Hc|].
    unfold form_values in Hc. injection Hc as _ Hd _ _.
    intros E'. rewrite E' in Hd. simpl in Hd. congruence.
  - right. exists msg. auto.
Qed.

(** X4.  The checks run in a fixed order and the first failure decides
    the message: an unknown budget is reported whatever the other fields
    are, then an empty data-type selection, then the first unknown data
    type, then an unknown frequency, then an unknown use case.  Each
    message names its field. *)
Theorem validate_constraints_first_failure bsel dsel fsel usel :
  let result := validate_constraints bsel dsel fsel usel in
  (known_value BudgetTier_members BudgetTier_value bsel = false ->
   result = (false, Some ("Invalid budget selection: " ++ bsel)%string)) /\
  (known_value BudgetTier_members BudgetTier_value bsel = true ->
   (dsel = [] ->
    result = (false, Some "Please select at least one data type.")) /\
   (forall known bad rest,
      dsel = known ++ bad :: rest ->
      forallb (known_value DataType_members DataType_value) known = true ->
      known_value DataType_members DataType_value bad = false ->
      result = (false, Some ("Invalid data type: " ++ bad)%string)) /\
   (dsel <> [] ->
    forallb (known_value DataType_members DataType_value) dsel = true ->
    (known_value FrequencyTier_members FrequencyTier_value fsel = false ->
     result = (false, Some ("Invalid frequency selection: " ++ fsel)%string)) /\
    (known_value FrequencyTier_members FrequencyTier_value fsel = true ->
     known_value UseCase_members UseCase_value usel = false ->
     result = (false, Some ("Invalid use case: " ++ usel)%string)))).
Proof.
  cbv zeta. unfold validate_constraints, known_value.
  split; [intros ->; reflexivity|].
  intros ->. cbn [negb].
  assert (Hfind : forall known tail,
            forallb (fun v => py_in_list String.eqb v (map DataType_value DataType_members))
              known = true ->
            find (fun dt => negb (py_in_list String.eqb dt (map DataType_value DataType_members)))
              (known ++ tail)
            = find (fun dt => negb (py_in_list String.eqb dt
                                      (map DataType_value DataType_members))) tail).
  { induction known as [|k known IH]; intros tail H; auto.
    cbn [forallb] in H. apply andb_prop in H. destruct H as [Hk H].
    cbn [app find]. rewrite Hk. cbn [negb]. now apply IH. }
  split; [intros ->; reflexivity|]. split.
  - intros known bad rest -> Hknown Hbad.
    assert (Hv : validate_data_types (known ++ bad :: rest) = (true, None))
      by (destruct known; reflexivity).
    rewrite Hv. cbn [negb]. rewrite (Hfind _ _ Hknown). cbn [find]. rewrite Hbad. reflexivity.
  - intros Hne Hall.
    assert (Hv : validate_data_types dsel = (true, None))
      by (destruct dsel; [congruence|reflexivity]).
    rewrite Hv. cbn [negb].
    rewrite <- (app_nil_r dsel), (Hfind _ [] Hall). cbn [find].
    split; [intros ->; reflexivity|]. intros -> ->. reflexivity.
Qed.

(* ================================================================== *)
(** * The verdict on any input *)

Lemma generate_next_steps_length a c :
  2 <= List.length (generate_next_steps a c) <= 4.
Proof.
  unfold generate_next_steps. rewrite !length_app. cbn [List.length].
  destruct (rate_limits a); destruct (tos_restrictions a) as [[|? ?]|];
    destruct (UseCase_beq (use_case c) TRADING_BOT); simpl; lia.
Qed.

(** Whenever a recommendation text is built it opens with the winner's
    name in bold, even for a winner whose other fields are malformed. *)
Lemma recommendation_for_opening winner c text :
  recommendation_for winner c = Ok text ->
  exists rest, text = ("**" ++ name (api winner) ++ "**" ++ rest)%string.
Proof.
  unfold recommendation_for.
  set (part1 := ("**" ++ name (api winner) ++ "** is your best match with a **"
                 ++ PyStr.str_int (compatibility_percentage winner)
                 ++ "% compatibility score**.")%string).
  assert (H : forall parts, exists rest,
            PyStr.join " " ([part1] ++ parts)
            = ("**" ++ name (api winner) ++ "**" ++ rest)%string).
  { intros parts. destruct (StrFacts.join_cons " " part1 parts) as [rest E].
    cbn [app]. rewrite E. subst part1.
    exists ((" is your best match with a **"
             ++ PyStr.str_int (compatibility_percentage winner)
             ++ "% compatibility score**.") ++ rest)%string.
    rewrite !StrFacts.append_assoc. cbn [String.append]. 
    repeat (rewrite ?StrFacts.append_assoc; cbn [String.append]). reflexivity. }
  destruct (BudgetTier_beq (budget c) FREE).
  - destruct (pricing (api winner)) as [p|]; [|discriminate].
    destruct (dict_get_default BudgetTier_beq p FREE false); cbn [rbind];
      intros [= <-]; apply H.
  - cbn [rbind]. intros [= <-]. apply H.
Qed.

Lemma recommendation_for_raises winner c :
  (exists e, recommendation_for winner c = Raise e)
  <-> budget c = FREE /\ pricing (api winner) = None.
Proof.
  unfold recommendation_for.
  destruct (budget c); cbn [BudgetTier_beq];
    try (split; [intros [e H]; discriminate|intros [H _]; discriminate]).
  destruct (pricing (api winner)) as [p|].
  - destruct (dict_get_default BudgetTier_beq p FREE false); cbn [rbind];
      (split; [intros [e H]; discriminate|intros [_ H]; discriminate]).
  - cbn [rbind]. split; eauto.
Qed.

(** X5.  Whatever list it is given, malformed records included,
    [generate_verdict] returns between one and four next steps; for a
    non-empty list there are at least two, and the recommendation text
    opens with an emphasised phrase between a pair of bold markers. *)
Theorem generate_verdict_actionable set_iter top_apis c :
  let v := generate_verdict set_iter top_apis c in
  1 <= List.length (next_steps v) <= 4 /\
  (top_apis <> [] ->
   2 <= List.length (next_steps v) /\
   exists emphasised rest,
     recommendation_text v = ("**" ++ emphasised ++ "**" ++ rest)%string).
Proof.
  cbv zeta. destruct top_apis as [|winner rest].
  - simpl. split; [lia|congruence].
  - unfold generate_verdict.
    destruct (recommendation_for winner c) as [text|e] eqn:E.
    + cbn [next_steps recommendation_text].
      pose proof (generate_next_steps_length (api winner) c) as H.
      split; [lia|]. intros _. split; [lia|].
      destruct (recommendation_for_opening winner c text E) as [r ->]. eauto.
    + cbn [next_steps recommendation_text List.length].
      split; [lia|]. intros _. split; [lia|].
      exists "Unable to generate detailed recommendation",
             " due to a system error. Please try again.".
      reflexivity.
Qed.

Lemma recommendation_for_best_match winner c text :
  recommendation_for winner c = Ok text ->
  PyStr.contains "is your best match" text = true.
Proof.
  unfold recommendation_for.
  set (part1 := ("**" ++ name (api winner) ++ "** is your best match with a **"
                 ++ PyStr.str_int (compatibility_percentage winner)
                 ++ "% compatibility score**.")%string).
  assert (H1 : PyStr.contains "is your best match" part1 = true).
  { subst part1. apply StrFacts.contains_append_r, StrFacts.contains_append_r.
    apply (StrFacts.contains_middle "** " "is your best match"). }
  assert (H : forall parts,
            PyStr.contains "is your best match" (PyStr.join " " ([part1] ++ parts)) = true).
  { intros parts. eapply contains_join; [left; reflexivity|exact H1]. }
  destruct (BudgetTier_beq (budget c) FREE).
  - destruct (pricing (api winner)) as [p|]; [|discriminate].
    destruct (dict_get_default BudgetTier_beq p FREE false); cbn [rbind];
      intros [= <-]; apply H.
  - cbn [rbind]. intros [= <-]. apply H.
Qed.

(** X6.  [generate_verdict] falls back to the fixed system-error verdict
    exactly when the budget is Free and the winner's [pricing] is missing.
    In every other case, whatever else is malformed in the winner or in
    the rest of the list, the text opens with the winner's name in bold
    and the next steps are those generated for the winner. *)
Theorem generate_verdict_degrades set_iter winner rest c :
  let v := generate_verdict set_iter (winner :: rest) c in
  (v = system_error_verdict <-> budget c = FREE /\ pricing (api winner) = None) /\
  (v <> system_error_verdict ->
   (exists tail, recommendation_text v
                 = ("**" ++ name (api winner) ++ "**" ++ tail)%string) /\
   next_steps v = generate_next_steps (api winner) c).
Proof.
  cbv zeta. unfold generate_verdict.
  pose proof (recommendation_for_raises winner c) as Hr.
  destruct (recommendation_for winner c) as [text|e] eqn:E.
  - assert (Hne : forall t n a r,
              {| recommendation_text := text; trade_offs := t; next_steps := n;
                 alternative_api := a; alternative_reason := r |}
              <> system_error_verdict).
    { intros t n a r H. apply (f_equal recommendation_text) in H. cbn in H.
      pose proof (recommendation_for_best_match winner c text E) as Hb.
      rewrite H in Hb. vm_compute in Hb. discriminate. }
    split.
    + split; [intros H; exfalso; eapply Hne; exact H|].
      intros H. apply Hr in H. destruct H as [e H]. discriminate.
    + intros _. cbn [recommendation_text next_steps]. split; [|reflexivity].
      apply (recommendation_for_opening winner c text E).
  - split.
    + split; [|reflexivity]. intros _. apply Hr. eauto.
    + intros H. exfalso. apply H. reflexivity.
Qed.

Lemma bold_in pre nm post :
  names_in_bold nm (pre ++ "**" ++ nm ++ "**" ++ post) = true.
Proof.
  unfold names_in_bold. apply StrFacts.contains_spec. exists pre, post.
  f_equal. cbn [String.append]. do 2 f_equal. now rewrite StrFacts.append_assoc.
Qed.

(** X7.  When [generate_trade_offs] returns, it returns at most five
    sentences, and each names the runner-up or the winner in bold. *)
Theorem generate_trade_offs_sentences set_iter top_api runner_up c l :
  generate_trade_offs set_iter top_api runner_up c = Ok l ->
  List.length l <= 5 /\
  Forall (fun t => names_in_bold (name (api runner_up)) t = true \/
                   names_in_bold (name (api top_api)) t = true) l.
Proof.
  unfold generate_trade_offs. cbv zeta.
  set (P := fun t => names_in_bold (name (api runner_up)) t = true \/
                     names_in_bold (name (api top_api)) t = true).
  intros H.
  assert (Hsecond : forall post, P ("Choose **" ++ name (api runner_up) ++ "**" ++ post)%string).
  { intros post. left. apply (bold_in "Choose "). }
  assert (Htop : forall post, P ("**" ++ name (api top_api) ++ "**" ++ post)%string).
  { intros post. right. apply (bold_in ""). }
  destruct (reliability_score (api top_api) <? reliability_score (api runner_up))%float;
    [destruct (percent (reliability_score (api runner_up))) as [p2|]; [|discriminate];
     destruct (percent (reliability_score (api top_api))) as [p1|]; [|discriminate]|];
    cbn [rbind] in H;
    (destruct (data_coverage (api top_api)) as [tc|]; [|discriminate]);
    (destruct (data_coverage (api runner_up)) as [sc|]; [|discriminate]);
    cbn [rbind] in H;
    (destruct (BudgetTier_beq (budget c) FREE);
     [destruct (pricing (api top_api)) as [tp|]; [|discriminate];
      destruct (dict_get_default BudgetTier_beq tp FREE false);
      [destruct (pricing (api runner_up)) as [sp|]; [|discriminate];
       destruct (dict_get_default BudgetTier_beq sp FREE false)|]|]);
    cbn [rbind] in H; injection H as <-;
    (destruct (_ <? _)%Z);
    (destruct (set_iter _));
    (destruct (strengths (api top_api)); [|destruct (strengths (api runner_up))]);
    (split; [cbn [app List.length]; lia|]);
    cbn [app];
    repeat (constructor; [first [apply Hsecond | apply Htop]|]); constructor.
Qed.

(** X8.  Every reason [get_limitation_reasons] reports is one
    [has_significant_limitations] detects: when the list of reasons is not
    empty, the check returns [True].  There are at most three reasons. *)
Theorem limitation_reasons_are_significant api_score c reasons :
  get_limitation_reasons api_score c = Ok reasons ->
  List.length reasons <= 3 /\
  (reasons <> [] -> has_significant_limitations api_score c = Ok true).
Proof.
  unfold get_limitation_reasons, has_significant_limitations. cbv zeta.
  destruct (reliability_score (api api_score) <? LOW_RELIABILITY_THRESHOLD)%float.
  - destruct (percent (reliability_score (api api_score))) as [p|]; [|discriminate].
    cbn [rbind].
    destruct (has_tos_restrictions_for_use_case (api api_score) (use_case c)) as [[|]|];
      [| |discriminate]; cbn [rbind];
      destruct (existsb (matches_any instability_phrases) (limitations (api api_score)));
      intros [= <-]; cbn [app List.length]; split; auto; lia.
  - cbn [rbind].
    destruct (has_tos_restrictions_for_use_case (api api_score) (use_case c)) as [[|]|];
      [| |discriminate]; cbn [rbind].
    + destruct (existsb (matches_any instability_phrases) (limitations (api api_score)));
        intros [= <-]; cbn [app List.length]; split; auto; lia.
    + destruct (existsb (matches_any instability_phrases) (limitations (api api_score)))
        eqn:Ei; intros [= <-]; cbn [app List.length]; (split; [lia|]).
      * intros _. f_equal. revert Ei. apply existsb_impl, instability_is_significant.
      * congruence.
Qed.

(** The converse fails: a limitation text with a commercial-use keyword
    makes the check return [True] with no reason to report, and no
    alternative is then proposed. *)
Lemma significant_without_reason :
  let a := {| name := "Gamma"; pricing := Some [(FREE, true)];
              data_coverage := Some [STOCKS]; frequency_support := Some [EOD];
              rate_limits := []; strengths := [];
              limitations := ["Free plan is for non-commercial use only"];
              tos_restrictions := Some []; reliability_score := 0.9%float;
              last_updated := (2025, 1, 10)%Z |} in
  has_significant_limitations (example_score a) example_constraints = Ok true /\
  get_limitation_reasons (example_score a) example_constraints = Ok [] /\
  alternative_api (generate_verdict example_set_iter
                     [example_score a; example_score a] example_constraints) = "".
Proof. vm_compute. repeat split; reflexivity. Qed.

Lemma generate_trade_offs_ok set_iter top_api runner_up c :
  valid_record (api top_api) -> valid_record (api runner_up) ->
  exists l, generate_trade_offs set_iter top_api runner_up c = Ok l.
Proof.
  intros [[Hp [Hd _]] [_ [H0 H1]]] [[Hp' [Hd' _]] [_ [H0' H1']]].
  destruct (MulBound.percent_ok _ H0 H1) as [p1 Hp1].
  destruct (MulBound.percent_ok _ H0' H1') as [p2 Hp2].
  unfold generate_trade_offs. cbv zeta. rewrite Hp1, Hp2.
  destruct (pricing (api top_api)) as [tp|]; [|congruence].
  destruct (pricing (api runner_up)) as [sp|]; [|congruence].
  destruct (data_coverage (api top_api)) as [tc|]; [|congruence].
  destruct (data_coverage (api runner_up)) as [sc|]; [|congruence].
  destruct (reliability_score (api top_api) <? reliability_score (api runner_up))%float;
    cbn [rbind];
    destruct (BudgetTier_beq (budget c) FREE);
    try destruct (dict_get_default BudgetTier_beq tp FREE false);
    try destruct (dict_get_default BudgetTier_beq sp FREE false);
    cbn [rbind]; eauto.
Qed.

(** X9.  For a winner and a runner-up that meet the data model's
    invariants, building the trade-offs never raises: the verdict carries
    exactly the sentences [generate_trade_offs] returns, and when both
    records list a strength the last sentence is the winner's name in bold,
    "excels at:" and a restatement of its first strength, so the list is
    not empty.  When that strength is ASCII text the restatement is the
    strength in lowercase; outside ASCII it is what [str.lower] makes of
    it, which [PyStr.lower] does not give. *)
Theorem generate_verdict_trade_offs set_iter winner runner_up rest c :
  valid_record (api winner) -> valid_record (api runner_up) ->
  exists l,
    generate_trade_offs set_iter winner runner_up c = Ok l /\
    trade_offs (generate_verdict set_iter (winner :: runner_up :: rest) c) = l /\
    (forall first others,
       strengths (api winner) = first :: others ->
       strengths (api runner_up) <> [] ->
       exists before restated,
         l = before ++ [("**" ++ name (api winner) ++ "** excels at: "
                         ++ restated)%string] /\
         (PyStr.isascii first = true -> restated = PyStr.lower first)).
Proof.
  intros Hw Hr.
  destruct (generate_trade_offs_ok set_iter winner runner_up c Hw Hr) as [l Hl].
  exists l. split; [exact Hl|]. split.
  - unfold generate_verdict.
    destruct (recommendation_for_ok winner c Hw) as [text ->].
    cbn [hd_error trade_offs]. now rewrite Hl.
  - intros first others Hs Hs'. revert Hl. unfold generate_trade_offs. cbv zeta.
    rewrite Hs. destruct (strengths (api runner_up)) as [|s2 ss2]; [congruence|].
    match goal with
    | |- (x <- ?t1 ;; _) = _ -> _ => destruct t1 as [l1|]; [|discriminate]
    end.
    cbn [rbind].
    destruct (data_coverage (api winner)) as [tc|]; [|discriminate].
    destruct (data_coverage (api runner_up)) as [sc|]; [|discriminate].
    cbn [rbind].
    match goal with
    | |- (x <- ?t4 ;; _) = _ -> _ => destruct t4 as [l4|]; [|discriminate]
    end.
    cbn [rbind]. intros [= <-].
    eexists. exists (PyStr.lower first). split; [|reflexivity].
    rewrite !app_assoc. reflexivity.
Qed.

(* ================================================================== *)
(** * The fallback on any catalog *)

Lemma fallback_scores_incl c : forall catalog l,
  fallback_scores c catalog = Ok l -> incl (map api l) catalog.
Proof.
  induction catalog as [|a catalog IH]; intros l H; simpl in H.
  - injection H as <-. intros x [].
  - destruct (fallback_score c a) as [o|] eqn:Ea; [|discriminate]. cbn [rbind] in H.
    destruct (fallback_scores c catalog) as [l'|]; [|discriminate]. cbn [rbind] in H.
    injection H as <-. specialize (IH l' eq_refl).
    destruct o as [s|].
    + assert (api s = a) as Hs.
      { revert Ea. unfold fallback_score. destruct (pricing a); [|discriminate].
        destruct (covers_any a c) as [b|]; [|discriminate]. cbn [rbind].
        destruct (negb _ || negb b); [discriminate|].
        destruct (PyFloat.py_int _); [|discriminate]. cbn [rbind].
        now intros [= <-]. }
      intros x [<-|Hx]; [left; auto|right; now apply IH].
    + intros x Hx. right. now apply IH.
Qed.

Lemma most_reliable_scores_shape : forall l rank r,
  most_reliable_scores rank l = Ok r ->
  map api r = l /\
  (forall i s, nth_error r i = Some s ->
     recommendation_rank s = (rank + Z.of_nat i)%Z).
Proof.
  induction l as [|a l IH]; intros rank r H; simpl in H.
  - injection H as <-. split; auto. intros [|i] s E; discriminate.
  - destruct (PyFloat.py_int _) as [n|]; [|discriminate]. cbn [rbind] in H.
    destruct (most_reliable_scores (rank + 1) l) as [r'|] eqn:E; [|discriminate].
    cbn [rbind] in H. injection H as <-.
    destruct (IH _ _ E) as [H1 H2]. split; [simpl; congruence|].
    intros [|i] s Hs; simpl in Hs.
    + injection Hs as <-. simpl. lia.
    + rewrite (H2 _ _ Hs). lia.
Qed.

Lemma hardcoded_scores_shape : forall l rank,
  map api (hardcoded_scores rank l) = l /\
  (forall i s, nth_error (hardcoded_scores rank l) i = Some s ->
     recommendation_rank s = (rank + Z.of_nat i)%Z /\
     total_score s = 75%float /\ compatibility_percentage s = 75%Z).
Proof.
  induction l as [|a l IH]; intros rank; simpl.
  - split; auto. intros [|i] s E; discriminate.
  - destruct (IH (rank + 1)%Z) as [H1 H2]. split; [congruence|].
    intros [|i] s Hs; simpl in Hs.
    + injection Hs as <-. simpl. repeat split. lia.
    + destruct (H2 _ _ Hs) as [Hr Hrest]. split; [lia|exact Hrest].
Qed.

Lemma fallback_handler_incl catalog :
  incl (map api (fallback_handler catalog)) catalog /\
  (catalog <> [] -> fallback_handler catalog <> []).
Proof.
  unfold fallback_handler.
  set (named := filter _ catalog).
  destruct named as [|a named'] eqn:E.
  - rewrite (proj1 (hardcoded_scores_shape _ _)). split.
    + intros x Hx. eapply In_firstn_In; eauto.
    + intros Hne H. apply (f_equal (map api)) in H.
      rewrite (proj1 (hardcoded_scores_shape _ _)) in H.
      now apply (firstn_nonempty catalog Hne).
  - rewrite (proj1 (hardcoded_scores_shape _ _)). split.
    + intros x Hx. rewrite <- E in Hx. subst named. apply filter_In in Hx. tauto.
    + intros _. simpl. discriminate.
Qed.

(** The fallback list on any catalog, whether or not its records can be
    processed. *)
Lemma fallback_recommendations_any catalog c :
  let r := fallback_recommendations_from catalog c in
  (catalog <> [] -> r <> []) /\
  (forall i s, nth_error r i = Some s -> recommendation_rank s = Z.of_nat (S i)) /\
  Forall (fun s => In (api s) catalog) r.
Proof.
  cbv zeta. unfold fallback_recommendations_from, fallback_try.
  destruct (fallback_scores c catalog) as [l|e] eqn:El; cbn [rbind].
  - pose proof (fallback_scores_incl c catalog l El) as Hincl.
    set (sorted := sort_reverse (fun x => reliability_score (api x)) l).
    destruct (enumerate_ranks 1 sorted) as [|s0 ranked0] eqn:Er.
    + destruct (most_reliable_scores 1 _) as [r|e] eqn:Em.
      * destruct (most_reliable_scores_shape _ _ _ Em) as [Hapi Hrank].
        split; [|split].
        -- intros Hne Hr. subst r. simpl in Hapi. symmetry in Hapi. revert Hapi.
           apply firstn_nonempty. intros Hs.
           apply (f_equal (@List.length _)) in Hs. rewrite sort_reverse_length in Hs.
           destruct catalog; [congruence|discriminate].
        -- intros i s Hs. rewrite (Hrank i s Hs). lia.
        -- rewrite Forall_forall. intros s Hs.
           assert (Hin : In (api s) (map api r)) by now apply in_map.
           rewrite Hapi in Hin. apply In_firstn_In in Hin.
           eapply Permutation_in; [apply Permutation_sym, sort_reverse_perm|exact Hin].
      * destruct (fallback_handler_incl catalog) as [Hi Hne].
        split; [exact Hne|]. split.
        -- intros i s Hs. unfold fallback_handler in Hs.
           destruct (proj2 (hardcoded_scores_shape _ _) i s Hs) as [-> _]. lia.
        -- rewrite Forall_forall. intros s Hs. apply Hi. now apply in_map.
    + rewrite <- Er. split; [|split].
      * intros _. rewrite Er. discriminate.
      * intros i s Hs. rewrite (enumerate_ranks_nth _ _ _ _ Hs). lia.
      * rewrite Forall_forall. intros s Hs. apply Hincl.
        assert (Hin : In (api s) (map api (enumerate_ranks 1 sorted))) by now apply in_map.
        rewrite enumerate_ranks_api in Hin.
        eapply Permutation_in; [|exact Hin].
        apply Permutation_map, Permutation_sym, sort_reverse_perm.
  - destruct (fallback_handler_incl catalog) as [Hi Hne].
    split; [exact Hne|]. split.
    + intros i s Hs. unfold fallback_handler in Hs.
      destruct (proj2 (hardcoded_scores_shape _ _) i s Hs) as [-> _]. lia.
    + rewrite Forall_forall. intros s Hs. apply Hi. now apply in_map.
Qed.

(** X10.  On every catalog, whatever is malformed in its records, the
    fallback list is ranked 1, 2, ... in order and holds records of the
    catalog only; it is empty only when the catalog is. *)
Theorem fallback_recommendations_never_empty catalog c :
  let r := fallback_recommendations_from catalog c in
  (r = [] <-> catalog = []) /\
  (forall i s, nth_error r i = Some s -> recommendation_rank s = Z.of_nat (S i)) /\
  Forall (fun s => In (api s) catalog) r.
Proof.
  destruct (fallback_recommendations_any catalog c) as [H1 [H2 H3]]. cbv zeta.
  split; [|split]; auto. split.
  - intros Hr. destruct catalog as [|a catalog]; auto.
    exfalso. apply H1; [discriminate|exact Hr].
  - intros ->. destruct (fallback_recommendations_from [] c) as [|s r]; auto.
    inversion H3 as [|? ? Hin]; subst. destruct Hin.
Qed.

(** When the scoring of the fallback raises, the handler's list holds the
    records named Alpha Vantage, Polygon.io or Finnhub (or else the first
    three of the catalog), each with a score of 75. *)
Lemma fallback_handler_scores catalog c e :
  fallback_try catalog c = Raise e ->
  Forall (fun s => total_score s = 75%float /\ compatibility_percentage s = 75%Z)
    (fallback_recommendations_from catalog c).
Proof.
  intros H. unfold fallback_recommendations_from. rewrite H.
  rewrite Forall_forall. intros s Hs. apply In_nth_error in Hs. destruct Hs as [i Hi].
  unfold fallback_handler in Hi.
  now destruct (proj2 (hardcoded_scores_shape _ _) i s Hi) as [_ Hrest].
Qed.

(** X11.  On every catalog the fallback verdict proposes no alternative,
    has exactly one trade-off sentence and three or four next steps, and
    its text carries one of the marker phrases that tell it from a primary
    verdict. *)
Theorem fallback_verdict_marked catalog c :
  let v := fallback_verdict_from catalog c in
  alternative_api v = "" /\ alternative_reason v = "" /\
  List.length (trade_offs v) = 1 /\
  3 <= List.length (next_steps v) <= 4 /\
  (PyStr.contains "fallback mode" (recommendation_text v)
   || PyStr.contains "system issues" (recommendation_text v)
   || PyStr.contains "System temporarily unavailable" (recommendation_text v)) = true.
Proof.
  cbv zeta. unfold fallback_verdict_from, fallback_verdict_try.
  destruct (fallback_recommendations_from catalog c) as [|winner rest].
  - cbn. repeat split; lia.
  - destruct (percent (reliability_score (api winner))) as [p|].
    + cbn [rbind fst snd alternative_api alternative_reason trade_offs next_steps
           recommendation_text List.length].
      repeat split; try lia.
      apply orb_true_iff. left. apply orb_true_iff. left.
      apply StrFacts.contains_append_r, StrFacts.contains_append_r.
      apply (StrFacts.contains_middle "** is recommended based on reliability (system is operating in "
               "fallback mode").
    + cbn. repeat split; lia.
Qed.

(** X12.  On the built-in catalog the fallback verdict never degrades to
    a generic text: for every constraints value it names, in bold, the
    first of the fallback recommendations, a record of the catalog, and
    states its reliability as a percentage. *)
Theorem generate_fallback_verdict_names_winner c :
  exists winner rest reliability,
    get_fallback_recommendations c = winner :: rest /\
    In (api winner) get_all_apis /\
    percent (reliability_score (api winner)) = Ok reliability /\
    recommendation_text (generate_fallback_verdict c)
    = ("**" ++ name (api winner) ++ "** is recommended based on reliability "
       ++ "(system is operating in fallback mode). "
       ++ "This API has a **" ++ reliability ++ "% reliability score** "
       ++ "and should meet your basic requirements.")%string /\
    List.length (next_steps (generate_fallback_verdict c)) = 4.
Proof.
  unfold generate_fallback_verdict, get_fallback_recommendations, fallback_verdict_from.
  destruct (fallback_recommendations_any get_all_apis c) as [Hne [_ Hin]].
  destruct (fallback_recommendations_from get_all_apis c) as [|winner rest].
  { exfalso. apply Hne; [discriminate|reflexivity]. }
  inversion Hin as [|? ? Hw _]; subst.
  pose proof get_all_apis_ready as Hready. rewrite Forall_forall in Hready.
  destruct (Hready _ Hw) as [_ [_ [Hfin _]]].
  destruct (py_int_finite _ Hfin) as [n Hn].
  exists winner, rest, (PyStr.str_int n).
  assert (Hp : percent (reliability_score (api winner)) = Ok (PyStr.str_int n)).
  { unfold percent. now rewrite Hn. }
  split; [reflexivity|]. split; [exact Hw|]. split; [exact Hp|].
  unfold fallback_verdict_try. rewrite Hp. cbn [rbind fst snd]. split; reflexivity.
Qed.

(* ================================================================== *)
(** * What [score_apis] returns and logs *)

Lemma returns_unique x scores scores' :
  returns x scores -> returns x scores' -> scores = scores'.
Proof.
  intros [locs [E1 H1]] [locs' [E2 H2]]. rewrite E1 in E2. injection E2 as <-.
  rewrite H1 in H2. clear -H2. revert scores' H2.
  induction scores as [|s l IH]; intros [|s' l'] H; simpl in H; try discriminate; auto.
  injection H as -> H. f_equal. now apply IH.
Qed.

Lemma score_entry_invariants a c scores total compat :
  score_entry a c = Ok (scores, total, compat) ->
  (0 <= compat <= 100)%Z /\
  map fst scores = ["budget"; "data_types"; "frequency"; "use_case"] /\
  calculate_compatibility_percentage total = Ok compat.
Proof.
  unfold score_entry, calculate_category_scores.
  destruct (score_budget_compatibility a c) as [b|]; [|discriminate]. cbn [rbind].
  destruct (score_data_type_coverage a c) as [d|]; [|discriminate]. cbn [rbind].
  destruct (score_frequency_availability a c) as [f|]; [|discriminate]. cbn [rbind].
  destruct (score_use_case_suitability a c) as [u|]; [|discriminate]. cbn [rbind].
  destruct (calculate_compatibility_percentage _) as [p|] eqn:Ep; [|discriminate].
  cbn [rbind]. intros [= <- <- <-]. split; [|split; [reflexivity|exact Ep]].
  revert Ep. unfold calculate_compatibility_percentage.
  destruct (PyFloat.py_round _); [|discriminate]. cbn [rbind]. intros [= <-]. lia.
Qed.

(** X13.  Every [APIScore] that [score_apis] returns keeps the invariants
    of the data model: a compatibility percentage between 0 and 100 that
    is the clamped rounding of its total, a finite total, a rank between 1
    and the number of scores, and the four categories in their fixed
    order. *)
Theorem score_apis_score_invariants c apis infos w scores :
  catalog_of (heap w) apis infos ->
  returns (score_apis c apis w) scores ->
  Forall (score_invariants (List.length scores)) scores.
Proof.
  intros Hcat Hret.
  pose proof (score_apis_returns c apis infos w Hcat) as H.
  pose proof (ranked_length c infos) as Hlen.
  destruct (filter (scores_ok c) infos) as [|a0 l0].
  { destruct Hret as [locs [E _]]. congruence. }
  rewrite (returns_unique _ _ _ Hret H).
  destruct (ranked_properties c infos) as [_ [HE [_ [Hrank _]]]].
  rewrite Forall_forall in *. intros s Hs.
  pose proof (HE s Hs) as Hentry.
  destruct (score_entry_invariants _ _ _ _ _ Hentry) as [Hc [Hk Hp]].
  destruct (In_nth_error _ _ Hs) as [i Hi].
  assert (Hi' : i < List.length (ranked c infos)).
  { apply nth_error_Some. congruence. }
  unfold score_invariants. rewrite (Hrank i s Hi).
  split; [exact Hc|]. split; [lia|]. split; [exact Hk|].
  split; [now apply (scores_entry_finite c)|exact Hp].
Qed.

Lemma skipped_entries_app l1 l2 :
  skipped_entries (l1 ++ l2) = skipped_entries l1 ++ skipped_entries l2.
Proof. unfold skipped_entries. apply flat_map_app. Qed.

Lemma read_totals_log : forall ls w, log (snd (read_totals ls w)) = log w.
Proof.
  induction ls as [|l ls IH]; intros w; [reflexivity|].
  cbn [read_totals]. unfold ebind, read_total, mbind, deref, mret.
  destruct (nth_error (heap w) l) as [[a|s]|]; try reflexivity.
  specialize (IH w). destruct (read_totals ls w) as [[ks|e] w']; exact IH.
Qed.

Lemma assign_ranks_log : forall ls rank w, log (snd (assign_ranks rank ls w)) = log w.
Proof.
  induction ls as [|l ls IH]; intros rank w; [reflexivity|].
  cbn [assign_ranks]. unfold mbind, deref, mret.
  destruct (nth_error (heap w) l) as [[a|s]|]; try reflexivity.
  unfold store. rewrite IH. reflexivity.
Qed.

Lemma sort_and_rank_log t0 ls w :
  skipped_entries (log (snd (sort_and_rank t0 ls w))) = skipped_entries (log w).
Proof.
  unfold sort_and_rank, mbind, ebind, time_time. cbn [fst snd].
  match goal with
  | |- context [read_totals ls ?w1] =>
      pose proof (read_totals_log ls w1) as Hr; destruct (read_totals ls w1) as [[keys|e] w2]
  end; cbn [snd] in *; [|now rewrite Hr].
  cbn [heap clock ticks log].
  match goal with
  | |- context [assign_ranks 1 ?l ?w3] =>
      pose proof (assign_ranks_log l 1%Z w3) as Ha;
      destruct (assign_ranks 1 l w3) as [[[]|e] w4]
  end; cbn [snd log] in *; [|now rewrite Ha, Hr].
  unfold logger, mret. cbn [fst snd heap clock ticks log].
  match goal with
  | |- context [if ?b then _ else _] => destruct b
  end; [|match goal with |- context [if ?b then _ else _] => destruct b end];
    cbn [fst snd log]; rewrite !skipped_entries_app, Ha, Hr; cbn; now rewrite !app_nil_r.
Qed.

Lemma score_loop_log c : forall ls infos scored_apis w,
  Forall2 (points_to_info (heap w)) ls infos ->
  skipped_entries (log (snd (score_loop c ls scored_apis w)))
  = skipped_entries (log w) ++ failing_entries c infos.
Proof.
  induction ls as [|l ls IH]; intros infos scored_apis w HF;
    inversion HF as [|l0 a ls0 infos' H2 H4]; subst.
  - simpl. now rewrite app_nil_r.
  - red in H2. cbn [failing_entries flat_map].
    destruct (score_entry a c) as [[[scores total] compat]|e] eqn:Es.
    + rewrite (score_loop_cons_ok _ _ _ _ _ _ _ _ _ H2 Es).
      rewrite (IH infos').
      * cbn [after_scored log]. rewrite skipped_entries_app. cbn.
        now rewrite app_nil_r.
      * simpl. eapply Forall2_impl; [|exact H4]. intros x y Hx. red. red in Hx.
        now apply nth_error_app_left.
    + rewrite (score_loop_cons_skip _ _ _ _ _ _ _ H2 Es).
      rewrite (IH infos' scored_apis (after_skipped w a e) H4).
      cbn [after_skipped log]. rewrite skipped_entries_app. cbn.
      now rewrite <- app_assoc.
Qed.

(** X14.  [score_apis] reports every entry it skips and nothing else as
    skipped: the "error scoring" messages it adds to the log are, in
    catalog order, the name and the exception of each record whose scoring
    raised, all at level ERROR, whether the call returns or raises. *)
Theorem score_apis_logs_skipped_entries c apis infos w :
  catalog_of (heap w) apis infos ->
  skipped_entries (log (snd (score_apis c apis w)))
  = skipped_entries (log w) ++ failing_entries c infos.
Proof.
  intros Hcat. rewrite score_apis_stages. cbv zeta.
  rewrite load_apis_spec. cbn [fst snd].
  set (w1 := logged _ INFO _).
  set (ls := match apis with Some ls => ls | None => _ end).
  assert (HF : Forall2 (points_to_info (heap w1)) ls infos).
  { subst w1 ls. unfold logged, logger, with_heap, tick. cbn [snd heap].
    destruct apis as [ls|]; simpl in Hcat.
    - rewrite app_nil_r. exact Hcat.
    - subst infos. generalize (points_to_fresh (heap w) get_all_apis []).
      simpl. now rewrite Nat.add_0_r. }
  pose proof (score_loop_log c ls infos [] w1 HF) as Hloop.
  assert (Hw1 : skipped_entries (log w1) = skipped_entries (log w)).
  { subst w1. unfold logged, logger, with_heap, tick. cbn [snd log].
    rewrite skipped_entries_app. cbn. now rewrite app_nil_r. }
  rewrite Hw1 in Hloop.
  destruct (score_loop c ls [] w1) as [[[|l0 ls0]|e] w2]; cbn [fst snd] in *.
  - unfold reraise, logged, logger, tick. cbn [fst snd log].
    rewrite !skipped_entries_app, Hloop. cbn. now rewrite !app_nil_r.
  - pose proof (sort_and_rank_log (clock w (ticks w)) (l0 :: ls0) w2) as Hs.
    unfold reraise.
    destruct (sort_and_rank (clock w (ticks w)) (l0 :: ls0) w2) as [[r|e] w3];
      cbn [fst snd] in *.
    + now rewrite Hs.
    + unfold logged, logger, tick. cbn [snd log].
      rewrite skipped_entries_app, Hs, Hloop. cbn. now rewrite app_nil_r.
  - unfold reraise, logged, logger, tick. cbn [fst snd log].
    rewrite skipped_entries_app, Hloop. cbn. now rewrite app_nil_r.
Qed.

(* ================================================================== *)
(** * Magnitudes of float results *)

Module FloatMag.
Import PyFloat.
Open Scope Z_scope.

Lemma shr_1_floor mrs :
  0 <= shr_m mrs ->
  0 <= shr_m (shr_1 mrs) /\
  2 * shr_m (shr_1 mrs) <= shr_m mrs < 2 * shr_m (shr_1 mrs) + 2.
Proof.
  destruct mrs as [m r s]. simpl. destruct m as [|[p|p|]|p]; simpl; lia.
Qed.

(** [n] right shifts divide the mantissa by [2^n], rounding down. *)
Lemma iter_pos_shr_1_floor : forall n mrs,
  0 <= shr_m mrs ->
  0 <= shr_m (iter_pos shr_1 n mrs) /\
  shr_m (iter_pos shr_1 n mrs) * 2 ^ Zpos n <= shr_m mrs
    < (shr_m (iter_pos shr_1 n mrs) + 1) * 2 ^ Zpos n.
Proof.
  induction n as [n IH|n IH|]; intros mrs H; cbn [iter_pos].
  - destruct (shr_1_floor mrs H) as [H0 H1].
    destruct (IH _ H0) as [H2 H3]. destruct (IH _ H2) as [H4 H5].
    set (a := shr_m (shr_1 mrs)) in *.
    set (b := shr_m (iter_pos shr_1 n (shr_1 mrs))) in *.
    set (c := shr_m (iter_pos shr_1 n (iter_pos shr_1 n (shr_1 mrs)))) in *.
    assert (HP : 0 < 2 ^ Zpos n) by (apply Z.pow_pos_nonneg; lia).
    rewrite (Pos2Z.inj_xI n), Z.pow_add_r, Z.pow_mul_r by lia.
    change (2 ^ 2) with 4. rewrite Z.pow_1_r.
    replace (4 ^ Zpos n) with (2 ^ Zpos n * 2 ^ Zpos n)
      by (rewrite <- Z.pow_mul_l; reflexivity).
    set (P := 2 ^ Zpos n) in *. split; [lia|]. nia.
  - destruct (IH _ H) as [H2 H3]. destruct (IH _ H2) as [H4 H5].
    set (b := shr_m (iter_pos shr_1 n mrs)) in *.
    set (c := shr_m (iter_pos shr_1 n (iter_pos shr_1 n mrs))) in *.
    assert (HP : 0 < 2 ^ Zpos n) by (apply Z.pow_pos_nonneg; lia).
    rewrite (Pos2Z.inj_xO n), Z.pow_mul_r by lia.
    change (2 ^ 2) with 4.
    replace (4 ^ Zpos n) with (2 ^ Zpos n * 2 ^ Zpos n)
      by (rewrite <- Z.pow_mul_l; reflexivity).
    set (P := 2 ^ Zpos n) in *. split; [lia|]. nia.
  - destruct (shr_1_floor mrs H) as [H0 H1]. change (2 ^ 1) with 2. lia.
Qed.

(** The shift to the format's exponent: the new exponent, and the
    mantissa divided by the power of two between the exponents. *)
Lemma shr_fexp_floor m e l :
  0 <= m ->
  let '(mrs, e') := shr_fexp prec emax m e l in
  e' = Z.max e (fexp prec emax (Zdigits2 m + e)) /\
  0 <= shr_m mrs /\
  shr_m mrs * 2 ^ (e' - e) <= m < (shr_m mrs + 1) * 2 ^ (e' - e).
Proof.
  intros Hm. unfold shr_fexp, shr.
  destruct (fexp prec emax (Zdigits2 m + e) - e) as [|p|p] eqn:E.
  - rewrite MulBound.shr_m_of_loc, Z.sub_diag. change (2 ^ 0) with 1. lia.
  - pose proof (iter_pos_shr_1_floor p (shr_record_of_loc m l)) as H.
    rewrite MulBound.shr_m_of_loc in H. specialize (H Hm).
    replace (e + Zpos p - e) with (Zpos p) by lia.
    split; [lia|exact H].
  - rewrite MulBound.shr_m_of_loc, Z.sub_diag. change (2 ^ 0) with 1. lia.
Qed.

Lemma Zdigits2_lower m : 1 <= m -> 2 ^ (Zdigits2 m - 1) <= m.
Proof.
  destruct m as [|p|p]; try lia. intros _. simpl Zdigits2.
  rewrite MulBound.digits2_pos_size.
  pose proof (Pos.size_le p) as Hs.
  assert (H : 2 ^ Zpos (Pos.size p) <= Zpos p~0).
  { rewrite <- Pos2Z.inj_pow. apply Pos2Z.pos_le_pos. exact Hs. }
  replace (Zpos (Pos.size p)) with (Zpos (Pos.size p) - 1 + 1) in H by lia.
  rewrite Z.pow_add_r in H by lia. change (Zpos p~0) with (2 * Zpos p) in H. lia.
Qed.

Lemma Zdigits2_upper m : 0 <= m -> m < 2 ^ Zdigits2 m.
Proof.
  destruct m as [|p|p]; try lia; intros _; [reflexivity|].
  apply MulBound.pos_lt_pow_digits.
Qed.

Lemma Zdigits2_nonneg m : 0 <= Zdigits2 m.
Proof. destruct m; simpl; lia. Qed.

(** A mantissa at most [2^K] has at most [K + 1] digits. *)
Lemma Zdigits2_le_pow m K : 0 <= K -> 0 <= m <= 2 ^ K -> Zdigits2 m <= K + 1.
Proof.
  intros HK [H0 H]. apply MulBound.Zdigits2_le; [|lia].
  split; [lia|]. rewrite Z.pow_add_r by lia. 
  assert (0 < 2 ^ K) by (apply Z.pow_pos_nonneg; lia). lia.
Qed.

Lemma SF_within_mono M M' x : M <= M' -> SF_within M x -> SF_within M' x.
Proof.
  intros HM. destruct x as [s|s| |s m e]; simpl; auto. intros [H1 H2].
  split; [|lia]. eapply Z.le_trans; [exact H1|]. apply Z.pow_le_mono_r; lia.
Qed.

Lemma SF_within_finite M x : SF_within M x -> SF_is_finite x = true.
Proof. destruct x; simpl; tauto. Qed.

Lemma le_pow_cancel x K n :
  0 <= n -> 0 <= K -> x * 2 ^ n <= 2 ^ (K + n) -> x <= 2 ^ K.
Proof.
  intros Hn HK H. rewrite Z.pow_add_r in H by lia.
  assert (0 < 2 ^ n) by (apply Z.pow_pos_nonneg; lia).
  eapply Z.mul_le_mono_pos_r; eauto.
Qed.

Lemma fexp_bounds z :
  -1074 <= fexp prec emax z /\ z - 53 <= fexp prec emax z /\
  (fexp prec emax z = z - 53 \/ fexp prec emax z = -1074).
Proof. unfold fexp, FloatOps.prec, SpecFloat.emin, emax. lia. Qed.

(** Rounding a mantissa of magnitude at most [2^M]: the result is a zero
    or a finite float of magnitude at most [2^(M+1)]. *)
Lemma binary_round_aux_within s mx ex lx M :
  0 <= mx <= 2 ^ (M - ex) -> ex <= M -> -1074 <= M -> M + 1 <= 971 ->
  SF_within (M + 1) (binary_round_aux prec emax s mx ex lx).
Proof.
  intros [Hmx0 Hmx] Hex HM HM'. unfold binary_round_aux.
  pose proof (shr_fexp_floor mx ex lx Hmx0) as H1.
  destruct (shr_fexp prec emax mx ex lx) as [mrs' e'].
  destruct H1 as [He' [Hm'0 [Hm' _]]].
  pose proof (MulBound.round_nearest_even_bounds (shr_m mrs') (loc_of_shr_record mrs') Hm'0)
    as Hr.
  set (m1 := round_nearest_even (shr_m mrs') (loc_of_shr_record mrs')) in *.
  pose proof (shr_fexp_floor m1 e' loc_Exact ltac:(lia)) as H2.
  destruct (shr_fexp prec emax m1 e' loc_Exact) as [mrs'' e''].
  destruct H2 as [He'' [Hm''0 [Hm'' _]]].
  assert (Hd : Zdigits2 mx <= M - ex + 1) by (apply Zdigits2_le_pow; lia).
  pose proof (fexp_bounds (Zdigits2 mx + ex)) as [Hf1 [Hf2 Hf3]].
  assert (He'M : ex <= e' <= M) by lia.
  assert (Hm'M : shr_m mrs' <= 2 ^ (M - e')).
  { apply (le_pow_cancel _ _ (e' - ex)); try lia.
    replace (M - e' + (e' - ex)) with (M - ex) by lia. lia. }
  assert (Hpos : 0 < 2 ^ (M - e')) by (apply Z.pow_pos_nonneg; lia).
  assert (Hm1 : m1 <= 2 ^ (M + 1 - e')).
  { replace (M + 1 - e') with (M - e' + 1) by lia.
    rewrite Z.pow_add_r by lia. change (2 ^ 1) with 2. lia. }
  assert (Hd1 : Zdigits2 m1 <= M + 1 - e' + 1) by (apply Zdigits2_le_pow; lia).
  pose proof (fexp_bounds (Zdigits2 m1 + e')) as [Hg1 [Hg2 Hg3]].
  assert (He''M : e' <= e'' <= M + 1) by lia.
  assert (Hm''M : shr_m mrs'' <= 2 ^ (M + 1 - e'')).
  { apply (le_pow_cancel _ _ (e'' - e')); try lia.
    replace (M + 1 - e'' + (e'' - e')) with (M + 1 - e') by lia. lia. }
  destruct (shr_m mrs'') as [|p|p]; [exact I| |lia].
  unfold emax, FloatOps.prec. simpl Z.sub.
  destruct (Z.leb_spec e'' 971); [|lia]. simpl. split; [exact Hm''M|lia].
Qed.

(** Rounding a positive mantissa that does not underflow gives a finite,
    non-zero float whose exponent is not below the one given. *)
Lemma binary_round_aux_positive s mx ex lx M :
  1 <= mx <= 2 ^ (M - ex) -> -1021 <= Zdigits2 mx + ex -> M + 1 <= 971 ->
  exists m e,
    binary_round_aux prec emax s mx ex lx = S754_finite s m e /\
    ex <= e /\ Zpos m <= 2 ^ (M + 1 - e) /\ e <= M + 1.
Proof.
  intros [Hmx1 Hmx] Hno HM'.
  assert (Hex : ex <= M).
  { destruct (Z.le_gt_cases ex M); auto.
    rewrite Z.pow_neg_r in Hmx by lia. lia. }
  assert (Hd : Zdigits2 mx <= M - ex + 1) by (apply Zdigits2_le_pow; lia).
  assert (HM : -1074 <= M) by lia.
  pose proof (binary_round_aux_within s mx ex lx M ltac:(lia) Hex HM HM') as Hw.
  revert Hw. unfold binary_round_aux.
  pose proof (shr_fexp_floor mx ex lx ltac:(lia)) as H1.
  destruct (shr_fexp prec emax mx ex lx) as [mrs' e'].
  destruct H1 as [He' [Hm'0 [_ Hm']]].
  pose proof (MulBound.round_nearest_even_bounds (shr_m mrs') (loc_of_shr_record mrs') Hm'0)
    as Hr.
  set (m1 := round_nearest_even (shr_m mrs') (loc_of_shr_record mrs')) in *.
  pose proof (shr_fexp_floor m1 e' loc_Exact ltac:(lia)) as H2.
  destruct (shr_fexp prec emax m1 e' loc_Exact) as [mrs'' e''].
  destruct H2 as [He'' [Hm''0 [_ Hm'']]].
  pose proof (fexp_bounds (Zdigits2 mx + ex)) as [Hf1 [Hf2 Hf3]].
  pose proof (fexp_bounds (Zdigits2 m1 + e')) as [Hg1 [Hg2 Hg3]].
  pose proof (Zdigits2_lower mx Hmx1) as Hlow.
  assert (Hm'1 : 1 <= shr_m mrs').
  { destruct (Z.le_gt_cases 1 (shr_m mrs')) as [|H0]; auto. exfalso.
    assert (shr_m mrs' = 0) as E by lia. rewrite E in Hm'. rewrite Z.mul_1_l in Hm'.
    destruct (Z.eq_dec e' ex) as [Ee|Ee].
    - rewrite Ee, Z.sub_diag in Hm'. change (2 ^ 0) with 1 in Hm'. lia.
    - assert (e' - ex = Zdigits2 mx - 53) by lia.
      assert (2 ^ (e' - ex) <= 2 ^ (Zdigits2 mx - 1)) by (apply Z.pow_le_mono_r; lia).
      lia. }
  assert (Hm11 : 1 <= m1) by lia.
  pose proof (Zdigits2_lower m1 Hm11) as Hlow1.
  assert (Hm''1 : 1 <= shr_m mrs'').
  { destruct (Z.le_gt_cases 1 (shr_m mrs'')) as [|H0]; auto. exfalso.
    assert (shr_m mrs'' = 0) as E by lia. rewrite E in Hm''. rewrite Z.mul_1_l in Hm''.
    destruct (Z.eq_dec e'' e') as [Ee|Ee].
    - rewrite Ee, Z.sub_diag in Hm''. change (2 ^ 0) with 1 in Hm''. lia.
    - assert (e'' - e' = Zdigits2 m1 - 53) by lia.
      assert (2 ^ (e'' - e') <= 2 ^ (Zdigits2 m1 - 1)) by (apply Z.pow_le_mono_r; lia).
      lia. }
  destruct (shr_m mrs'') as [|p|p]; try lia.
  unfold emax, FloatOps.prec. simpl Z.sub.
  destruct (Z.leb_spec e'' 971); simpl; [|tauto].
  intros [Hw1 Hw2]. exists p, e''. split; [reflexivity|]. split; [lia|]. split; auto.
Qed.

Lemma SFmul_within M1 M2 x y :
  SF_within M1 x -> SF_within M2 y ->
  -1074 <= M1 + M2 -> M1 + M2 + 1 <= 971 ->
  SF_within (M1 + M2 + 1) (SF64mul x y).
Proof.
  intros Hx Hy Hlo Hhi. unfold SF64mul, SFmul.
  destruct x as [sx|sx| |sx mx ex]; destruct y as [sy|sy| |sy my ey];
    simpl in Hx, Hy; try tauto; try exact I.
  destruct Hx as [Hx Hex]. destruct Hy as [Hy Hey].
  apply binary_round_aux_within; try lia.
  split; [lia|]. rewrite Pos2Z.inj_mul.
  replace (M1 + M2 - (ex + ey)) with ((M1 - ex) + (M2 - ey)) by lia.
  rewrite Z.pow_add_r by lia.
  apply Z.mul_le_mono_nonneg; lia.
Qed.

Lemma pos_iter_xO mx : forall d, Zpos (Pos.iter xO mx d) = Zpos mx * 2 ^ Zpos d.
Proof.
  induction d as [|d IH] using Pos.peano_ind.
  - cbn [Pos.iter]. rewrite (Pos2Z.inj_xO mx). change (2 ^ 1) with 2. lia.
  - rewrite Pos.iter_succ, Pos2Z.inj_succ, Z.pow_succ_r by lia.
    rewrite (Pos2Z.inj_xO (Pos.iter xO mx d)), IH. lia.
Qed.

(** Aligning a mantissa to a lower exponent keeps its value. *)
Lemma shl_align_value mx ex ex' :
  let '(mz, ez) := shl_align mx ex ex' in
  ez = Z.min ex ex' /\ Zpos mz = Zpos mx * 2 ^ (ex - ez).
Proof.
  unfold shl_align. destruct (ex' - ex) as [|d|d] eqn:E.
  - split; [lia|]. rewrite Z.sub_diag. change (2 ^ 0) with 1. lia.
  - split; [lia|]. rewrite Z.sub_diag. change (2 ^ 0) with 1. lia.
  - split; [lia|]. rewrite pos_iter_xO. do 2 f_equal. lia.
Qed.

Lemma binary_round_within s m e M :
  Zpos m <= 2 ^ (M - e) -> e <= M -> -1074 <= M -> M + 1 <= 971 ->
  SF_within (M + 1) (binary_round prec emax s m e).
Proof.
  intros Hm He HM HM'. unfold binary_round.
  pose proof (shl_align_value m e (fexp prec emax (Zpos (digits2_pos m) + e))) as H.
  destruct (shl_align m e _) as [mz ez]. destruct H as [Hez Hmz].
  apply binary_round_aux_within; try lia.
  split; [lia|]. rewrite Hmz.
  replace (M - ez) with ((M - e) + (e - ez)) by lia.
  rewrite Z.pow_add_r by lia.
  apply Z.mul_le_mono_nonneg_r; [|exact Hm]. apply Z.pow_nonneg. lia.
Qed.

Lemma binary_normalize_within z e M :
  Z.abs z <= 2 ^ (M - e) -> e <= M -> -1074 <= M -> M + 1 <= 971 ->
  SF_within (M + 1) (binary_normalize prec emax z e false).
Proof.
  intros Hz He HM HM'. unfold binary_normalize.
  destruct z as [|p|p]; [exact I| |]; apply binary_round_within; auto.
Qed.

Lemma SFadd_within M x y :
  SF_within M x -> SF_within M y ->
  -1074 <= M + 1 -> M + 2 <= 971 ->
  SF_within (M + 2) (SF64add x y).
Proof.
  intros Hx Hy Hlo Hhi. unfold SF64add, SFadd.
  destruct x as [sx|sx| |sx mx ex]; destruct y as [sy|sy| |sy my ey];
    simpl in Hx, Hy; try tauto.
  - destruct sx, sy; exact I.
  - apply (SF_within_mono M); [lia|exact Hy].
  - apply (SF_within_mono M); [lia|exact Hx].
  - destruct Hx as [Hx Hex]. destruct Hy as [Hy Hey].
    set (ez := Z.min ex ey).
    pose proof (shl_align_value mx ex ez) as Ha.
    pose proof (shl_align_value my ey ez) as Hb.
    destruct (shl_align mx ex ez) as [a ea]. destruct (shl_align my ey ez) as [b eb].
    cbn [fst]. destruct Ha as [Hea Ha]. destruct Hb as [Heb Hb].
    assert (Hea' : ea = ez) by (subst ez; lia).
    assert (Heb' : eb = ez) by (subst ez; lia).
    rewrite Hea' in Ha. rewrite Heb' in Hb.
    assert (HP : 0 < 2 ^ (M - ez)) by (apply Z.pow_pos_nonneg; subst ez; lia).
    assert (Ha' : Zpos a <= 2 ^ (M - ez)).
    { rewrite Ha. replace (M - ez) with ((M - ex) + (ex - ez)) by lia.
      rewrite Z.pow_add_r by (subst ez; lia).
      apply Z.mul_le_mono_nonneg_r; [|exact Hx]. apply Z.pow_nonneg. lia. }
    assert (Hb' : Zpos b <= 2 ^ (M - ez)).
    { rewrite Hb. replace (M - ez) with ((M - ey) + (ey - ez)) by lia.
      rewrite Z.pow_add_r by (subst ez; lia).
      apply Z.mul_le_mono_nonneg_r; [|exact Hy]. apply Z.pow_nonneg. lia. }
    replace (M + 2) with (M + 1 + 1) by lia.
    apply binary_normalize_within; try (subst ez; lia).
    replace (M + 1 - ez) with (M - ez + 1) by lia.
    rewrite Z.pow_add_r by (subst ez; lia). change (2 ^ 1) with 2.
    destruct sx, sy; simpl cond_Zopp; lia.
Qed.

Lemma div_eucl_bounds a b q r :
  0 <= a -> 1 <= b -> Z.div_eucl a b = (q, r) -> 0 <= q <= a.
Proof.
  intros Ha Hb E. assert (q = a / b) as -> by (unfold Z.div; now rewrite E).
  split; [apply Z.div_pos; lia|].
  apply Z.div_le_upper_bound; [lia|]. nia.
Qed.

(** A quotient by a finite, non-zero divisor whose exponent is at least
    [-L]. *)
Lemma SFdiv_within M L x sy my ey :
  SF_within M x -> - L <= ey ->
  -1074 <= M + L -> M + L + 1 <= 971 ->
  SF_within (M + L + 1) (SF64div x (S754_finite sy my ey)).
Proof.
  intros Hx HL Hlo Hhi. unfold SF64div, SFdiv.
  destruct x as [sx|sx| |sx mx ex]; simpl in Hx; try tauto; try exact I.
  destruct Hx as [Hx Hex]. unfold SFdiv_core_binary.
  set (e' := Z.min _ (ex - ey)).
  assert (He' : e' <= ex - ey) by (subst e'; lia).
  set (s := ex - ey - e').
  set (m' := match s with 0 => Zpos mx | Zpos _ => Z.shiftl (Zpos mx) s | Zneg _ => 0 end).
  assert (Hm' : 0 <= m' <= Zpos mx * 2 ^ s).
  { subst m'. destruct s as [|p|p] eqn:Es.
    - change (2 ^ 0) with 1. lia.
    - rewrite Z.shiftl_mul_pow2 by lia. lia.
    - rewrite Z.pow_neg_r by lia. lia. }
  destruct (Z.div_eucl m' (Zpos my)) as [q r] eqn:E.
  destruct (div_eucl_bounds m' (Zpos my) q r (proj1 Hm') ltac:(lia) E) as [Hq0 Hq].
  apply binary_round_aux_within; try lia.
  split; [exact Hq0|].
  eapply Z.le_trans; [exact Hq|]. eapply Z.le_trans; [apply Hm'|].
  assert (Hs : 0 <= s) by (subst s; lia).
  eapply Z.le_trans; [apply Z.mul_le_mono_nonneg_r; [apply Z.pow_nonneg; lia|exact Hx]|].
  rewrite <- Z.pow_add_r by lia.
  apply Z.pow_le_mono_r; subst s; lia.
Qed.

Lemma SFdiv_zero sy my ey :
  SF64div (S754_zero false) (S754_finite sy my ey) = S754_zero sy.
Proof. reflexivity. Qed.

(** A finite, non-zero float divided by itself is 1. *)
Lemma SFdiv_self s m e :
  SF64div (S754_finite s m e) (S754_finite s m e)
  = S754_finite false 4503599627370496 (-52).
Proof.
  unfold SF64div, SFdiv, SFdiv_core_binary. cbv zeta.
  rewrite !Z.sub_diag.
  change (IntDef.Z.min (fexp prec emax 0) 0) with (-53).
  change (0 - -53) with 53. cbv iota.
  change (IntDef.Z.shiftl (Zpos m) 53) with (Z.shiftl (Zpos m) 53).
  change IntDef.Z.div_eucl with Z.div_eucl.
  assert (E : Z.div_eucl (Z.shiftl (Zpos m) 53) (Zpos m) = (2 ^ 53, 0)).
  { rewrite Z.shiftl_mul_pow2 by lia.
    pose proof (Z.div_mul (2 ^ 53) (Zpos m) ltac:(lia)) as Hq.
    pose proof (Z.mod_mul (2 ^ 53) (Zpos m) ltac:(lia)) as Hr.
    rewrite (Z.mul_comm (Zpos m)).
    unfold Z.div, Z.modulo in Hq, Hr.
    destruct (Z.div_eucl (2 ^ 53 * Zpos m) (Zpos m)) as [q r]. congruence. }
  rewrite E.
  assert (Hl : new_location (Zpos m) 0 = loc_Exact).
  { unfold new_location. destruct (Z.even (Zpos m)); reflexivity. }
  rewrite Hl. destruct s; reflexivity.
Qed.

(** The float of an unsigned machine integer. *)
Lemma of_uint63_within n : SF_within 64 (Prim2SF (of_uint63 n)).
Proof.
  rewrite of_uint63_spec.
  pose proof (Uint63.to_Z_bounded n) as Hb.
  change Uint63.wB with (2 ^ 63) in Hb.
  apply (binary_normalize_within _ 0 63); lia.
Qed.

Lemma of_uint63_positive n :
  0 < Uint63.to_Z n ->
  exists m e, Prim2SF (of_uint63 n) = S754_finite false m e /\ -52 <= e.
Proof.
  intros Hpos. rewrite of_uint63_spec.
  pose proof (Uint63.to_Z_bounded n) as Hb.
  change Uint63.wB with (2 ^ 63) in Hb.
  destruct (Uint63.to_Z n) as [|p|p]; try lia.
  unfold binary_normalize, binary_round.
  pose proof (shl_align_value p 0 (fexp prec emax (Zpos (digits2_pos p) + 0))) as H.
  destruct (shl_align p 0 _) as [mz ez]. destruct H as [Hez Hmz].
  assert (Hd : 1 <= Zpos (digits2_pos p) <= 63).
  { split; [lia|]. apply (MulBound.Zdigits2_le (Zpos p) 63); lia. }
  pose proof (fexp_bounds (Zpos (digits2_pos p) + 0)) as [Hf1 [Hf2 Hf3]].
  assert (Hez' : -52 <= ez <= 0) by lia.
  assert (Hmz1 : 1 <= Zpos mz) by lia.
  destruct (binary_round_aux_positive false (Zpos mz) ez loc_Exact 63) as [m [e [E [He _]]]].
  - split; [lia|]. rewrite Hmz. simpl Z.sub at 1.
    replace (63 - ez) with (63 + (0 - ez)) by lia.
    rewrite Z.pow_add_r by lia.
    apply Z.mul_le_mono_nonneg_r; [apply Z.pow_nonneg; lia|lia].
  - pose proof (Zdigits2_lower (Zpos mz) Hmz1).
    assert (1 <= Zdigits2 (Zpos mz)); [|lia].
    destruct (Z.le_gt_cases 1 (Zdigits2 (Zpos mz))); auto. simpl in *. lia.
  - lia.
  - exists m, e. split; [exact E|lia].
Qed.

End FloatMag.

(* ================================================================== *)
(** * Scoring a well-formed record never fails *)

Module ScoreTotal.
Import PyFloat FloatMag.
Open Scope Z_scope.

Ltac within_const :=
  unfold SF_within; cbn [Prim2SF];
  split; [apply Z.leb_le; vm_compute; reflexivity|lia].

Lemma mul_within M1 M2 (x y : t) :
  SF_within M1 (Prim2SF x) -> SF_within M2 (Prim2SF y) ->
  -1074 <= M1 + M2 -> M1 + M2 + 1 <= 971 ->
  SF_within (M1 + M2 + 1) (Prim2SF (x * y)).
Proof. rewrite mul_spec. apply SFmul_within. Qed.

Lemma add_within M (x y : t) :
  SF_within M (Prim2SF x) -> SF_within M (Prim2SF y) ->
  -1074 <= M + 1 -> M + 2 <= 971 ->
  SF_within (M + 2) (Prim2SF (x + y)).
Proof. rewrite add_spec. apply SFadd_within. Qed.

Lemma within_0 M : SF_within M (Prim2SF 0).
Proof. exact I. Qed.

Lemma within_100 : SF_within 7 (Prim2SF 100).
Proof. change (Prim2SF 100) with (S754_finite false 7036874417766400 (-46)). within_const. Qed.

Lemma within_75 : SF_within 7 (Prim2SF 75).
Proof. change (Prim2SF 75) with (S754_finite false 5277655813324800 (-46)). within_const. Qed.

Lemma within_25 : SF_within 7 (Prim2SF 25).
Proof. change (Prim2SF 25) with (S754_finite false 7036874417766400 (-48)). within_const. Qed.

Lemma within_weight_30 : SF_within (-1) (Prim2SF 0.30%float).
Proof.
  change (Prim2SF 0.30) with (S754_finite false 5404319552844595 (-54)). within_const.
Qed.

Lemma within_weight_25 : SF_within (-1) (Prim2SF 0.25%float).
Proof.
  change (Prim2SF 0.25) with (S754_finite false 4503599627370496 (-54)). within_const.
Qed.

Lemma within_weight_15 : SF_within (-1) (Prim2SF 0.15%float).
Proof.
  change (Prim2SF 0.15) with (S754_finite false 5404319552844595 (-55)). within_const.
Qed.

Lemma Prim2SF_eq (x y : t) : Prim2SF x = Prim2SF y -> x = y.
Proof. intros H. rewrite <- (SF2Prim_Prim2SF x), <- (SF2Prim_Prim2SF y). now rewrite H. Qed.

Lemma of_int_view z :
  0 < z < 2 ^ 63 ->
  exists m e, Prim2SF (of_int z) = S754_finite false m e /\ -52 <= e.
Proof.
  intros Hz. unfold of_int. apply of_uint63_positive.
  rewrite Uint63.of_Z_spec. change Uint63.wB with (2 ^ 63).
  rewrite Z.mod_small; lia.
Qed.

(** [a / b] on ints, for a divisor a machine word can hold: the quotient
    is a zero or a finite float. *)
Lemma truediv_int_within a b :
  0 < b < 2 ^ 63 ->
  exists q, truediv_int a b = Ok q /\ SF_within 117 (Prim2SF q).
Proof.
  intros Hb. unfold truediv_int.
  destruct (Z.eqb_spec b 0) as [->|_]; [lia|].
  eexists. split; [reflexivity|].
  destruct (of_int_view b Hb) as [m [e [E He]]].
  rewrite div_spec, E.
  apply (SFdiv_within 64 52); try lia. apply of_uint63_within.
Qed.

(** [n / n] is 1 and [0 / n] is 0. *)
Lemma truediv_int_self n : 0 < n < 2 ^ 63 -> truediv_int n n = Ok 1%float.
Proof.
  intros Hn. unfold truediv_int.
  destruct (Z.eqb_spec n 0) as [->|_]; [lia|]. f_equal.
  destruct (of_int_view n Hn) as [m [e [E He]]].
  apply Prim2SF_eq. rewrite div_spec, E. apply SFdiv_self.
Qed.

Lemma truediv_int_zero n : 0 < n < 2 ^ 63 -> truediv_int 0 n = Ok 0%float.
Proof.
  intros Hn. unfold truediv_int.
  destruct (Z.eqb_spec n 0) as [->|_]; [lia|]. f_equal.
  destruct (of_int_view n Hn) as [m [e [E He]]].
  apply Prim2SF_eq. rewrite div_spec, E. reflexivity.
Qed.

Lemma score_budget_values a c :
  pricing a <> None ->
  exists b, score_budget_compatibility a c = Ok b /\ (b = 100%float \/ b = 0%float).
Proof.
  intros H. unfold score_budget_compatibility.
  destruct (pricing a) as [p|]; [|congruence].
  destruct (dict_get_default BudgetTier_beq p (budget c) false); eauto.
Qed.

Lemma score_frequency_values a c :
  frequency_support a <> None ->
  exists f, score_frequency_availability a c = Ok f /\ (f = 100%float \/ f = 0%float).
Proof.
  intros H. unfold score_frequency_availability.
  destruct (frequency_support a) as [fs|]; [|congruence].
  destruct (py_in_list FrequencyTier_beq (frequency c) fs); eauto.
Qed.

Lemma score_use_case_values a c :
  tos_restrictions a <> None ->
  exists u, score_use_case_suitability a c = Ok u /\
            (u = 25%float \/ u = 100%float \/ u = 75%float).
Proof.
  intros H. unfold score_use_case_suitability.
  destruct (py_in_list UseCase_beq (use_case c) commercial_use_cases); [|eauto].
  destruct (tos_restrictions a) as [tos|]; [|congruence].
  destruct (existsb (matches_any commercial_restricted_keywords) tos); [eauto|].
  destruct (existsb (matches_any commercial_allowed_keywords) tos); eauto.
Qed.

Lemma score_data_type_within a c :
  data_coverage a <> None ->
  Z.of_nat (List.length (data_types c)) < 2 ^ 63 ->
  exists d, score_data_type_coverage a c = Ok d /\ SF_within 125 (Prim2SF d).
Proof.
  intros H Hlen. unfold score_data_type_coverage.
  destruct (data_types c) as [|dt dts] eqn:E.
  - exists 100%float. split; [reflexivity|].
    apply (SF_within_mono 7); [lia|apply within_100].
  - destruct (data_coverage a) as [cov|]; [|congruence].
    set (covered := Z.of_nat (List.length (filter _ (dt :: dts)))).
    destruct (truediv_int_within covered (Z.of_nat (List.length (dt :: dts))))
      as [q [-> Hq]].
    { split; [simpl List.length; lia|exact Hlen]. }
    cbn [rbind]. eexists. split; [reflexivity|].
    apply (mul_within 117 7); [exact Hq|apply within_100|lia|lia].
Qed.

Lemma calculate_total_score_four b d f u :
  calculate_total_score
    [("budget", b); ("data_types", d); ("frequency", f); ("use_case", u)]%string None
  = (0 + b * 0.30 + d * 0.30 + f * 0.25 + u * 0.15)%float.
Proof. reflexivity. Qed.

Lemma total_within b d f u :
  SF_within 7 (Prim2SF b) -> SF_within 125 (Prim2SF d) ->
  SF_within 7 (Prim2SF f) -> SF_within 7 (Prim2SF u) ->
  SF_within 131 (Prim2SF (0 + b * 0.30 + d * 0.30 + f * 0.25 + u * 0.15)%float).
Proof.
  intros Hb Hd Hf Hu.
  pose proof (mul_within 7 (-1) b 0.30%float Hb within_weight_30 ltac:(lia) ltac:(lia)) as H1.
  pose proof (mul_within 125 (-1) d 0.30%float Hd within_weight_30 ltac:(lia) ltac:(lia)) as H2.
  pose proof (mul_within 7 (-1) f 0.25%float Hf within_weight_25 ltac:(lia) ltac:(lia)) as H3.
  pose proof (mul_within 7 (-1) u 0.15%float Hu within_weight_15 ltac:(lia) ltac:(lia)) as H4.
  simpl Z.add in H1, H2, H3, H4.
  pose proof (add_within 7 0%float (b * 0.30)%float (within_0 7) H1 ltac:(lia) ltac:(lia)) as S1.
  simpl Z.add in S1.
  pose proof (add_within 125 _ _ (SF_within_mono 9 125 _ ltac:(lia) S1) H2
                ltac:(lia) ltac:(lia)) as S2.
  simpl Z.add in S2.
  pose proof (add_within 127 _ _ S2 (SF_within_mono 7 127 _ ltac:(lia) H3)
                ltac:(lia) ltac:(lia)) as S3.
  simpl Z.add in S3.
  exact (add_within 129 _ _ S3 (SF_within_mono 7 129 _ ltac:(lia) H4)
           ltac:(lia) ltac:(lia)).
Qed.

(** Scoring a well-formed record against constraints with fewer than
    [2^63] data types never raises. *)
Lemma score_entry_total a c :
  well_formed a ->
  Z.of_nat (List.length (data_types c)) < 2 ^ 63 ->
  exists scores total compat,
    score_entry a c = Ok (scores, total, compat) /\
    is_finite total = true.
Proof.
  intros [Hp [Hd [Hf Ht]]] Hlen.
  destruct (score_budget_values a c Hp) as [b [Eb Hb]].
  destruct (score_data_type_within a c Hd Hlen) as [d [Ed Hdw]].
  destruct (score_frequency_values a c Hf) as [f [Ef Hfv]].
  destruct (score_use_case_values a c Ht) as [u [Eu Hu]].
  unfold score_entry, calculate_category_scores.
  rewrite Eb, Ed, Ef, Eu. cbn [rbind].
  rewrite calculate_total_score_four.
  assert (Hw : SF_within 131
                 (Prim2SF (0 + b * 0.30 + d * 0.30 + f * 0.25 + u * 0.15)%float)).
  { apply total_within; auto.
    - destruct Hb as [->| ->]; [apply within_100|apply within_0].
    - destruct Hfv as [->| ->]; [apply within_100|apply within_0].
    - destruct Hu as [->|[->| ->]];
        [apply within_25|apply within_100|apply within_75]. }
  apply SF_within_finite in Hw.
  set (total := (0 + b * 0.30 + d * 0.30 + f * 0.25 + u * 0.15)%float) in *.
  assert (Hfin : is_finite total = true) by exact Hw.
  unfold calculate_compatibility_percentage, py_round.
  unfold is_finite in Hfin.
  destruct (view total) as [s|s| |s m e] eqn:Ev; try discriminate; cbn [rbind];
    eexists _, _, _; (split; [reflexivity|]); unfold is_finite; now rewrite Ev.
Qed.

End ScoreTotal.

Lemma filter_length_all {A} (p : A -> bool) l :
  forallb p l = true -> List.length (filter p l) = List.length l.
Proof.
  induction l as [|x l IH]; simpl; auto. intros H. apply andb_prop in H.
  destruct H as [-> H]. simpl. now rewrite IH.
Qed.

Lemma filter_length_none {A} (p : A -> bool) l :
  existsb p l = false -> List.length (filter p l) = 0.
Proof.
  induction l as [|x l IH]; simpl; auto. intros H. apply orb_false_elim in H.
  destruct H as [-> H]. now apply IH.
Qed.

(** X15.  The data-type score at its extremes: it is exactly 100 when no
    data type is requested, whatever the record holds, and when every
    requested type is covered; it is exactly 0 when none is covered. *)
Theorem score_data_type_coverage_extremes a c :
  (Z.of_nat (List.length (data_types c)) < 2 ^ 63)%Z ->
  (data_types c = [] -> score_data_type_coverage a c = Ok 100%float) /\
  (forall cov,
     data_coverage a = Some cov ->
     forallb (fun dt => py_in_list DataType_beq dt cov) (data_types c) = true ->
     score_data_type_coverage a c = Ok 100%float) /\
  (forall cov,
     data_coverage a = Some cov -> data_types c <> [] ->
     existsb (fun dt => py_in_list DataType_beq dt cov) (data_types c) = false ->
     score_data_type_coverage a c = Ok 0%float).
Proof.
  intros Hlen. unfold score_data_type_coverage.
  split; [intros ->; reflexivity|]. split.
  - intros cov -> Hall. destruct (data_types c) as [|dt dts] eqn:E; [reflexivity|].
    rewrite (filter_length_all _ _ Hall).
    rewrite ScoreTotal.truediv_int_self by (simpl List.length in *; lia).
    reflexivity.
  - intros cov -> Hne Hnone. destruct (data_types c) as [|dt dts] eqn:E; [congruence|].
    rewrite (filter_length_none _ _ Hnone).
    rewrite ScoreTotal.truediv_int_zero by (simpl List.length in *; lia).
    reflexivity.
Qed.

(** X16.  Scoring a well-formed record never raises: the budget and
    frequency scores are 0 or 100, the use-case score is 25, 75 or 100,
    the weighted total is a finite float, and the compatibility percentage
    lies between 0 and 100. *)
Theorem well_formed_record_scores a c :
  well_formed a ->
  (Z.of_nat (List.length (data_types c)) < 2 ^ 63)%Z ->
  exists b d f u total compat,
    score_entry a c
    = Ok ([("budget", b); ("data_types", d); ("frequency", f); ("use_case", u)],
          total, compat) /\
    (b = 100%float \/ b = 0%float) /\
    (f = 100%float \/ f = 0%float) /\
    (u = 25%float \/ u = 75%float \/ u = 100%float) /\
    PyFloat.is_finite total = true /\
    (0 <= compat <= 100)%Z.
Proof.
  intros Hwf Hlen.
  destruct (ScoreTotal.score_entry_total a c Hwf Hlen) as [scores [total [compat [E Hfin]]]].
  destruct (score_entry_invariants a c scores total compat E) as [Hc _].
  destruct Hwf as [Hp [Hd [Hf Ht]]].
  destruct (ScoreTotal.score_budget_values a c Hp) as [b [Eb Hb]].
  destruct (ScoreTotal.score_frequency_values a c Hf) as [f [Ef Hfv]].
  destruct (ScoreTotal.score_use_case_values a c Ht) as [u [Eu Hu]].
  revert E. unfold score_entry, calculate_category_scores. rewrite Eb, Ef, Eu.
  cbn [rbind]. destruct (score_data_type_coverage a c) as [d|]; [|discriminate].
  cbn [rbind]. destruct (calculate_compatibility_percentage _) as [p|]; [|discriminate].
  cbn [rbind]. intros [= <- <- <-].
  exists b, d, f, u. eexists _, _. split; [reflexivity|]. tauto.
Qed.

Lemma well_formed_scores_ok c infos :
  (Z.of_nat (List.length (data_types c)) < 2 ^ 63)%Z ->
  Forall well_formed infos ->
  Forall (fun a => scores_ok c a = true) infos.
Proof.
  intros Hlen H. eapply Forall_impl; [|exact H]. intros a Ha.
  destruct (ScoreTotal.score_entry_total a c Ha Hlen) as [s [t [p [E _]]]].
  unfold scores_ok. now rewrite E.
Qed.

Lemma score_apis_well_formed c apis infos w :
  catalog_of (heap w) apis infos ->
  Forall well_formed infos -> infos <> [] ->
  (Z.of_nat (List.length (data_types c)) < 2 ^ 63)%Z ->
  returns (score_apis c apis w) (ranked c infos) /\
  Permutation (map api (ranked c infos)) infos.
Proof.
  intros Hcat Hwf Hne Hlen.
  pose proof (well_formed_scores_ok c infos Hlen Hwf) as Hok.
  generalize (score_apis_returns c apis infos w Hcat).
  destruct (ranked_properties c infos) as [HP _]. revert HP.
  rewrite (filter_all _ _ Hok). destruct infos as [|a infos]; [congruence|]. auto.
Qed.

(** X17.  On a non-empty catalog of well-formed records [score_apis]
    never raises and skips nothing: it returns exactly one score per
    record. *)
Theorem score_apis_scores_every_well_formed_record c apis infos w :
  catalog_of (heap w) apis infos ->
  Forall well_formed infos -> infos <> [] ->
  (Z.of_nat (List.length (data_types c)) < 2 ^ 63)%Z ->
  exists scores,
    returns (score_apis c apis w) scores /\
    Permutation (map api scores) infos /\
    List.length scores = List.length infos /\
    failing_entries c infos = [].
Proof.
  intros Hcat Hwf Hne Hlen.
  destruct (score_apis_well_formed c apis infos w Hcat Hwf Hne Hlen) as [Hret HP].
  exists (ranked c infos). split; [exact Hret|]. split; [exact HP|]. split.
  - rewrite <- (length_map api). now apply Permutation_length.
  - pose proof (well_formed_scores_ok c infos Hlen Hwf) as Hok.
    clear -Hok. induction Hok as [|a l Ha _ IH]; [reflexivity|].
    cbn [failing_entries flat_map]. unfold scores_ok in Ha.
    destruct (score_entry a c); [exact IH|discriminate].
Qed.

Lemma get_all_apis_well_formed : Forall well_formed get_all_apis.
Proof.
  eapply Forall_impl; [|apply get_all_apis_valid]. intros a [H _]. exact H.
Qed.

(** X18.  The primary path of the application on the built-in catalog:
    for every constraints value, [score_apis] called without a catalog
    returns seven scores, and the verdict generated from them names the
    first of them in bold, states its compatibility percentage and gives at
    least two next steps. *)
Theorem built_in_catalog_always_recommends set_iter c w :
  (Z.of_nat (List.length (data_types c)) < 2 ^ 63)%Z ->
  exists winner rest,
    returns (score_apis c None w) (winner :: rest) /\
    List.length (winner :: rest) = 7 /\
    In (api winner) get_all_apis /\
    recommendation_rank winner = 1%Z /\
    let v := generate_verdict set_iter (winner :: rest) c in
    names_in_bold (name (api winner)) (recommendation_text v) = true /\
    PyStr.contains (PyStr.str_int (compatibility_percentage winner))
      (recommendation_text v) = true /\
    2 <= List.length (next_steps v).
Proof.
  intros Hlen.
  destruct (score_apis_well_formed c None get_all_apis w eq_refl
              get_all_apis_well_formed ltac:(discriminate) Hlen) as [Hret HP].
  destruct (ranked_properties c get_all_apis) as [_ [_ [_ [Hrank _]]]].
  pose proof (Permutation_length HP) as HL. rewrite length_map in HL.
  destruct (ranked c get_all_apis) as [|winner rest] eqn:E; [discriminate HL|].
  exists winner, rest. split; [exact Hret|]. split; [exact HL|].
  assert (Hin : In (api winner) get_all_apis).
  { eapply Permutation_in; [exact HP|]. left. reflexivity. }
  split; [exact Hin|]. split; [apply (Hrank 0 winner eq_refl)|].
  cbv zeta.
  pose proof get_all_apis_valid as Hv. rewrite Forall_forall in Hv.
  pose proof (Hv _ Hin) as Hw.
  unfold generate_verdict.
  pose proof (recommendation_for_spec winner c (proj1 (proj1 Hw))) as E'.
  rewrite E'. cbn [recommendation_text next_steps].
  pose proof (generate_next_steps_length (api winner) c) as Hn.
  split; [|split; [|lia]].
  - destruct (recommendation_for_opening winner c _ E') as [tail ->].
    apply (bold_in "").
  - eapply contains_join; [left; reflexivity|].
    unfold opening_sentence. apply StrFacts.contains_append_r, StrFacts.contains_append_r.
    apply (StrFacts.contains_middle "** is your best match with a **").
Qed.

(* ================================================================== *)
(** * Case, iteration order and the catalog *)

Lemma lower_ascii_idempotent ch :
  PyStr.lower_ascii (PyStr.lower_ascii ch) = PyStr.lower_ascii ch.
Proof.
  destruct ch as [b0 b1 b2 b3 b4 b5 b6 b7].
  destruct b0, b1, b2, b3, b4, b5, b6, b7; reflexivity.
Qed.

Lemma lower_idempotent s : PyStr.lower (PyStr.lower s) = PyStr.lower s.
Proof.
  induction s as [|ch s IH]; simpl; [reflexivity|].
  now rewrite lower_ascii_idempotent, IH.
Qed.

Lemma matches_any_lower ks text :
  matches_any ks (PyStr.lower text) = matches_any ks text.
Proof. unfold matches_any. now rewrite lower_idempotent. Qed.

Lemma existsb_map {A B} (f : B -> bool) (g : A -> B) l :
  existsb f (map g l) = existsb (fun x => f (g x)) l.
Proof. induction l; simpl; congruence. Qed.

(** X19.  The terms of service are matched without regard to letter
    case: lowering the case of every clause of a record changes neither
    its use-case score nor the verdict generator's conflict check. *)
Theorem tos_matching_ignores_case a tos c :
  tos_restrictions a = Some tos ->
  score_use_case_suitability (with_tos_restrictions a (map PyStr.lower tos)) c
  = score_use_case_suitability a c /\
  has_tos_restrictions_for_use_case (with_tos_restrictions a (map PyStr.lower tos))
    (use_case c)
  = has_tos_restrictions_for_use_case a (use_case c).
Proof.
  intros E. unfold score_use_case_suitability, has_tos_restrictions_for_use_case.
  cbn [with_tos_restrictions tos_restrictions]. rewrite E.
  rewrite !existsb_map.
  rewrite (existsb_ext _ _ (matches_any_lower commercial_restricted_keywords) tos).
  rewrite (existsb_ext _ _ (matches_any_lower commercial_allowed_keywords) tos).
  rewrite (existsb_ext _ _ (matches_any_lower tos_conflict_keywords) tos).
  split; reflexivity.
Qed.

Lemma permutation_empty_iff {A} (it : list A -> list A) l :
  Permutation (it l) l -> (it l = [] <-> l = []).
Proof.
  intros H. split; intros E.
  - rewrite E in H. now apply Permutation_nil.
  - subst l. apply Permutation_sym in H. now apply Permutation_nil.
Qed.

(** X20.  The order in which Python iterates a set reaches the verdict
    through the trade-offs only: the recommendation text, the next steps
    and both alternative fields are the same for every order, and so is
    the number of trade-offs. *)
Theorem generate_verdict_order_independent set_iter1 set_iter2 top_apis c :
  let v1 := generate_verdict set_iter1 top_apis c in
  let v2 := generate_verdict set_iter2 top_apis c in
  recommendation_text v1 = recommendation_text v2 /\
  next_steps v1 = next_steps v2 /\
  alternative_api v1 = alternative_api v2 /\
  alternative_reason v1 = alternative_reason v2 /\
  ((forall l, Permutation (set_iter1 l) l) ->
   (forall l, Permutation (set_iter2 l) l) ->
   List.length (trade_offs v1) = List.length (trade_offs v2)).
Proof.
  cbv zeta. destruct top_apis as [|winner rest]; [simpl; auto|].
  unfold generate_verdict.
  destruct (recommendation_for winner c) as [text|e]; [|simpl; auto].
  cbn [recommendation_text next_steps alternative_api alternative_reason trade_offs].
  repeat (split; [reflexivity|]).
  intros H1 H2. destruct (hd_error rest) as [second|]; [|reflexivity].
  unfold generate_trade_offs. cbv zeta.
  destruct (if (reliability_score (api winner) <? reliability_score (api second))%float
            then _ else _) as [t1|]; [|reflexivity].
  cbn [rbind].
  destruct (data_coverage (api winner)) as [tc|]; [|reflexivity].
  destruct (data_coverage (api second)) as [sc|]; [|reflexivity].
  cbn [rbind].
  set (only := filter _ (py_set sc)).
  destruct (if BudgetTier_beq (budget c) FREE then _ else _) as [t4|]; [|reflexivity].
  cbn [rbind]. rewrite !length_app. do 2 f_equal.
  pose proof (permutation_empty_iff set_iter1 only (H1 only)) as E1.
  pose proof (permutation_empty_iff set_iter2 only (H2 only)) as E2.
  destruct (set_iter1 only) as [|x1 l1]; destruct (set_iter2 only) as [|x2 l2];
    try reflexivity.
  - assert (only = []) as E by now apply E1. apply E2 in E. discriminate.
  - assert (only = []) as E by now apply E2. apply E1 in E. discriminate.
Qed.

(** The built-in catalog serves every option of the form: each
    budget tier, each data type and each frequency is offered by some
    record; it has seven records with pairwise distinct names, each of
    which meets the invariants of the data model. *)
Lemma get_all_apis_serves_every_option :
  (forall b, offered (fun a => supports a b) get_all_apis = true) /\
  (forall d, offered (fun a => covers a d) get_all_apis = true) /\
  (forall f, offered (fun a => delivers a f) get_all_apis = true) /\
  List.length get_all_apis = 7 /\
  NoDup (map name get_all_apis) /\
  Forall valid_record get_all_apis.
Proof.
  split; [intros []; reflexivity|].
  split; [intros []; reflexivity|].
  split; [intros []; reflexivity|].
  split; [reflexivity|]. split; [|apply get_all_apis_valid].
  change (map name get_all_apis)
    with ["Alpha Vantage"; "Polygon.io"; "Yahoo Finance"; "Finnhub"; "EODHD";
          "Quandl"; "Marketstack"].
  repeat (constructor; [simpl; intuition discriminate|]). constructor.
Qed.

(* ================================================================== *)
(** * Instances of the theorems above *)

Lemma generate_trade_offs_sentences_witness :
  let top_api := example_score (example_record "Alpha" true [STOCKS] [EOD]) in
  let runner_up := example_score (example_record "Beta" false [STOCKS; CRYPTO] [EOD]) in
  exists l,
    generate_trade_offs example_set_iter top_api runner_up example_constraints = Ok l /\
    List.length l <= 5 /\
    Forall (fun t => names_in_bold (name (api runner_up)) t = true \/
                     names_in_bold (name (api top_api)) t = true) l.
Proof.
  cbv zeta. eexists. split; [vm_compute; reflexivity|].
  apply (generate_trade_offs_sentences example_set_iter
           (example_score (example_record "Alpha" true [STOCKS] [EOD]))
           (example_score (example_record "Beta" false [STOCKS; CRYPTO] [EOD]))
           example_constraints).
  vm_compute. reflexivity.
Defined.

Lemma limitation_reasons_are_significant_witness :
  exists reasons,
    get_limitation_reasons (example_score example_unstable) example_trading_bot
    = Ok reasons /\
    List.length reasons <= 3 /\
    (reasons <> [] ->
     has_significant_limitations (example_score example_unstable) example_trading_bot
     = Ok true).
Proof.
  eexists. split; [vm_compute; reflexivity|].
  apply (limitation_reasons_are_significant (example_score example_unstable)
           example_trading_bot).
  vm_compute. reflexivity.
Defined.

Lemma generate_verdict_trade_offs_witness :
  let winner := example_score (example_record "Alpha" true [STOCKS] [EOD]) in
  let runner_up := example_score (example_record "Beta" false [STOCKS; CRYPTO] [EOD]) in
  exists l,
    generate_trade_offs example_set_iter winner runner_up example_constraints = Ok l /\
    trade_offs (generate_verdict example_set_iter [winner; runner_up] example_constraints)
    = l /\
    (forall first others,
       strengths (api winner) = first :: others ->
       strengths (api runner_up) <> [] ->
       exists before restated,
         l = before ++ [("**" ++ name (api winner) ++ "** excels at: "
                         ++ restated)%string] /\
         (PyStr.isascii first = true -> restated = PyStr.lower first)).
Proof.
  apply (generate_verdict_trade_offs example_set_iter
           (example_score (example_record "Alpha" true [STOCKS] [EOD]))
           (example_score (example_record "Beta" false [STOCKS; CRYPTO] [EOD]))
           [] example_constraints);
    repeat split; (discriminate || reflexivity).
Defined.

Lemma score_apis_score_invariants_witness :
  Forall (score_invariants (List.length (ranked example_constraints example_catalog)))
    (ranked example_constraints example_catalog).
Proof.
  apply (score_apis_score_invariants example_constraints (Some [0; 1; 2]) example_catalog
           (example_world example_catalog)).
  - apply (example_catalog_of example_catalog).
  - eexists. split; vm_compute; reflexivity.
Defined.

Lemma score_apis_logs_skipped_entries_witness :
  skipped_entries
    (log (snd (score_apis example_constraints (Some [0; 1; 2])
                 (example_world example_catalog))))
  = skipped_entries (log (example_world example_catalog))
    ++ failing_entries example_constraints example_catalog.
Proof.
  apply (score_apis_logs_skipped_entries example_constraints (Some [0; 1; 2])
           example_catalog (example_world example_catalog)).
  apply (example_catalog_of example_catalog).
Defined.

Lemma score_data_type_coverage_extremes_witness :
  let a := example_record "Alpha" true [STOCKS] [EOD] in
  let c := example_constraints in
  (data_types c = [] -> score_data_type_coverage a c = Ok 100%float) /\
  (forall cov,
     data_coverage a = Some cov ->
     forallb (fun dt => py_in_list DataType_beq dt cov) (data_types c) = true ->
     score_data_type_coverage a c = Ok 100%float) /\
  (forall cov,
     data_coverage a = Some cov -> data_types c <> [] ->
     existsb (fun dt => py_in_list DataType_beq dt cov) (data_types c) = false ->
     score_data_type_coverage a c = Ok 0%float).
Proof.
  apply (score_data_type_coverage_extremes (example_record "Alpha" true [STOCKS] [EOD])
           example_constraints).
  vm_compute. reflexivity.
Defined.

Lemma well_formed_record_scores_witness :
  exists b d f u total compat,
    score_entry (example_record "Alpha" true [STOCKS] [EOD]) example_constraints
    = Ok ([("budget", b); ("data_types", d); ("frequency", f); ("use_case", u)],
          total, compat) /\
    (b = 100%float \/ b = 0%float) /\
    (f = 100%float \/ f = 0%float) /\
    (u = 25%float \/ u = 75%float \/ u = 100%float) /\
    PyFloat.is_finite total = true /\
    (0 <= compat <= 100)%Z.
Proof.
  apply (well_formed_record_scores (example_record "Alpha" true [STOCKS] [EOD])
           example_constraints).
  - repeat split; discriminate.
  - vm_compute. reflexivity.
Defined.

Lemma score_apis_scores_every_well_formed_record_witness :
  let infos := [example_record "Beta" false [STOCKS] [EOD];
                example_record "Alpha" true [STOCKS] []] in
  exists scores,
    returns (score_apis example_constraints (Some [0; 1]) (example_world infos)) scores /\
    Permutation (map api scores) infos /\
    List.length scores = List.length infos /\
    failing_entries example_constraints infos = [].
Proof.
  apply (score_apis_scores_every_well_formed_record example_constraints (Some [0; 1])
           [example_record "Beta" false [STOCKS] [EOD];
            example_record "Alpha" true [STOCKS] []]).
  - apply (example_catalog_of [example_record "Beta" false [STOCKS] [EOD];
                               example_record "Alpha" true [STOCKS] []]).
  - repeat constructor; discriminate.
  - discriminate.
  - vm_compute. reflexivity.
Defined.

Lemma built_in_catalog_always_recommends_witness :
  exists winner rest,
    returns (score_apis example_constraints None (example_world [])) (winner :: rest) /\
    List.length (winner :: rest) = 7 /\
    In (api winner) get_all_apis /\
    recommendation_rank winner = 1%Z /\
    let v := generate_verdict example_set_iter (winner :: rest) example_constraints in
    names_in_bold (name (api winner)) (recommendation_text v) = true /\
    PyStr.contains (PyStr.str_int (compatibility_percentage winner))
      (recommendation_text v) = true /\
    2 <= List.length (next_steps v).
Proof.
  apply (built_in_catalog_always_recommends example_set_iter example_constraints
           (example_world [])).
  vm_compute. reflexivity.
Defined.

Lemma tos_matching_ignores_case_witness :
  score_use_case_suitability
    (with_tos_restrictions example_unstable
       (map PyStr.lower ["Commercial Use Explicitly Prohibited"])) example_trading_bot
  = score_use_case_suitability example_unstable example_trading_bot /\
  has_tos_restrictions_for_use_case
    (with_tos_restrictions example_unstable
       (map PyStr.lower ["Commercial Use Explicitly Prohibited"]))
    (use_case example_trading_bot)
  = has_tos_restrictions_for_use_case example_unstable (use_case example_trading_bot).
Proof.
  apply (tos_matching_ignores_case example_unstable
           ["Commercial Use Explicitly Prohibited"] example_trading_bot).
  reflexivity.
Defined.

(** The mixed-case clause of the example is matched: the record scores 25
    for a trading bot. *)
Lemma example_unstable_penalised :
  score_use_case_suitability example_unstable example_trading_bot = Ok 25%float /\
  get_limitation_reasons (example_score example_unstable) example_trading_bot
  = Ok ["lower reliability score (50%)";
        "TOS restrictions that may conflict with your use case";
        "potential stability concerns (unofficial API)"].
Proof. vm_compute. split; reflexivity. Qed.

(** Examples of the validation. *)
Lemma validate_constraints_examples :
  validate_constraints "Free" ["Stocks"; "Crypto"] "End-of-day" "Trading Bot" = (true, None) /\
  validate_constraints "Cheap" [] "Hourly" "Fun"
  = (false, Some "Invalid budget selection: Cheap") /\
  validate_constraints "Free" [] "Hourly" "Fun"
  = (false, Some "Please select at least one data type.") /\
  validate_constraints "Free" ["Stocks"; "Bonds"; "Gold"] "Hourly" "Fun"
  = (false, Some "Invalid data type: Bonds") /\
  validate_constraints "Free" ["Stocks"] "Hourly" "Fun"
  = (false, Some "Invalid frequency selection: Hourly") /\
  validate_constraints "Free" ["Stocks"] "End-of-day" "Fun"
  = (false, Some "Invalid use case: Fun") /\
  normalize_constraints "Free" ["Stocks"] "End-of-day" "Research/Analysis"
  = Ok example_constraints /\
  normalize_constraints "Free" ["Bonds"] "End-of-day" "Research/Analysis"
  = Raise (ValueError "'Bonds' is not a valid DataType").
Proof. repeat split; reflexivity. Qed.
